(** * AsyncCollectiveCreator: synchronous collectives to start/done pairs

    A shallow embedding of [AsyncCollectiveCreator::Run]
    (xla/service/async_collective_creator.cc) and the properties of the
    rewrite: which instructions are replaced, what the replacements look
    like, how the schedule is patched, and how the pass fails.

    Pointers to instructions and computations are modelled by their unique
    ids; a computation owns its instructions in insertion order; the module
    owns the computations, the optional schedule and the id counter. *)

From stdpp Require Import gmap strings list fin_maps.

Set Warnings "-register-all".

Abbreviation InstrId := nat (only parsing).
Abbreviation CompId := nat (only parsing).

(** ** Shapes

    Modelled from the spec: the IR's shape data structure and [ShapeUtil]
    are not in the pass's source file. A shape is an array of a primitive
    type, a tuple of shapes, or a token. *)

Inductive PrimitiveType := PRED | S32 | U32 | F32 | BF16.

Inductive Shape :=
| ArrayShape (element_type : PrimitiveType) (dimensions : list Z)
| TupleShape (tuple_shapes : list Shape)
| TokenShape.

Module ShapeUtil.
Definition MakeShape (ty : PrimitiveType) (dims : list Z) (dynamic : list bool) : Shape :=
  ArrayShape ty dims.
Definition MakeScalarShape (ty : PrimitiveType) : Shape := ArrayShape ty [].
Definition MakeTupleShape (shapes : list Shape) : Shape := TupleShape shapes.
Definition MakeTupleShapeWithPtrs (shapes : list Shape) : Shape := TupleShape shapes.
Definition MakeTokenShape : Shape := TokenShape.
End ShapeUtil.

(** ** Instructions

    Modelled from the spec: the IR's instruction data structure is not in
    the pass's source file. An instruction is tagged by its opcode and
    carries a result shape, an ordered list of operand references,
    metadata, a backend configuration, the attributes of the collective
    kinds, the custom-call fields and its control edges. *)

Inductive HloOpcode :=
| kParameter | kConstant | kAdd | kTuple | kGetTupleElement
| kAllReduce | kAllReduceStart | kAllReduceDone
| kAllGather | kAllGatherStart | kAllGatherDone
| kCollectivePermute | kCollectivePermuteStart | kCollectivePermuteDone
| kAllToAll | kAsyncStart | kAsyncDone
| kCustomCall.

#[global] Instance HloOpcode_eq_dec : EqDecision HloOpcode.
Proof. solve_decision. Defined.

Record HloInstruction := mkInstruction {
  unique_id : InstrId;
  opcode : HloOpcode;
  shape : Shape;
  operands : list InstrId;
  metadata : string;
  backend_config : string;
  to_apply : option CompId;
  replica_groups : list (list Z);
  constrain_layout : bool;
  channel_id : option Z;
  use_global_device_ids : bool;
  all_gather_dimension : Z;
  source_target_pairs : list (Z * Z);
  dynamic_slice_sizes_list : list (list Z);
  custom_call_target : string;
  custom_call_has_side_effect : bool;
  disjoint_read_write_regions : bool;
  control_predecessors : list InstrId;
  control_successors : list InstrId;
}.

Definition operand_count (i : HloInstruction) : nat := length (operands i).

(** ** Computations, schedule, module

    Modelled from the spec: a computation owns its instructions in
    insertion order; the module owns the computations, an optional
    schedule (for each scheduled computation, a sequence of instruction
    references) and the counter that gives new instructions their
    identity. *)

Record HloComputation := mkComputation {
  instructions : list HloInstruction;
  root_instruction : InstrId;
  execution_thread : string;
  IsFusionComputation : bool;
}.

Record HloModule := mkModule {
  computations : gmap nat HloComputation;
  schedule : option (gmap nat (list nat));
  next_unique_id : InstrId;
}.

(** ** Results of fallible calls *)

Record Status := mkStatus { error_message : string; error_context : list string }.

Inductive StatusOr (A : Type) :=
| OkValue (a : A)
| ErrorStatus (s : Status).
Arguments OkValue {A} a.
Arguments ErrorStatus {A} s.

(** The ways the process dies instead of returning. *)
Inductive Fatal :=
| CheckEqOperandCount (actual expected : nat)
| BadStatusOrAccess (s : Status)
| OperandIndexOutOfRange (index : nat)
| InvalidPointer (p : nat).

Inductive Outcome (A : Type) :=
| Ok (a : A)
| Failed (s : Status)
| Aborted (f : Fatal).
Arguments Ok {A} a.
Arguments Failed {A} s.
Arguments Aborted {A} f.

(** ** State and failure: a small monad

    The pass threads mutable state through calls that return a value,
    return a failure status, or kill the process. *)

Definition M (S A : Type) : Type := S → Outcome A * S.

Definition ret {S A} (a : A) : M S A := λ s, (Ok a, s).

Definition bind {S A B} (x : M S A) (k : A → M S B) : M S B := λ s,
  match x s with
  | (Ok a, s') => k a s'
  | (Failed e, s') => (Failed e, s')
  | (Aborted f, s') => (Aborted f, s')
  end.

Notation "'do' x <- e ; k" := (bind e (λ x, k))
  (at level 10, x name, e at level 100, k at level 200,
   format "'[v' 'do'  x  <-  e ; '/' k ']'").
Notation "e ;; k" := (bind e (λ _, k))
  (at level 100, k at level 200, right associativity).

Definition fail {S A} (e : Status) : M S A := λ s, (Failed e, s).
Definition abort {S A} (f : Fatal) : M S A := λ s, (Aborted f, s).

(** [TF_RETURN_WITH_CONTEXT_IF_ERROR]: a failure is returned with the
    context attached. *)
Definition with_context {S A} (x : M S A) (ctx : string) : M S A := λ s,
  match x s with
  | (Failed e, s') =>
      (Failed {| error_message := error_message e;
                 error_context := error_context e ++ [ctx] |}, s')
  | r => r
  end.

(** [StatusOr::value()]: the value, or the process dies. *)
Definition value {S A} (r : StatusOr A) : M S A :=
  match r with
  | OkValue a => ret a
  | ErrorStatus e => abort (BadStatusOrAccess e)
  end.

(** [CHECK_EQ(a, b)] *)
Definition CHECK_EQ_operand_count {S} (a b : nat) : M S unit :=
  if decide (a = b) then ret tt else abort (CheckEqOperandCount a b).

(** ** The states

    While the candidates of one computation are rewritten, the code works
    through the [computation] pointer: the state in focus is that
    computation and the module's id counter. The loop over the
    computations works on the module; every call it makes on the module's
    schedule is written down with the computation being processed (the
    record of accesses is instrumentation). *)

Record Focus := mkFocus {
  computation : HloComputation;
  next_id : InstrId;
}.

Inductive ScheduleAccess :=
| AccHasSchedule (during : CompId)
| AccIsComputationScheduled (c : CompId)
| AccSequence (c : CompId)
| AccSetSequence (c : CompId).

Definition access_computation (a : ScheduleAccess) : CompId :=
  match a with
  | AccHasSchedule c | AccIsComputationScheduled c | AccSequence c | AccSetSequence c => c
  end.

Record PassState := mkState {
  st_module : HloModule;
  st_accesses : list ScheduleAccess;
}.

(** Work on the computation behind a [HloComputation*]. *)
Definition focus {A} (cid : CompId) (f : M Focus A) : M PassState A := λ s,
  let m := st_module s in
  match computations m !! cid with
  | None => (Aborted (InvalidPointer cid), s)
  | Some c =>
      let r := f (mkFocus c (next_unique_id m)) in
      (r.1, mkState (mkModule (<[cid := computation r.2]> (computations m))
                              (schedule m) (next_id r.2))
                    (st_accesses s))
  end.

(** Read the computation behind a [HloComputation*]. *)
Definition lookup_computation (cid : CompId) : M PassState HloComputation := λ s,
  match computations (st_module s) !! cid with
  | Some c => (Ok c, s)
  | None => (Aborted (InvalidPointer cid), s)
  end.

(** ** Pointer and container primitives of a computation

    Modelled from the spec: the accessors and mutators of [HloInstruction]
    and [HloComputation] that the pass calls are not in its source file.
    A pointer is valid when its instruction is in the computation; an
    operand index is valid when it is below the operand count. *)

Definition fresh_id : M Focus InstrId := λ s,
  (Ok (next_id s), mkFocus (computation s) (S (next_id s))).

Definition find_instruction (c : HloComputation) (p : InstrId) : option HloInstruction :=
  List.find (λ i, bool_decide (unique_id i = p)) (instructions c).

Definition get_computation : M Focus HloComputation := λ s, (Ok (computation s), s).

Definition put_computation (c : HloComputation) : M Focus unit := λ s,
  (Ok tt, mkFocus c (next_id s)).

(** The instruction behind a [HloInstruction*]. *)
Definition deref (p : InstrId) : M Focus HloInstruction :=
  do c <- get_computation;
  match find_instruction c p with
  | Some i => ret i
  | None => abort (InvalidPointer p)
  end.

(** [instruction->mutable_operand(i)] *)
Definition mutable_operand (i : HloInstruction) (n : nat) : M Focus InstrId :=
  match operands i !! n with
  | Some p => ret p
  | None => abort (OperandIndexOutOfRange n)
  end.

(** [&op->shape()] for every operand of an instruction. *)
Fixpoint operand_shapes_of (ops : list InstrId) : M Focus (list Shape) :=
  match ops with
  | [] => ret []
  | p :: rest =>
      do op <- deref p;
      do shapes <- operand_shapes_of rest;
      ret (shape op :: shapes)
  end.

Definition with_instructions (c : HloComputation) (l : list HloInstruction) : HloComputation :=
  mkComputation l (root_instruction c) (execution_thread c) (IsFusionComputation c).

(** [computation->AddInstruction(std::move(instr))]: the instruction is
    appended to the computation; its address is the one it was created at. *)
Definition AddInstruction (instr : HloInstruction) : M Focus InstrId :=
  do c <- get_computation;
  put_computation (with_instructions c (instructions c ++ [instr]));;
  ret (unique_id instr).

(** In-place update of one instruction of a computation. *)
Definition update_instruction (c : HloComputation) (p : InstrId)
    (f : HloInstruction → HloInstruction) : HloComputation :=
  with_instructions c
    (map (λ i, if bool_decide (unique_id i = p) then f i else i) (instructions c)).

Definition mutate (p : InstrId) (f : HloInstruction → HloInstruction) : M Focus unit :=
  do _ <- deref p;
  do c <- get_computation;
  put_computation (update_instruction c p f).

Definition with_metadata (md : string) (i : HloInstruction) : HloInstruction :=
  mkInstruction (unique_id i) (opcode i) (shape i) (operands i) md (backend_config i)
    (to_apply i) (replica_groups i) (constrain_layout i) (channel_id i)
    (use_global_device_ids i) (all_gather_dimension i) (source_target_pairs i)
    (dynamic_slice_sizes_list i) (custom_call_target i) (custom_call_has_side_effect i)
    (disjoint_read_write_regions i) (control_predecessors i) (control_successors i).

Definition with_backend_config (cfg : string) (i : HloInstruction) : HloInstruction :=
  mkInstruction (unique_id i) (opcode i) (shape i) (operands i) (metadata i) cfg
    (to_apply i) (replica_groups i) (constrain_layout i) (channel_id i)
    (use_global_device_ids i) (all_gather_dimension i) (source_target_pairs i)
    (dynamic_slice_sizes_list i) (custom_call_target i) (custom_call_has_side_effect i)
    (disjoint_read_write_regions i) (control_predecessors i) (control_successors i).

Definition with_operands (ops : list InstrId) (i : HloInstruction) : HloInstruction :=
  mkInstruction (unique_id i) (opcode i) (shape i) ops (metadata i) (backend_config i)
    (to_apply i) (replica_groups i) (constrain_layout i) (channel_id i)
    (use_global_device_ids i) (all_gather_dimension i) (source_target_pairs i)
    (dynamic_slice_sizes_list i) (custom_call_target i) (custom_call_has_side_effect i)
    (disjoint_read_write_regions i) (control_predecessors i) (control_successors i).

Definition with_side_effect (b : bool) (i : HloInstruction) : HloInstruction :=
  mkInstruction (unique_id i) (opcode i) (shape i) (operands i) (metadata i) (backend_config i)
    (to_apply i) (replica_groups i) (constrain_layout i) (channel_id i)
    (use_global_device_ids i) (all_gather_dimension i) (source_target_pairs i)
    (dynamic_slice_sizes_list i) (custom_call_target i) b
    (disjoint_read_write_regions i) (control_predecessors i) (control_successors i).

Definition with_disjoint_read_write_regions (b : bool) (i : HloInstruction) : HloInstruction :=
  mkInstruction (unique_id i) (opcode i) (shape i) (operands i) (metadata i) (backend_config i)
    (to_apply i) (replica_groups i) (constrain_layout i) (channel_id i)
    (use_global_device_ids i) (all_gather_dimension i) (source_target_pairs i)
    (dynamic_slice_sizes_list i) (custom_call_target i) (custom_call_has_side_effect i)
    b (control_predecessors i) (control_successors i).

Definition add_control_successor (q : InstrId) (i : HloInstruction) : HloInstruction :=
  mkInstruction (unique_id i) (opcode i) (shape i) (operands i) (metadata i) (backend_config i)
    (to_apply i) (replica_groups i) (constrain_layout i) (channel_id i)
    (use_global_device_ids i) (all_gather_dimension i) (source_target_pairs i)
    (dynamic_slice_sizes_list i) (custom_call_target i) (custom_call_has_side_effect i)
    (disjoint_read_write_regions i) (control_predecessors i)
    (if bool_decide (q ∈ control_successors i) then control_successors i
     else control_successors i ++ [q]).

Definition add_control_predecessor (q : InstrId) (i : HloInstruction) : HloInstruction :=
  mkInstruction (unique_id i) (opcode i) (shape i) (operands i) (metadata i) (backend_config i)
    (to_apply i) (replica_groups i) (constrain_layout i) (channel_id i)
    (use_global_device_ids i) (all_gather_dimension i) (source_target_pairs i)
    (dynamic_slice_sizes_list i) (custom_call_target i) (custom_call_has_side_effect i)
    (disjoint_read_write_regions i)
    (if bool_decide (q ∈ control_predecessors i) then control_predecessors i
     else control_predecessors i ++ [q])
    (control_successors i).

(** [start->set_metadata(md)], [start->CopyBackendConfigFrom(other)],
    [cc->set_custom_call_has_side_effect(b)],
    [SetDisjointReadWriteRegionsAttr(start)],
    [HasDisjointReadWriteRegionsAttr(cp)] *)
Definition set_metadata (p : InstrId) (md : string) : M Focus unit :=
  mutate p (with_metadata md).

Definition CopyBackendConfigFrom (p : InstrId) (other : HloInstruction) : M Focus unit :=
  mutate p (with_backend_config (backend_config other)).

Definition set_custom_call_has_side_effect (p : InstrId) (b : bool) : M Focus unit :=
  mutate p (with_side_effect b).

Definition SetDisjointReadWriteRegionsAttr (p : InstrId) : M Focus unit :=
  mutate p (with_disjoint_read_write_regions true).

Definition HasDisjointReadWriteRegionsAttr (i : HloInstruction) : bool :=
  disjoint_read_write_regions i.

(** ** Instruction factories ([HloInstruction::Create...])

    Modelled from the spec: the factories are not in the pass's source file.
    A factory allocates the instruction (its address is its identity from
    then on) and fills in the fields it is given; everything else is empty. *)

Definition new_instruction (p : InstrId) (op : HloOpcode) (sh : Shape)
    (ops : list InstrId) : HloInstruction :=
  mkInstruction p op sh ops "" "" None [] false None false 0 [] [] "" false false [] [].

Definition CreateAllReduceStart (sh : Shape) (ops : list InstrId)
    (reduce_computation : option CompId) (groups : list (list Z))
    (constrain : bool) (channel : option Z) (global_ids : bool) : M Focus HloInstruction :=
  do p <- fresh_id;
  ret (mkInstruction p kAllReduceStart sh ops "" "" reduce_computation groups
         constrain channel global_ids 0 [] [] "" false false [] []).

Definition CreateAllGatherStart (sh : Shape) (ops : list InstrId)
    (dimension : Z) (groups : list (list Z))
    (constrain : bool) (channel : option Z) (global_ids : bool) : M Focus HloInstruction :=
  do p <- fresh_id;
  ret (mkInstruction p kAllGatherStart sh ops "" "" None groups
         constrain channel global_ids dimension [] [] "" false false [] []).

Definition CreateCollectivePermuteStart (sh : Shape) (ops : list InstrId)
    (pairs : list (Z * Z)) (slice_sizes : list (list Z))
    (channel : option Z) : M Focus HloInstruction :=
  do p <- fresh_id;
  ret (mkInstruction p kCollectivePermuteStart sh ops "" "" None []
         false channel false 0 pairs slice_sizes "" false false [] []).

Definition CreateUnary (sh : Shape) (op : HloOpcode) (operand : InstrId) : M Focus HloInstruction :=
  do p <- fresh_id;
  ret (new_instruction p op sh [operand]).

Definition CreateCustomCall (sh : Shape) (ops : list InstrId) (target : string)
    : M Focus HloInstruction :=
  do p <- fresh_id;
  ret (mkInstruction p kCustomCall sh ops "" "" None [] false None false 0 [] []
         target false false [] []).

(** ** The pass object and its collaborators *)

(** The configuration held by an [AsyncCollectiveCreator]: the four
    conversion predicates and the send/recv tracking predicate. *)
Record AsyncCollectiveCreator := mkCreator {
  convert_all_reduce_ : HloInstruction → bool;
  convert_all_gather_ : HloInstruction → bool;
  convert_collective_permute_ : HloInstruction → bool;
  convert_all_to_all_ : HloInstruction → bool;
  track_send_recv_separately_ : HloInstruction → bool;
}.

(** What the pass consumes from code that is not part of the pass: shape
    inference, the conditions under which the graph primitives report a
    failure, the thread selection of the module, and the printing of an
    instruction. A failure condition is [None] when the call succeeds. *)
Record Collaborators := mkCollaborators {
  InferCollectivePermuteStartShape : list Shape → StatusOr Shape;
  ReplaceInstruction_failure : HloComputation → InstrId → InstrId → option Status;
  AddControlDependencyTo_failure : HloComputation → InstrId → InstrId → option Status;
  CreateAsyncInstructions_failure : HloComputation → HloInstruction → option Status;
  thread_selected : gset string → string → bool;
  ToShortString : HloInstruction → string;
}.

Record ReplacedAsync := mkReplacedAsync { start : InstrId; done : InstrId }.

Section Pass.

Context (self : AsyncCollectiveCreator) (ext : Collaborators).

(** *** Graph primitives of the computation *)

(** The operands of a user after the rewiring from [old] to [new]. *)
Definition replace_uses (old new : InstrId) (i : HloInstruction) : HloInstruction :=
  with_operands (map (λ p, if bool_decide (p = old) then new else p) (operands i)) i.

(** The computation after the replacement of [old] by [new]. *)
Definition replace_in_computation (c : HloComputation) (old new : InstrId) : HloComputation :=
  mkComputation
    (map (replace_uses old new)
         (filter (λ i, unique_id i ≠ old) (instructions c)))
    (if bool_decide (root_instruction c = old) then new else root_instruction c)
    (execution_thread c) (IsFusionComputation c).

(** Modelled from the spec: [HloComputation::ReplaceInstruction], the graph's
    replace-instruction primitive, is not in the pass's source file. Every
    user of the old instruction is rewired to the new one, the root follows,
    and the old instruction is detached and destroyed; the primitive may
    report a failure instead. *)
Definition ReplaceInstruction (old new : InstrId) : M Focus unit :=
  do c <- get_computation;
  match ReplaceInstruction_failure ext c old new with
  | Some e => fail e
  | None =>
      do _ <- deref old;
      do _ <- deref new;
      put_computation (replace_in_computation c old new)
  end.

(** [ReplaceWithNewInstruction(old, std::move(new))]: add, then replace. *)
Definition ReplaceWithNewInstruction (old : InstrId)
    (new_instr : HloInstruction) : M Focus unit :=
  do new <- AddInstruction new_instr;
  ReplaceInstruction old new.

(** Modelled from the spec: [HloInstruction::AddControlDependencyTo], the
    primitive that adds an explicit ordering edge between two instructions,
    is not in the pass's source file. The edge is recorded on both ends. *)
Definition AddControlDependencyTo (from to : InstrId) : M Focus unit :=
  do c <- get_computation;
  match AddControlDependencyTo_failure ext c from to with
  | Some e => fail e
  | None =>
      mutate from (add_control_successor to);;
      mutate to (add_control_predecessor from)
  end.

(** Modelled from the spec: [HloComputation::CreateAsyncInstructions], the
    generic two-phase async-instruction constructor, is not in the pass's
    source file. It creates an async-start over the operands of the wrapped
    instruction and an async-done over the start with the wrapped
    instruction's result shape, copies metadata and backend configuration
    onto the start, rewires the users of the wrapped instruction to the
    done, destroys the wrapped instruction, and returns the done. The
    result shape of the start (operand shapes, result shape, then the
    context shapes) is not fixed by the spec and no property below depends
    on it. The construction fails exactly when the underlying call fails. *)
Definition CreateAsyncInstructions (instruction : HloInstruction)
    (context_shapes : list Shape) : M Focus InstrId :=
  do c <- get_computation;
  match CreateAsyncInstructions_failure ext c instruction with
  | Some e => fail e
  | None =>
      do parameter_shapes <- operand_shapes_of (operands instruction);
      do p <- fresh_id;
      do async_start <- AddInstruction
        (new_instruction p kAsyncStart
           (ShapeUtil.MakeTupleShape
              (ShapeUtil.MakeTupleShape parameter_shapes :: shape instruction :: context_shapes))
           (operands instruction));
      do q <- fresh_id;
      do async_done <- AddInstruction
        (new_instruction q kAsyncDone (shape instruction) [async_start]);
      set_metadata async_start (metadata instruction);;
      CopyBackendConfigFrom async_start instruction;;
      ReplaceInstruction (unique_id instruction) async_done;;
      ret async_done
  end.

(** *** Schedule of the module

    Modelled from the spec: [HloModule::has_schedule] and the accessors of
    [HloSchedule] are not in the pass's source file. *)

Definition log_access (a : ScheduleAccess) : M PassState unit := λ s,
  (Ok tt, mkState (st_module s) (st_accesses s ++ [a])).

Definition has_schedule (during : CompId) : M PassState bool :=
  log_access (AccHasSchedule during);;
  λ s, (Ok (bool_decide (is_Some (schedule (st_module s)))), s).

Definition is_computation_scheduled (cid : CompId) : M PassState bool :=
  log_access (AccIsComputationScheduled cid);;
  λ s, match schedule (st_module s) with
       | Some sched => (Ok (bool_decide (is_Some (sched !! cid))), s)
       | None => (Aborted (InvalidPointer cid), s)
       end.

Definition sequence (cid : CompId) : M PassState (list InstrId) :=
  log_access (AccSequence cid);;
  λ s, match schedule (st_module s) with
       | Some sched =>
           match sched !! cid with
           | Some seq => (Ok seq, s)
           | None => (Aborted (InvalidPointer cid), s)
           end
       | None => (Aborted (InvalidPointer cid), s)
       end.

Definition set_sequence (cid : CompId) (seq : list InstrId) : M PassState unit :=
  log_access (AccSetSequence cid);;
  λ s, let m := st_module s in
       match schedule m with
       | Some sched =>
           (Ok tt, mkState (mkModule (computations m) (Some (<[cid := seq]> sched))
                              (next_unique_id m)) (st_accesses s))
       | None => (Aborted (InvalidPointer cid), s)
       end.

(** Modelled from the spec: [HloModule::MakeNonfusionComputations] is not in
    the pass's source file. The eligible computations are the non-fusion
    computations whose execution thread the host's set semantics selects. *)
Definition eligible (execution_threads : gset string) (c : HloComputation) : bool :=
  negb (IsFusionComputation c) &&
  thread_selected ext execution_threads (execution_thread c).

Definition MakeNonfusionComputations (m : HloModule) (execution_threads : gset string)
    : list CompId :=
  (filter (λ entry, eligible execution_threads entry.2 = true)
          (map_to_list (computations m))).*1.

(** *** The rewrite of one candidate *)

(** The candidate test of the scan (lines 47-54). *)
Definition is_supported_collective (instruction : HloInstruction) : bool :=
  (bool_decide (opcode instruction = kAllReduce) && convert_all_reduce_ self instruction) ||
  (bool_decide (opcode instruction = kAllGather) && convert_all_gather_ self instruction) ||
  (bool_decide (opcode instruction = kCollectivePermute) &&
     convert_collective_permute_ self instruction) ||
  (bool_decide (opcode instruction = kAllToAll) && convert_all_to_all_ self instruction).

(** [if (should_update_schedule) replaced_pairs[original] = {start, done}] *)
Definition record_pair (should_update_schedule : bool) (original : HloInstruction)
    (s d : InstrId) (replaced_pairs : gmap nat ReplacedAsync) : gmap nat ReplacedAsync :=
  if should_update_schedule
  then <[unique_id original := mkReplacedAsync s d]> replaced_pairs
  else replaced_pairs.

(** The all-reduce branch (lines 67-86). *)
Definition convert_all_reduce (should_update_schedule : bool)
    (ar : HloInstruction) (replaced_pairs : gmap nat ReplacedAsync)
    : M Focus (gmap nat ReplacedAsync) :=
  do start_instr <- CreateAllReduceStart (shape ar) (operands ar) (to_apply ar)
                      (replica_groups ar) (constrain_layout ar) (channel_id ar)
                      (use_global_device_ids ar);
  do start <- AddInstruction start_instr;
  do done <- CreateUnary (shape ar) kAllReduceDone start;
  set_metadata start (metadata ar);;
  CopyBackendConfigFrom start ar;;
  let replaced_pairs :=
    record_pair should_update_schedule ar start (unique_id done) replaced_pairs in
  with_context (ReplaceWithNewInstruction (unique_id ar) done)
               ("replacing " ++ ToShortString ext ar);;
  ret replaced_pairs.

(** The all-gather branch (lines 87-116). *)
Definition convert_all_gather (should_update_schedule : bool)
    (ag : HloInstruction) (replaced_pairs : gmap nat ReplacedAsync)
    : M Focus (gmap nat ReplacedAsync) :=
  do operand_shapes <- operand_shapes_of (operands ag);
  do input_shape <-
    (if bool_decide (1 < operand_count ag)
     then ret (ShapeUtil.MakeTupleShapeWithPtrs operand_shapes)
     else match operand_shapes !! 0 with
          | Some sh => ret sh
          | None => abort (OperandIndexOutOfRange 0)
          end);
  let sh := ShapeUtil.MakeTupleShape [input_shape; shape ag] in
  do start_instr <- CreateAllGatherStart sh (operands ag) (all_gather_dimension ag)
                      (replica_groups ag) (constrain_layout ag) (channel_id ag)
                      (use_global_device_ids ag);
  do start <- AddInstruction start_instr;
  do done <- CreateUnary (shape ag) kAllGatherDone start;
  set_metadata start (metadata ag);;
  CopyBackendConfigFrom start ag;;
  let replaced_pairs :=
    record_pair should_update_schedule ag start (unique_id done) replaced_pairs in
  with_context (ReplaceWithNewInstruction (unique_id ag) done)
               ("replacing " ++ ToShortString ext ag);;
  ret replaced_pairs.

(** The start instruction of a collective-permute, by operand count
    (lines 119-147). The shape of the four-operand variant is the unwrapped
    result of shape inference. *)
Definition collective_permute_start (cp : HloInstruction) : M Focus InstrId :=
  do operand <- mutable_operand cp 0;
  if bool_decide (operand_count cp = 1) then
    do operand_instr <- deref operand;
    do start_instr <- CreateCollectivePermuteStart
      (ShapeUtil.MakeTupleShape
         [shape operand_instr; shape cp;
          ShapeUtil.MakeShape U32 [] []; ShapeUtil.MakeShape U32 [] []])
      [operand] (source_target_pairs cp) [] (channel_id cp);
    AddInstruction start_instr
  else
    CHECK_EQ_operand_count (operand_count cp) 4;;
    do operand_shapes <- operand_shapes_of (operands cp);
    do sh <- value (InferCollectivePermuteStartShape ext operand_shapes);
    do operand1 <- mutable_operand cp 1;
    do operand2 <- mutable_operand cp 2;
    do operand3 <- mutable_operand cp 3;
    do start_instr <- CreateCollectivePermuteStart sh
      [operand; operand1; operand2; operand3]
      (source_target_pairs cp) (dynamic_slice_sizes_list cp) (channel_id cp);
    do start <- AddInstruction start_instr;
    (if HasDisjointReadWriteRegionsAttr cp
     then SetDisjointReadWriteRegionsAttr start
     else ret tt);;
    ret start.

(** The completion side of a collective-permute (lines 150-178): one done,
    or a recv-done and a send-done custom call. *)
Definition collective_permute_done (cp : HloInstruction)
    (start : InstrId) : M Focus InstrId :=
  if negb (track_send_recv_separately_ self cp) then
    do done_instr <- CreateUnary (shape cp) kCollectivePermuteDone start;
    AddInstruction done_instr
  else
    do recv_instr <- CreateCustomCall (shape cp) [start] "$cp_recv_done";
    do cp_recv_done <- AddInstruction recv_instr;
    do send_instr <- CreateCustomCall ShapeUtil.MakeTokenShape [start] "$cp_send_done";
    do cp_send_done <- AddInstruction send_instr;
    AddControlDependencyTo cp_recv_done cp_send_done;;
    set_custom_call_has_side_effect cp_send_done true;;
    set_custom_call_has_side_effect cp_recv_done true;;
    ret cp_recv_done.

(** The collective-permute branch (lines 117-187). *)
Definition convert_collective_permute (should_update_schedule : bool)
    (cp : HloInstruction) (replaced_pairs : gmap nat ReplacedAsync)
    : M Focus (gmap nat ReplacedAsync) :=
  do start <- collective_permute_start cp;
  set_metadata start (metadata cp);;
  CopyBackendConfigFrom start cp;;
  do done <- collective_permute_done cp start;
  let replaced_pairs := record_pair should_update_schedule cp start done replaced_pairs in
  ReplaceInstruction (unique_id cp) done;;
  ret replaced_pairs.

(** The all-to-all branch (lines 188-200). *)
Definition convert_all_to_all (should_update_schedule : bool)
    (ata : HloInstruction) (replaced_pairs : gmap nat ReplacedAsync)
    : M Focus (gmap nat ReplacedAsync) :=
  let sync_shape := ShapeUtil.MakeScalarShape U32 in
  do async_done <- CreateAsyncInstructions ata [sync_shape; sync_shape];
  if should_update_schedule then
    do done_instr <- deref async_done;
    do async_start <- mutable_operand done_instr 0;
    ret (<[unique_id ata := mkReplacedAsync async_start async_done]> replaced_pairs)
  else ret replaced_pairs.

(** The body of the loop over the candidates (lines 66-201). The dynamic
    casts of the source select on the opcode; [changed] becomes true with
    the rewrite. *)
Definition convert_instruction (should_update_schedule : bool)
    (p : InstrId) (acc : gmap nat ReplacedAsync * bool)
    : M Focus (gmap nat ReplacedAsync * bool) :=
  do instruction <- deref p;
  match opcode instruction with
  | kAllReduce =>
      do rp <- convert_all_reduce should_update_schedule instruction acc.1;
      ret (rp, true)
  | kAllGather =>
      do rp <- convert_all_gather should_update_schedule instruction acc.1;
      ret (rp, true)
  | kCollectivePermute =>
      do rp <- convert_collective_permute should_update_schedule instruction acc.1;
      ret (rp, true)
  | kAllToAll =>
      do rp <- convert_all_to_all should_update_schedule instruction acc.1;
      ret (rp, true)
  | _ => ret acc
  end.

Fixpoint convert_instructions (should_update_schedule : bool)
    (supported_collectives : list InstrId) (acc : gmap nat ReplacedAsync * bool)
    : M Focus (gmap nat ReplacedAsync * bool) :=
  match supported_collectives with
  | [] => ret acc
  | p :: rest =>
      do acc' <- convert_instruction should_update_schedule p acc;
      convert_instructions should_update_schedule rest acc'
  end.

(** *** The schedule patcher (lines 202-217) *)

Fixpoint update_sequence (replaced_pairs : gmap nat ReplacedAsync)
    (seq : list InstrId) : list InstrId :=
  match seq with
  | [] => []
  | instr :: rest =>
      match replaced_pairs !! instr with
      | Some it => start it :: done it :: update_sequence replaced_pairs rest
      | None => instr :: update_sequence replaced_pairs rest
      end
  end.

(** *** The pass *)

Definition supported_collectives_of (computation : HloComputation) : list InstrId :=
  unique_id <$> filter (λ i, is_supported_collective i = true) (instructions computation).

(** One iteration of the loop over the computations (lines 41-218): scan,
    skip when there is no candidate, rewrite the candidates, patch the
    schedule. *)
Definition process_computation (cid : CompId) (changed : bool) : M PassState bool :=
  do computation <- lookup_computation cid;
  let supported_collectives := supported_collectives_of computation in
  match supported_collectives with
  | [] => ret changed
  | _ =>
      do should_update_schedule <-
        (do has <- has_schedule cid;
         if has then is_computation_scheduled cid else ret false);
      do acc <- focus cid
        (convert_instructions should_update_schedule supported_collectives (∅, changed));
      (if should_update_schedule then
         do seq <- sequence cid;
         set_sequence cid (update_sequence acc.1 seq)
       else ret tt);;
      ret acc.2
  end.

Fixpoint process_computations (cids : list CompId) (changed : bool) : M PassState bool :=
  match cids with
  | [] => ret changed
  | cid :: rest =>
      do changed' <- process_computation cid changed;
      process_computations rest changed'
  end.

Definition Run (execution_threads : gset string) : M PassState bool := λ s,
  process_computations (MakeNonfusionComputations (st_module s) execution_threads) false s.

(** The pass on a module: the outcome, the module and the schedule
    accesses made. *)
Definition RunOnModule (m : HloModule) (execution_threads : gset string)
    : Outcome bool * PassState :=
  Run execution_threads (mkState m []).

End Pass.

(** * Example inputs

    Concrete configurations, collaborators and modules on which the
    properties below are exercised. *)

Module Examples.

Definition f32 : Shape := ArrayShape F32 [4%Z].

Definition instr (p : InstrId) (op : HloOpcode) (ops : list InstrId) : HloInstruction :=
  new_instruction p op f32 ops.

(** A collective-permute that carries metadata, a backend configuration
    and the disjoint read/write regions attribute. *)
Definition permute (p : InstrId) (ops : list InstrId) : HloInstruction :=
  mkInstruction p kCollectivePermute f32 ops "permute.cc:12" "{fast}" None [] false
    (Some 3%Z) false 0 [(0%Z, 1%Z)] [] "" false true [] [].

Definition all_reduce (p : InstrId) (ops : list InstrId) : HloInstruction :=
  mkInstruction p kAllReduce f32 ops "reduce.cc:7" "{ring}" (Some 9) [[0%Z; 1%Z]] false
    (Some 1%Z) true 0 [] [] "" false false [] [].

Definition accept_all : AsyncCollectiveCreator :=
  mkCreator (λ _, true) (λ _, true) (λ _, true) (λ _, true) (λ _, false).

Definition accept_all_split : AsyncCollectiveCreator :=
  mkCreator (λ _, true) (λ _, true) (λ _, true) (λ _, true) (λ _, true).

Definition select_thread (threads : gset string) (t : string) : bool :=
  bool_decide (threads = ∅) || bool_decide (t ∈ threads).

Definition working : Collaborators :=
  mkCollaborators (λ shapes, OkValue (TupleShape shapes))
    (λ _ _ _, None) (λ _ _ _, None) (λ _ _, None) select_thread (λ _, "instruction").

Definition bad_shapes : Status := mkStatus "inconsistent dynamic slice sizes" [].

Definition failing_inference : Collaborators :=
  mkCollaborators (λ _, ErrorStatus bad_shapes)
    (λ _ _ _, None) (λ _ _ _, None) (λ _ _, None) select_thread (λ _, "instruction").

(** One computation with the four collectives, scheduled. *)
Definition four_collectives : HloComputation :=
  mkComputation
    [instr 1 kParameter []; all_reduce 2 [1]; instr 3 kAllGather [2];
     permute 4 [3]; instr 5 kAllToAll [4; 1]; instr 6 kAdd [5; 2]]
    6 "main" false.

(** A computation without any collective. *)
Definition plain : HloComputation :=
  mkComputation [instr 7 kParameter []; instr 8 kAdd [7; 7]] 8 "main" false.

Definition module_four : HloModule :=
  mkModule {[ 1 := four_collectives; 2 := plain ]}
           (Some {[ 1 := [1; 2; 3; 4; 5; 6]; 2 := [7; 8] ]}) 9.

(** One computation with one all-reduce, scheduled. *)
Definition one_all_reduce : HloComputation :=
  mkComputation [instr 1 kParameter []; all_reduce 2 [1]; instr 3 kAdd [2; 1]]
    3 "main" false.

Definition module_one : HloModule :=
  mkModule {[ 1 := one_all_reduce ]} (Some {[ 1 := [1; 2; 3] ]}) 4.

(** One computation with one four-operand collective-permute. *)
Definition permute_four_operands : HloComputation :=
  mkComputation
    [instr 1 kParameter []; instr 2 kParameter []; instr 3 kParameter [];
     instr 4 kParameter []; permute 5 [1; 2; 3; 4]]
    5 "main" false.

Definition module_permute : HloModule :=
  mkModule {[ 1 := permute_four_operands ]} None 6.

(** A single-operand collective-permute and one with two operands. *)
Definition permute_one_operand : HloComputation :=
  mkComputation [instr 1 kParameter []; permute 2 [1]; instr 3 kAdd [2; 2]] 3 "main" false.

Definition permute_two_operands : HloComputation :=
  mkComputation [instr 1 kParameter []; permute 2 [1; 1]] 2 "main" false.

(** A fusion computation and a computation of another thread, each with an
    all-reduce, beside a computation of the main thread. *)
Definition fused_reduce : HloComputation :=
  mkComputation [instr 5 kParameter []; all_reduce 6 [5]] 6 "main" true.

Definition host_reduce : HloComputation :=
  mkComputation [instr 7 kParameter []; all_reduce 8 [7]] 8 "host" false.

Definition module_threads : HloModule :=
  mkModule {[ 1 := one_all_reduce; 2 := fused_reduce; 3 := host_reduce ]}
           (Some {[ 1 := [1; 2; 3]; 2 := [5; 6]; 3 := [7; 8] ]}) 9.

(** A module whose schedule covers only one of its two computations. *)
Definition module_partly_scheduled : HloModule :=
  mkModule {[ 1 := one_all_reduce; 3 := host_reduce ]} (Some {[ 1 := [1; 2; 3] ]}) 9.

(** Collaborators whose replace-instruction primitive always fails. *)
Definition replace_refused : Status := mkStatus "cannot replace" [].

Definition failing_replace : Collaborators :=
  mkCollaborators (λ shapes, OkValue (TupleShape shapes))
    (λ _ _ _, Some replace_refused) (λ _ _ _, None) (λ _ _, None)
    select_thread (λ _, "instruction").

(** A configuration that answers like [accept_all] on the kind each
    predicate is for, and the opposite elsewhere. *)
Definition own_kind_only : AsyncCollectiveCreator :=
  mkCreator (λ i, bool_decide (opcode i = kAllReduce))
            (λ i, bool_decide (opcode i = kAllGather))
            (λ i, bool_decide (opcode i = kCollectivePermute))
            (λ i, bool_decide (opcode i = kAllToAll))
            (λ i, bool_decide (opcode i ≠ kCollectivePermute)).

End Examples.

(** * Properties of the pass *)

Section Properties.

Context (self : AsyncCollectiveCreator) (ext : Collaborators).

(** ** Vocabulary of the statements *)

(** The instruction with a given id in a list of instructions, as
    [find_instruction] finds it. *)
Definition find_list (l : list HloInstruction) (p : nat) : option HloInstruction :=
  List.find (λ i, bool_decide (unique_id i = p)) l.

Definition ids_below (n : nat) (l : list HloInstruction) : Prop :=
  Forall (λ i, unique_id i < n) l.

Definition update_list (p : nat) (f : HloInstruction → HloInstruction)
    (l : list HloInstruction) : list HloInstruction :=
  map (λ i, if bool_decide (unique_id i = p) then f i else i) l.

(** The start instruction created for an all-reduce. *)
Definition all_reduce_start (n : nat) (ar : HloInstruction) : HloInstruction :=
  mkInstruction n kAllReduceStart (shape ar) (operands ar) (metadata ar) (backend_config ar)
    (to_apply ar) (replica_groups ar) (constrain_layout ar) (channel_id ar)
    (use_global_device_ids ar) 0 [] [] "" false false [] [].

(** The status returned when a replacement fails. *)
Definition replacing_context (e : Status) (i : HloInstruction) : Status :=
  mkStatus (error_message e) (error_context e ++ [("replacing " ++ ToShortString ext i)%string]).

(** The start instruction created for an all-gather. *)
Definition all_gather_start (n : nat) (sh : Shape) (ag : HloInstruction) : HloInstruction :=
  mkInstruction n kAllGatherStart sh (operands ag) (metadata ag) (backend_config ag)
    None (replica_groups ag) (constrain_layout ag) (channel_id ag)
    (use_global_device_ids ag) (all_gather_dimension ag) [] [] "" false false [] [].

(** The start instruction created for a collective-permute, for the
    single-operand and the four-operand variant. *)
Definition cp_start_single (n : nat) (operand_shape : Shape) (cp : HloInstruction)
    : HloInstruction :=
  mkInstruction n kCollectivePermuteStart
    (ShapeUtil.MakeTupleShape [operand_shape; shape cp;
                               ShapeUtil.MakeShape U32 [] []; ShapeUtil.MakeShape U32 [] []])
    (take 1 (operands cp)) "" "" None [] false (channel_id cp) false 0
    (source_target_pairs cp) [] "" false false [] [].

Definition cp_start_multi (n : nat) (sh : Shape) (cp : HloInstruction) : HloInstruction :=
  mkInstruction n kCollectivePermuteStart sh (operands cp) "" "" None [] false
    (channel_id cp) false 0 (source_target_pairs cp) (dynamic_slice_sizes_list cp)
    "" false (disjoint_read_write_regions cp) [] [].

(** The completion instructions created for a collective-permute. *)
Definition cp_recv_done (n : nat) (cp : HloInstruction) : HloInstruction :=
  mkInstruction (S n) kCustomCall (shape cp) [n] "" "" None [] false None false 0 [] []
    "$cp_recv_done" true false [] [S (S n)].

Definition cp_send_done (n : nat) : HloInstruction :=
  mkInstruction (S (S n)) kCustomCall ShapeUtil.MakeTokenShape [n] "" "" None [] false None
    false 0 [] [] "$cp_send_done" true false [S n] [].

(** The same two instructions as the factory leaves them, before the
    control edge and the side-effect marks. *)
Definition cp_recv_done_created (n : nat) (cp : HloInstruction) : HloInstruction :=
  mkInstruction (S n) kCustomCall (shape cp) [n] "" "" None [] false None false 0 [] []
    "$cp_recv_done" false false [] [].

Definition cp_send_done_created (n : nat) : HloInstruction :=
  mkInstruction (S (S n)) kCustomCall ShapeUtil.MakeTokenShape [n] "" "" None [] false None
    false 0 [] [] "$cp_send_done" false false [] [].

(** The instructions created for an all-to-all by the async constructor. *)
Definition async_start_of (n : nat) (sh : Shape) (ata : HloInstruction) : HloInstruction :=
  mkInstruction n kAsyncStart sh (operands ata) (metadata ata) (backend_config ata)
    None [] false None false 0 [] [] "" false false [] [].

(** *** What one rewrite produces *)

Definition is_sync_collective (op : HloOpcode) : bool :=
  match op with
  | kAllReduce | kAllGather | kCollectivePermute | kAllToAll => true
  | _ => false
  end.

Definition start_opcode (op : HloOpcode) : HloOpcode :=
  match op with
  | kAllReduce => kAllReduceStart
  | kAllGather => kAllGatherStart
  | kCollectivePermute => kCollectivePermuteStart
  | kAllToAll => kAsyncStart
  | _ => op
  end.

Definition done_opcode (op : HloOpcode) : HloOpcode :=
  match op with
  | kAllReduce => kAllReduceDone
  | kAllGather => kAllGatherDone
  | kCollectivePermute => kCollectivePermuteDone
  | kAllToAll => kAsyncDone
  | _ => op
  end.

(** The instructions that replace [x] when the id counter is at [n]. *)
Inductive replacement_of (x : HloInstruction) (n : nat) : list HloInstruction → Prop :=
| replaced_by_pair s d :
    unique_id s = n → opcode s = start_opcode (opcode x) →
    metadata s = metadata x → backend_config s = backend_config x →
    custom_call_target s = "" →
    unique_id d = S n → opcode d = done_opcode (opcode x) →
    shape d = shape x → operands d = [n] → custom_call_target d = "" →
    (opcode x = kCollectivePermute → track_send_recv_separately_ self x = false) →
    replacement_of x n [s; d]
| replaced_by_split s :
    opcode x = kCollectivePermute → track_send_recv_separately_ self x = true →
    unique_id s = n → opcode s = kCollectivePermuteStart →
    metadata s = metadata x → backend_config s = backend_config x →
    custom_call_target s = "" →
    replacement_of x n [s; cp_recv_done n x; cp_send_done n].

(** The instruction list after [replace_in_computation]. *)
Definition replace_list (old new : nat) (l : list HloInstruction) : list HloInstruction :=
  map (replace_uses old new) (filter (λ i, unique_id i ≠ old) l).

(** What identifies the kind of an instruction: its id, its opcode and
    its custom-call target. *)
Definition kind_of (i : HloInstruction) : nat * HloOpcode * string :=
  (unique_id i, opcode i, custom_call_target i).

(** The kinds of the instructions created for a list of replaced opcodes,
    from id [n] up to id [n']: for each replaced instruction, in order, one
    start and one done, or, for a collective-permute, one start, one
    recv-done and one send-done. *)
Inductive news_for : list HloOpcode → nat → nat → list (nat * HloOpcode * string) → Prop :=
| news_nil n : news_for [] n n []
| news_pair op ops n n' ks :
    news_for ops (S (S n)) n' ks →
    news_for (op :: ops) n n'
      ((n, start_opcode op, "") :: (S n, done_opcode op, "") :: ks)
| news_split ops n n' ks :
    news_for ops (S (S (S n))) n' ks →
    news_for (kCollectivePermute :: ops) n n'
      ((n, kCollectivePermuteStart, "") :: (S n, kCustomCall, "$cp_recv_done")
         :: (S (S n), kCustomCall, "$cp_send_done") :: ks).

Definition opcode_at (l : list HloInstruction) (p : nat) : option HloOpcode :=
  opcode <$> find_list l p.

Definition is_start_opcode (op : HloOpcode) : bool :=
  match op with
  | kAllReduceStart | kAllGatherStart | kCollectivePermuteStart | kAsyncStart => true
  | _ => false
  end.

(** A completion instruction: a done of one of the four kinds, or the
    recv-done custom call. *)
Definition is_done_kind (op : HloOpcode) (target : string) : bool :=
  match op with
  | kAllReduceDone | kAllGatherDone | kCollectivePermuteDone | kAsyncDone => true
  | kCustomCall => bool_decide (target = "$cp_recv_done")
  | _ => false
  end.

Definition is_done_instruction (i : HloInstruction) : bool :=
  is_done_kind (opcode i) (custom_call_target i).

(** [d] is a completion instruction whose only operand is the start
    instruction [s]. *)
Definition linked (l : list HloInstruction) (s d : nat) : Prop :=
  ∃ si di, find_list l s = Some si ∧ find_list l d = Some di ∧
           is_start_opcode (opcode si) = true ∧ is_done_instruction di = true ∧
           operands di = [s].

(** What the loop over the candidates [ps] has done when it returns:
    from instructions [l], id counter [n] and recorded pairs [rp] to
    [l'], [n'] and [rp']. *)
Record loop_post (should : bool) (ps : list nat)
    (l : list HloInstruction) (n : nat) (rp : gmap nat ReplacedAsync)
    (l' : list HloInstruction) (n' : nat) (rp' : gmap nat ReplacedAsync) : Prop := {
  post_mono : n ≤ n';
  post_nodup : NoDup (unique_id <$> l');
  post_below : ids_below n' l';
  post_kinds :
    ∃ ops ks, Forall2 (λ p op, opcode_at l p = Some op) ps ops ∧
              news_for ops n n' ks ∧
              kind_of <$> l' = filter (λ k, k.1.1 ∉ ps) (kind_of <$> l) ++ ks;
  post_pairs :
    if should then
      (∀ p, p ∈ ps →
         ∃ s, rp' !! p = Some (mkReplacedAsync s (S s)) ∧ n ≤ s ∧ S s < n' ∧
              linked l' s (S s)) ∧
      (∀ p, p ∉ ps → rp' !! p = rp !! p)
    else rp' = rp;
  post_linked : ∀ s d, linked l s d → s ∉ ps → d ∉ ps → linked l' s d;
}.

(** *** One computation *)

Definition wf_computation (n : nat) (c : HloComputation) : Prop :=
  NoDup (unique_id <$> instructions c) ∧ ids_below n (instructions c).

(** The ids of a module are pointers: distinct within a computation, and
    all allocated before the counter. *)
Definition wf_module (m : HloModule) : Prop :=
  ∀ cid c, computations m !! cid = Some c → wf_computation (next_unique_id m) c.

(** Whether the schedule covers a computation, and its sequence there. *)
Definition should_update (m : HloModule) (cid : nat) : bool :=
  match schedule m with
  | Some sched => bool_decide (is_Some (sched !! cid))
  | None => false
  end.

Definition sched_entry (m : HloModule) (cid : nat) : option (list nat) :=
  match schedule m with
  | Some sched => sched !! cid
  | None => None
  end.

(** *** What processing one computation leaves alone *)

Definition frame (cid : nat) (s s' : PassState) : Prop :=
  (∀ cid', cid' ≠ cid →
     computations (st_module s') !! cid' = computations (st_module s) !! cid') ∧
  (∀ cid', cid' ≠ cid →
     sched_entry (st_module s') cid' = sched_entry (st_module s) cid') ∧
  (is_Some (schedule (st_module s')) ↔ is_Some (schedule (st_module s))) ∧
  (∃ acc, st_accesses s' = st_accesses s ++ acc ∧
          Forall (λ a, access_computation a = cid) acc).

Definition framed {A} (cid : nat) (f : M PassState A) : Prop :=
  ∀ s o s', f s = (o, s') → frame cid s s'.

(** Each predicate accepts every instruction of its kind. *)
Definition accepts_every_instance : Prop :=
  ∀ i, (opcode i = kAllReduce → convert_all_reduce_ self i = true) ∧
       (opcode i = kAllGather → convert_all_gather_ self i = true) ∧
       (opcode i = kCollectivePermute → convert_collective_permute_ self i = true) ∧
       (opcode i = kAllToAll → convert_all_to_all_ self i = true).

(** The four synchronous kinds are absent from the eligible computations. *)
Definition collectives_absent (m : HloModule) (threads : gset string) : Prop :=
  ∀ cid c, cid ∈ MakeNonfusionComputations ext m threads →
           computations m !! cid = Some c →
           ∀ i, i ∈ instructions c → is_sync_collective (opcode i) = false.

(** A computation in the monad never dies on the operand-count check. *)
Definition never_check_fails {S A} (f : M S A) : Prop :=
  ∀ s a b, (f s).1 ≠ Aborted (CheckEqOperandCount a b).

(** *** Accesses to the schedule *)

(** An access that reads or writes the sequence of a computation. *)
Definition touches_sequence (a : ScheduleAccess) : bool :=
  match a with
  | AccSequence _ | AccSetSequence _ => true
  | _ => false
  end.

Definition is_has_schedule (a : ScheduleAccess) : bool :=
  match a with
  | AccHasSchedule _ => true
  | _ => false
  end.

(** *** Shapes of the start instructions *)

(** The first component of the shape of an all-gather start (lines 95-97):
    the tuple of the operand shapes with more than one operand, the shape of
    the operand otherwise. *)
Definition all_gather_input_shape (ag : HloInstruction) (shs : list Shape) : option Shape :=
  if bool_decide (1 < operand_count ag)
  then Some (ShapeUtil.MakeTupleShapeWithPtrs shs)
  else shs !! 0.

(** The operand references of a user after [old] has been replaced by
    [new]. *)
Definition rewired (old new : nat) (ops : list nat) : list nat :=
  (λ o, if bool_decide (o = old) then new else o) <$> ops.

(** The shapes of a list of operands of a computation. *)
Definition shapes_of (c : HloComputation) (ops : list nat) (shs : list Shape) : Prop :=
  Forall2 (λ o sh, ∃ op, find_instruction c o = Some op ∧ shape op = sh) ops shs.

(** *** The effect of the rewrites on a computation *)

(** An instruction whose replaced operands have been rewired: an operand
    that was replaced refers to the done that took its place ([σ] maps a
    replaced instruction to that done). *)
Definition rewire (σ : gmap nat nat) (i : HloInstruction) : HloInstruction :=
  with_operands (map (λ o, default o (σ !! o)) (operands i)) i.

(** The ids given out while a list of candidates is rewritten, from the
    counter [n] to the counter [n']: for each candidate the id of its start
    (the done that replaces the candidate has the next id), and the ids of
    the send-done custom calls. *)
Inductive allocated : nat → list nat → list nat → nat → Prop :=
| alloc_nil n : allocated n [] [] n
| alloc_pair n starts sends n' :
    allocated (S (S n)) starts sends n' → allocated n (n :: starts) sends n'
| alloc_split n starts sends n' :
    allocated (S (S (S n))) starts sends n' →
    allocated n (n :: starts) (S (S n) :: sends) n'.

(** For candidates [ps] with starts [starts]: the done of each candidate,
    and the pair recorded for each candidate. *)
Definition dones_of (ps starts : list nat) : gmap nat nat :=
  list_to_map (zip ps (S <$> starts)).

Definition pairs_of (ps starts : list nat) : gmap nat ReplacedAsync :=
  list_to_map (zip ps ((λ a, mkReplacedAsync a (S a)) <$> starts)).

(** A send-done custom call. *)
Definition is_send_done (i : HloInstruction) : Prop :=
  opcode i = kCustomCall ∧ custom_call_target i = "$cp_send_done".

(** What the loop over the candidates [ps] has done when it returns, in
    closed form: the instructions that were not candidates are kept in
    order, with their replaced operands rewired; the instructions created
    follow, with the ids from [n] up to [n']; the root follows its
    replacement; each candidate has a start and a done that has the
    candidate's shape and reads the start; the other created instructions
    are the send-done custom calls; and the pairs are recorded when the
    schedule is to be patched. *)
Record loop_effect (should : bool) (ps : list nat)
    (c : HloComputation) (l : list HloInstruction) (n : nat) (rp : gmap nat ReplacedAsync)
    (c' : HloComputation) (l' : list HloInstruction) (n' : nat)
    (rp' : gmap nat ReplacedAsync)
    (starts sends : list nat) (created : list HloInstruction) : Prop := {
  eff_instructions :
    l' = (rewire (dones_of ps starts) <$> filter (λ i, unique_id i ∉ ps) l) ++ created;
  eff_length : length starts = length ps;
  eff_allocated : allocated n starts sends n';
  eff_created : unique_id <$> created = seq n (n' - n);
  eff_root :
    root_instruction c'
    = default (root_instruction c) (dones_of ps starts !! root_instruction c);
  eff_pairs :
    Forall2 (λ p a, ∃ x si di,
               find_list l p = Some x ∧ si ∈ created ∧ di ∈ created ∧
               unique_id si = a ∧ unique_id di = S a ∧
               opcode si = start_opcode (opcode x) ∧
               is_done_instruction di = true ∧ shape di = shape x ∧
               operands di = [a]) ps starts;
  eff_sends :
    Forall (λ q, ∃ i, i ∈ created ∧ unique_id i = q ∧ is_send_done i) sends;
  eff_no_split :
    (∀ i, track_send_recv_separately_ self i = false) → sends = [];
  eff_split :
    (∀ i, opcode i = kCollectivePermute → track_send_recv_separately_ self i = true) →
    length sends = length (filter (λ p, opcode_at l p = Some kCollectivePermute) ps);
  eff_recorded : rp' = if should then pairs_of ps starts ∪ rp else rp;
}.

(** *** When a run succeeds *)

(** The collaborators report no failure and shape inference returns a
    shape. *)
Definition collaborators_succeed : Prop :=
  (∀ c a b, ReplaceInstruction_failure ext c a b = None) ∧
  (∀ c a b, AddControlDependencyTo_failure ext c a b = None) ∧
  (∀ c i, CreateAsyncInstructions_failure ext c i = None) ∧
  (∀ shs, ∃ sh, InferCollectivePermuteStartShape ext shs = OkValue sh).

(** A candidate that the rewrite can handle: its operands are instructions
    of the computation, a collective-permute has one or four operands and
    an all-gather has at least one. *)
Definition convertible (l : list HloInstruction) (x : HloInstruction) : Prop :=
  (∀ o, o ∈ operands x → is_Some (find_list l o)) ∧
  (opcode x = kCollectivePermute → operand_count x = 1 ∨ operand_count x = 4) ∧
  (opcode x = kAllGather → 1 ≤ operand_count x).

Definition candidates_convertible (c : HloComputation) : Prop :=
  ∀ i, i ∈ instructions c → is_supported_collective self i = true →
       convertible (instructions c) i.

(** The kinds of the instructions created for the candidates [xs], in
    order, from the id counter [n]: for each candidate one start and one
    done with the next id, or, for a collective-permute that the tracking
    predicate accepts, one start, one recv-done and one send-done. The
    tracking predicate is asked about the candidate as it is when it is
    rewritten: with the operands that were replaced before it rewired to
    their dones ([σ] maps the candidates rewritten so far to their
    dones). *)
Fixpoint kinds_created (σ : gmap nat nat) (n : nat) (xs : list HloInstruction)
    : list (nat * HloOpcode * string) :=
  match xs with
  | [] => []
  | x :: rest =>
      if bool_decide (opcode x = kCollectivePermute) &&
         track_send_recv_separately_ self (rewire σ x)
      then (n, kCollectivePermuteStart, "") :: (S n, kCustomCall, "$cp_recv_done")
             :: (S (S n), kCustomCall, "$cp_send_done")
             :: kinds_created (<[unique_id x := S n]> σ) (S (S (S n))) rest
      else (n, start_opcode (opcode x), "") :: (S n, done_opcode (opcode x), "")
             :: kinds_created (<[unique_id x := S n]> σ) (S (S n)) rest
  end.

(** *** Failures *)

(** The failure statuses a run can return: what a collaborator reported,
    as it is, or, for an all-reduce or an all-gather whose replacement
    failed, with the context of the replacement attached. *)
Definition reported_by_collaborator (e : Status) : Prop :=
  (∃ c a b, ReplaceInstruction_failure ext c a b = Some e) ∨
  (∃ c a b, AddControlDependencyTo_failure ext c a b = Some e) ∨
  (∃ c i, CreateAsyncInstructions_failure ext c i = Some e).

Definition reported_while_replacing (e' : Status) : Prop :=
  ∃ c i d e, (opcode i = kAllReduce ∨ opcode i = kAllGather) ∧
             ReplaceInstruction_failure ext c (unique_id i) d = Some e ∧
             e' = replacing_context e i.

Definition returned_failure (e' : Status) : Prop :=
  reported_by_collaborator e' ∨ reported_while_replacing e'.

(** Every failure that a computation in the monad returns satisfies [P]. *)
Definition fails_with {S A} (P : Status → Prop) (f : M S A) : Prop :=
  ∀ s e s', f s = (Failed e, s') → P e.

(** ** Lists of instructions and the monad *)

Lemma find_list_app l l' p :
  find_list (l ++ l') p =
  match find_list l p with Some i => Some i | None => find_list l' p end.
Proof.
  unfold find_list. induction l as [|a l IH]; simpl; [done|].
  destruct (bool_decide (unique_id a = p)); done.
Qed.

Lemma find_list_fresh n l p : ids_below n l → n ≤ p → find_list l p = None.
Proof.
  unfold find_list. induction 1 as [|a l Ha _ IH]; intros Hp; simpl; [done|].
  rewrite bool_decide_eq_false_2 by lia. auto.
Qed.

Lemma find_list_new n l news p :
  ids_below n l → n ≤ p → find_list (l ++ news) p = find_list news p.
Proof. intros. rewrite find_list_app. by erewrite find_list_fresh. Qed.

Lemma find_list_Some l p i : find_list l p = Some i → i ∈ l ∧ unique_id i = p.
Proof.
  unfold find_list. intros H. apply find_some in H as [H1 H2].
  apply list_elem_of_In in H1. by apply bool_decide_eq_true in H2.
Qed.

Lemma update_list_fresh n l p f : ids_below n l → n ≤ p → update_list p f l = l.
Proof.
  unfold update_list. induction 1 as [|a l Ha _ IH]; intros Hp; simpl; [done|].
  rewrite bool_decide_eq_false_2 by lia. by rewrite IH.
Qed.

Lemma update_list_new n l news p f :
  ids_below n l → n ≤ p → update_list p f (l ++ news) = l ++ update_list p f news.
Proof. intros. unfold update_list. rewrite map_app. fold (update_list p f l). by erewrite update_list_fresh. Qed.

Lemma bind_eq {S A B} (x : M S A) (k : A → M S B) s :
  bind x k s = match x s with
               | (Ok a, s') => k a s'
               | (Failed e, s') => (Failed e, s')
               | (Aborted f, s') => (Aborted f, s')
               end.
Proof. reflexivity. Qed.

(** Proof automation: decide comparisons of ids, and run the monad. *)
Ltac bd :=
  repeat first [ rewrite bool_decide_eq_true_2 by lia
               | rewrite bool_decide_eq_false_2 by lia ].

Ltac mrun :=
  repeat (progress (try rewrite bind_eq;
                    cbn [fresh_id ret abort fail value computation next_id
                         get_computation put_computation fst snd])).

Lemma deref_eq p c l n :
  deref p (mkFocus (with_instructions c l) n) =
  match find_list l p with
  | Some i => (Ok i, mkFocus (with_instructions c l) n)
  | None => (Aborted (InvalidPointer p), mkFocus (with_instructions c l) n)
  end.
Proof. unfold deref, bind, get_computation, find_instruction. simpl. fold (find_list l p). by destruct (find_list l p). Qed.

Lemma mutate_eq p f c l n :
  mutate p f (mkFocus (with_instructions c l) n) =
  match find_list l p with
  | Some _ => (Ok tt, mkFocus (with_instructions c (update_list p f l)) n)
  | None => (Aborted (InvalidPointer p), mkFocus (with_instructions c l) n)
  end.
Proof. unfold mutate. rewrite bind_eq, deref_eq. by destruct (find_list l p). Qed.

Lemma AddInstruction_eq i c l n :
  AddInstruction i (mkFocus (with_instructions c l) n) =
  (Ok (unique_id i), mkFocus (with_instructions c (l ++ [i])) n).
Proof. reflexivity. Qed.

Lemma ReplaceInstruction_eq old new c l n :
  ReplaceInstruction ext old new (mkFocus (with_instructions c l) n) =
  match ReplaceInstruction_failure ext (with_instructions c l) old new with
  | Some e => (Failed e, mkFocus (with_instructions c l) n)
  | None =>
      match find_list l old with
      | None => (Aborted (InvalidPointer old), mkFocus (with_instructions c l) n)
      | Some _ =>
          match find_list l new with
          | None => (Aborted (InvalidPointer new), mkFocus (with_instructions c l) n)
          | Some _ => (Ok tt, mkFocus (replace_in_computation (with_instructions c l) old new) n)
          end
      end
  end.
Proof.
  unfold ReplaceInstruction. rewrite bind_eq. cbn [get_computation computation].
  destruct (ReplaceInstruction_failure _ _ _ _); [done|].
  rewrite bind_eq, deref_eq. destruct (find_list l old); [|done].
  rewrite bind_eq, deref_eq. destruct (find_list l new); done.
Qed.

Lemma operand_shapes_of_state ops fs : (operand_shapes_of ops fs).2 = fs.
Proof.
  induction ops as [|p ops IH]; [done|]. destruct fs as [[l r t f] n].
  change (mkComputation l r t f) with (with_instructions (mkComputation l r t f) l).
  cbn [operand_shapes_of]. rewrite bind_eq, deref_eq.
  destruct (find_list l p); [|done].
  rewrite bind_eq. destruct (operand_shapes_of ops _) as [[?|?|?] ?] eqn:E;
    apply (f_equal snd) in E; rewrite IH in E; simpl in E; by subst.
Qed.

Lemma operand_shapes_of_eq ops fs : operand_shapes_of ops fs = ((operand_shapes_of ops fs).1, fs).
Proof. rewrite <- (operand_shapes_of_state ops fs) at 3. by destruct (operand_shapes_of ops fs). Qed.

Lemma operand_shapes_of_not_Failed ops fs e : (operand_shapes_of ops fs).1 ≠ Failed e.
Proof.
  induction ops as [|p ops IH]; [done|]. destruct fs as [[l r t f] n].
  change (mkComputation l r t f) with (with_instructions (mkComputation l r t f) l).
  cbn [operand_shapes_of]. rewrite bind_eq, deref_eq.
  destruct (find_list l p); [|done].
  rewrite bind_eq. rewrite operand_shapes_of_eq.
  destruct (operand_shapes_of ops _).1 eqn:E; try done.
Qed.

Lemma convert_all_reduce_eq should ar rp c l n :
  ids_below n l →
  convert_all_reduce ext should ar rp (mkFocus (with_instructions c l) n) =
  let l2 := l ++ [all_reduce_start n ar; new_instruction (S n) kAllReduceDone (shape ar) [n]] in
  match ReplaceInstruction ext (unique_id ar) (S n) (mkFocus (with_instructions c l2) (S (S n))) with
  | (Ok _, s') => (Ok (record_pair should ar n (S n) rp), s')
  | (Failed e, s') => (Failed (replacing_context e ar), s')
  | (Aborted f, s') => (Aborted f, s')
  end.
Proof.
  intros Hb. unfold convert_all_reduce, CreateAllReduceStart, CreateUnary.
  repeat (rewrite bind_eq; cbn [fresh_id ret computation next_id]).
  rewrite AddInstruction_eq.
  repeat (rewrite bind_eq; cbn [fresh_id ret computation next_id]).
  unfold set_metadata, CopyBackendConfigFrom.
  rewrite mutate_eq.
  rewrite (find_list_new n), (update_list_new n) by (done || lia). simpl. bd.
  rewrite bind_eq. rewrite mutate_eq.
  rewrite (find_list_new n), (update_list_new n) by (done || lia). simpl. bd.
  rewrite bind_eq. unfold with_context, ReplaceWithNewInstruction.
  rewrite bind_eq, AddInstruction_eq. rewrite <- app_assoc. simpl.
  unfold all_reduce_start, new_instruction.
  destruct (ReplaceInstruction _ _ _ _) as [[?|?|?] ?]; done.
Qed.

Lemma convert_all_gather_Ok should ag rp c l n rp' fs' :
  ids_below n l →
  convert_all_gather ext should ag rp (mkFocus (with_instructions c l) n) = (Ok rp', fs') →
  ∃ sh,
    let l2 := l ++ [all_gather_start n sh ag; new_instruction (S n) kAllGatherDone (shape ag) [n]] in
    ReplaceInstruction ext (unique_id ag) (S n) (mkFocus (with_instructions c l2) (S (S n)))
      = (Ok tt, fs') ∧
    rp' = record_pair should ag n (S n) rp.
Proof.
  intros Hb. unfold convert_all_gather.
  rewrite bind_eq, operand_shapes_of_eq.
  destruct (operand_shapes_of _ _).1 as [shs| |]; [|done..].
  rewrite bind_eq.
  set (input := if bool_decide (1 < operand_count ag) then _ else _).
  assert (∃ o, input (mkFocus (with_instructions c l) n) = (o, mkFocus (with_instructions c l) n)
     ∧ ∀ a, o = Ok a → True) as (o & -> & _).
  { subst input. destruct (bool_decide _); [by eexists|]. destruct (shs !! 0); by eexists. }
  destruct o as [sh| |]; [|done..].
  unfold CreateAllGatherStart, CreateUnary.
  repeat (rewrite bind_eq; cbn [fresh_id ret computation next_id]).
  rewrite AddInstruction_eq.
  repeat (rewrite bind_eq; cbn [fresh_id ret computation next_id]).
  unfold set_metadata, CopyBackendConfigFrom.
  rewrite mutate_eq.
  rewrite (find_list_new n), (update_list_new n) by (done || lia). simpl. bd.
  rewrite bind_eq. rewrite mutate_eq.
  rewrite (find_list_new n), (update_list_new n) by (done || lia). simpl. bd.
  rewrite bind_eq. unfold with_context, ReplaceWithNewInstruction.
  rewrite bind_eq, AddInstruction_eq. rewrite <- app_assoc. simpl.
  intros H. exists (ShapeUtil.MakeTupleShape [sh; shape ag]).
  unfold all_gather_start, new_instruction.
  change (with_backend_config _ _) with
    (mkInstruction n kAllGatherStart (ShapeUtil.MakeTupleShape [sh; shape ag]) (operands ag)
       (metadata ag) (backend_config ag) None (replica_groups ag) (constrain_layout ag)
       (channel_id ag) (use_global_device_ids ag) (all_gather_dimension ag) [] [] ""
       false false [] []) in H.
  unfold new_instruction in H.
  destruct (ReplaceInstruction _ _ _ _) as [[[]|?|?] ?]; unfold ret in H; by simplify_eq.
Qed.

Lemma collective_permute_start_single cp o c l n :
  operands cp = [o] →
  collective_permute_start ext cp (mkFocus (with_instructions c l) n) =
  match find_list l o with
  | Some oi => (Ok n, mkFocus (with_instructions c (l ++ [cp_start_single n (shape oi) cp])) (S n))
  | None => (Aborted (InvalidPointer o), mkFocus (with_instructions c l) n)
  end.
Proof.
  intros Hops. unfold collective_permute_start, mutable_operand, operand_count, cp_start_single.
  rewrite Hops. cbn [lookup list_lookup length take]. rewrite bind_eq. cbn [ret].
  rewrite bool_decide_eq_true_2 by done.
  rewrite bind_eq, deref_eq. destruct (find_list l o); [|done].
  unfold CreateCollectivePermuteStart.
  repeat (rewrite bind_eq; cbn [fresh_id ret computation next_id]).
  by rewrite AddInstruction_eq.
Qed.

Lemma collective_permute_start_no_operand cp fs :
  operands cp = [] →
  collective_permute_start ext cp fs = (Aborted (OperandIndexOutOfRange 0), fs).
Proof.
  intros Hops. unfold collective_permute_start, mutable_operand. by rewrite Hops.
Qed.

Lemma collective_permute_start_check cp fs :
  operand_count cp ≠ 0 → operand_count cp ≠ 1 → operand_count cp ≠ 4 →
  collective_permute_start ext cp fs = (Aborted (CheckEqOperandCount (operand_count cp) 4), fs).
Proof.
  intros H0 H1 H4. unfold collective_permute_start, mutable_operand.
  destruct (operands cp !! 0) as [o|] eqn:E.
  - rewrite bind_eq. cbn [ret]. rewrite bool_decide_eq_false_2 by done.
    rewrite bind_eq. unfold CHECK_EQ_operand_count. by destruct (decide _).
  - apply lookup_ge_None in E. unfold operand_count in *. lia.
Qed.

Lemma collective_permute_start_multi cp c l n :
  ids_below n l →
  operand_count cp = 4 →
  collective_permute_start ext cp (mkFocus (with_instructions c l) n) =
  match (operand_shapes_of (operands cp) (mkFocus (with_instructions c l) n)).1 with
  | Ok shs =>
      match InferCollectivePermuteStartShape ext shs with
      | OkValue sh =>
          (Ok n, mkFocus (with_instructions c (l ++ [cp_start_multi n sh cp])) (S n))
      | ErrorStatus e => (Aborted (BadStatusOrAccess e), mkFocus (with_instructions c l) n)
      end
  | Failed e => (Failed e, mkFocus (with_instructions c l) n)
  | Aborted f => (Aborted f, mkFocus (with_instructions c l) n)
  end.
Proof.
  intros Hb Hcount. unfold operand_count in Hcount.
  destruct (operands cp) as [|o0 [|o1 [|o2 [|o3 [|]]]]] eqn:Hops; try done.
  unfold collective_permute_start, mutable_operand, operand_count, cp_start_multi.
  rewrite Hops. cbn [lookup list_lookup length]. rewrite bind_eq. cbn [ret].
  rewrite bool_decide_eq_false_2 by done.
  rewrite bind_eq. unfold CHECK_EQ_operand_count. rewrite decide_True by done. cbn [ret].
  rewrite bind_eq.
  pose proof (operand_shapes_of_state [o0; o1; o2; o3] (mkFocus (with_instructions c l) n)) as E.
  destruct (operand_shapes_of _ _) as [[shs| |] ?]; cbn [fst snd] in *; subst; [|done..].
  rewrite bind_eq. destruct (InferCollectivePermuteStartShape ext shs) as [sh|e]; [|reflexivity].
  unfold CreateCollectivePermuteStart. mrun.
  rewrite AddInstruction_eq.
  mrun. unfold HasDisjointReadWriteRegionsAttr, SetDisjointReadWriteRegionsAttr.
  destruct (disjoint_read_write_regions cp) eqn:Hd.
  - mrun. rewrite mutate_eq.
    rewrite (find_list_new n), (update_list_new n) by (done || lia). simpl. by bd.
  - by mrun.
Qed.

Lemma collective_permute_done_single cp s c l n :
  track_send_recv_separately_ self cp = false →
  collective_permute_done self ext cp n (mkFocus (with_instructions c (l ++ [s])) (S n)) =
  (Ok (S n),
   mkFocus (with_instructions c
              (l ++ [s; new_instruction (S n) kCollectivePermuteDone (shape cp) [n]]))
           (S (S n))).
Proof.
  intros Ht. unfold collective_permute_done. rewrite Ht. cbn [negb].
  unfold CreateUnary.
  repeat (rewrite bind_eq; cbn [fresh_id ret computation next_id]).
  rewrite AddInstruction_eq. by rewrite <- app_assoc.
Qed.

Lemma collective_permute_done_split cp s c l n :
  track_send_recv_separately_ self cp = true →
  ids_below n l → unique_id s = n →
  collective_permute_done self ext cp n (mkFocus (with_instructions c (l ++ [s])) (S n)) =
  match AddControlDependencyTo_failure ext
          (with_instructions c (l ++ [s; cp_recv_done_created n cp; cp_send_done_created n]))
          (S n) (S (S n)) with
  | Some e =>
      (Failed e,
       mkFocus (with_instructions c
                  (l ++ [s; cp_recv_done_created n cp; cp_send_done_created n]))
               (S (S (S n))))
  | None =>
      (Ok (S n),
       mkFocus (with_instructions c (l ++ [s; cp_recv_done n cp; cp_send_done n]))
               (S (S (S n))))
  end.
Proof.
  intros Ht Hb Hs. unfold collective_permute_done. rewrite Ht. cbn [negb].
  unfold CreateCustomCall.
  repeat (rewrite bind_eq; cbn [fresh_id ret computation next_id]).
  rewrite AddInstruction_eq.
  repeat (rewrite bind_eq; cbn [fresh_id ret computation next_id]).
  rewrite AddInstruction_eq. rewrite <- !app_assoc. cbn [app].
  rewrite bind_eq. unfold AddControlDependencyTo.
  rewrite bind_eq. cbn [get_computation computation].
  fold (cp_recv_done_created n cp) (cp_send_done_created n).
  destruct (AddControlDependencyTo_failure _ _ _ _); [done|].
  unfold cp_recv_done_created, cp_send_done_created. cbn [unique_id].
  unfold set_custom_call_has_side_effect.
  do 4 (mrun; rewrite mutate_eq;
        rewrite (find_list_new n), (update_list_new n) by (done || lia);
        simpl; rewrite Hs; bd).
  by mrun.
Qed.

Lemma collective_permute_start_Ok cp c l n st fs1 :
  ids_below n l →
  collective_permute_start ext cp (mkFocus (with_instructions c l) n) = (Ok st, fs1) →
  ∃ s0, st = n ∧ fs1 = mkFocus (with_instructions c (l ++ [s0])) (S n) ∧
        unique_id s0 = n ∧ opcode s0 = kCollectivePermuteStart ∧
        custom_call_target s0 = "" ∧
        (operand_count cp = 1 → disjoint_read_write_regions s0 = false) ∧
        (operand_count cp ≠ 1 →
           operand_count cp = 4 ∧
           disjoint_read_write_regions s0 = disjoint_read_write_regions cp).
Proof.
  intros Hb H.
  destruct (decide (operand_count cp = 1)) as [H1|H1].
  { unfold operand_count in H1. destruct (operands cp) as [|o [|]] eqn:Hops; try done.
    rewrite (collective_permute_start_single _ o) in H by done.
    destruct (find_list l o) as [oi|]; [|done]. simplify_eq.
    eexists. split_and!; try done. intros []. unfold operand_count. by rewrite Hops. }
  destruct (decide (operand_count cp = 4)) as [H4|H4].
  { rewrite collective_permute_start_multi in H by done.
    destruct (operand_shapes_of _ _).1; [|done..].
    destruct (InferCollectivePermuteStartShape _ _); [|done]. simplify_eq.
    eexists. split_and!; try done. }
  destruct (decide (operand_count cp = 0)) as [H0|H0].
  { rewrite collective_permute_start_no_operand in H; [done|].
    unfold operand_count in H0. by destruct (operands cp). }
  by rewrite collective_permute_start_check in H.
Qed.

Lemma convert_collective_permute_Ok should cp rp c l n rp' fs' :
  ids_below n l →
  convert_collective_permute self ext should cp rp (mkFocus (with_instructions c l) n)
    = (Ok rp', fs') →
  ∃ s0 tail,
    collective_permute_start ext cp (mkFocus (with_instructions c l) n)
      = (Ok n, mkFocus (with_instructions c (l ++ [s0])) (S n)) ∧
    unique_id s0 = n ∧
    (track_send_recv_separately_ self cp = false ∧
       tail = [new_instruction (S n) kCollectivePermuteDone (shape cp) [n]] ∨
     track_send_recv_separately_ self cp = true ∧
       tail = [cp_recv_done n cp; cp_send_done n]) ∧
    ReplaceInstruction ext (unique_id cp) (S n)
      (mkFocus (with_instructions c
                  (l ++ with_backend_config (backend_config cp)
                          (with_metadata (metadata cp) s0) :: tail))
               (length tail + S n))
      = (Ok tt, fs') ∧
    rp' = record_pair should cp n (S n) rp.
Proof.
  intros Hb. unfold convert_collective_permute. rewrite bind_eq.
  destruct (collective_permute_start _ _ _) as [[st| |] fs1] eqn:Hstart; [|done..].
  pose proof Hstart as Hstart'.
  apply collective_permute_start_Ok in Hstart' as (s0 & -> & -> & Hid & _); [|done].
  unfold set_metadata, CopyBackendConfigFrom.
  do 2 (mrun; rewrite mutate_eq;
        rewrite (find_list_new n), (update_list_new n) by (done || lia);
        simpl; rewrite ?Hid; bd).
  mrun. destruct (track_send_recv_separately_ self cp) eqn:Ht.
  - rewrite collective_permute_done_split by done.
    destruct (AddControlDependencyTo_failure _ _ _ _); [done|]. mrun.
    intros H. exists s0, [cp_recv_done n cp; cp_send_done n].
    cbn [length Nat.add].
    destruct (ReplaceInstruction _ _ _ _) as [[[]| |] ?] eqn:Hr; unfold ret in H;
      simplify_eq.
    split_and!; by auto.
  - rewrite collective_permute_done_single by done. mrun.
    intros H. exists s0, [new_instruction (S n) kCollectivePermuteDone (shape cp) [n]].
    cbn [length Nat.add].
    destruct (ReplaceInstruction _ _ _ _) as [[[]| |] ?] eqn:Hr; unfold ret in H;
      simplify_eq.
    split_and!; by auto.
Qed.

Lemma CreateAsyncInstructions_Ok ata ctx c l n d fs' :
  ids_below n l →
  CreateAsyncInstructions ext ata ctx (mkFocus (with_instructions c l) n) = (Ok d, fs') →
  ∃ sh, d = S n ∧
    ReplaceInstruction ext (unique_id ata) (S n)
      (mkFocus (with_instructions c
                  (l ++ [async_start_of n sh ata;
                         new_instruction (S n) kAsyncDone (shape ata) [n]]))
               (S (S n)))
      = (Ok tt, fs').
Proof.
  intros Hb. unfold CreateAsyncInstructions. mrun.
  destruct (CreateAsyncInstructions_failure _ _ _); [done|].
  rewrite bind_eq.
  pose proof (operand_shapes_of_state (operands ata) (mkFocus (with_instructions c l) n)) as E.
  destruct (operand_shapes_of _ _) as [[shs| |] ?]; cbn [fst snd] in *; subst; [|done..].
  mrun. rewrite AddInstruction_eq. mrun. rewrite AddInstruction_eq. 
  unfold set_metadata, CopyBackendConfigFrom.
  do 2 (mrun; rewrite mutate_eq; rewrite <- ?app_assoc;
        rewrite (find_list_new n), (update_list_new n) by (done || lia);
        simpl; bd).
  mrun. intros H.
  destruct (ReplaceInstruction _ _ _ _) as [[[]| |] ?] eqn:Hr; unfold ret in H; simplify_eq.
  eexists. split; [done|]. unfold async_start_of. exact Hr.
Qed.

Lemma find_list_replace l old new p :
  p ≠ old →
  find_list (map (replace_uses old new) (filter (λ i, unique_id i ≠ old) l)) p
  = replace_uses old new <$> find_list l p.
Proof.
  intros Hp. unfold find_list. induction l as [|a l IH]; [done|].
  rewrite filter_cons. cbn [find]. destruct (decide (unique_id a ≠ old)) as [Ha|Ha].
  - cbn [map find replace_uses with_operands unique_id].
    destruct (bool_decide (unique_id a = p)); [done|]. apply IH.
  - rewrite bool_decide_eq_false_2 by (intros ?; apply Ha; congruence). apply IH.
Qed.

Lemma ReplaceInstruction_Ok old new c l n fs' :
  ReplaceInstruction ext old new (mkFocus (with_instructions c l) n) = (Ok tt, fs') →
  fs' = mkFocus (replace_in_computation (with_instructions c l) old new) n ∧
  is_Some (find_list l old) ∧ is_Some (find_list l new).
Proof.
  rewrite ReplaceInstruction_eq. destruct (ReplaceInstruction_failure _ _ _ _); [done|].
  destruct (find_list l old); [|done]. destruct (find_list l new); [|done].
  intros; by simplify_eq.
Qed.

Lemma find_list_lt n l p x : ids_below n l → find_list l p = Some x → p < n.
Proof.
  intros Hb Hf. apply find_list_Some in Hf as [Hin <-].
  by apply (proj1 (Forall_forall _ _) Hb).
Qed.

Lemma convert_all_to_all_Ok should ata rp c l n rp' fs' :
  ids_below n l → unique_id ata < n →
  convert_all_to_all ext should ata rp (mkFocus (with_instructions c l) n) = (Ok rp', fs') →
  ∃ sh,
    ReplaceInstruction ext (unique_id ata) (S n)
      (mkFocus (with_instructions c
                  (l ++ [async_start_of n sh ata;
                         new_instruction (S n) kAsyncDone (shape ata) [n]]))
               (S (S n)))
      = (Ok tt, fs') ∧
    rp' = record_pair should ata n (S n) rp.
Proof.
  intros Hb Hlt. unfold convert_all_to_all. rewrite bind_eq.
  destruct (CreateAsyncInstructions _ _ _ _) as [[d| |] fs1] eqn:Hc; [|done..].
  apply CreateAsyncInstructions_Ok in Hc as (sh & -> & Hr); [|done].
  intros H. exists sh.
  destruct should; unfold ret in H; [|by simplify_eq].
  pose proof Hr as Hr'.
  apply ReplaceInstruction_Ok in Hr' as (-> & _ & _).
  change (replace_in_computation ?c0 ?o ?d) with
    (with_instructions (replace_in_computation c0 o d)
       (instructions (replace_in_computation c0 o d))) in H.
  rewrite bind_eq, deref_eq in H. cbn [replace_in_computation instructions with_instructions] in H.
  rewrite find_list_replace in H by lia.
  rewrite (find_list_new n) in H by (done || lia). cbn in H.
  rewrite bool_decide_eq_false_2 in H by lia.
  rewrite bool_decide_eq_true_2 in H by lia. cbn in H.
  rewrite bool_decide_eq_false_2 in H by lia. cbn in H. by simplify_eq.
Qed.

Lemma replace_in_computation_eq c l old new :
  replace_in_computation (with_instructions c l) old new =
  with_instructions (replace_in_computation c old new) (replace_list old new l).
Proof. reflexivity. Qed.

Lemma convert_instruction_Ok should p rp ch c l n rp' ch' fs' x :
  ids_below n l → find_list l p = Some x → is_sync_collective (opcode x) = true →
  convert_instruction self ext should p (rp, ch) (mkFocus (with_instructions c l) n)
    = (Ok (rp', ch'), fs') →
  ∃ news, replacement_of x n news ∧
    fs' = mkFocus (with_instructions (replace_in_computation c p (S n))
                     (replace_list p (S n) (l ++ news)))
                  (length news + n) ∧
    rp' = record_pair should x n (S n) rp ∧ ch' = true.
Proof.
  intros Hb Hx Hsync. unfold convert_instruction.
  rewrite bind_eq, deref_eq, Hx. cbn [fst].
  pose proof (find_list_Some _ _ _ Hx) as [_ Hid].
  pose proof (find_list_lt _ _ _ _ Hb Hx) as Hlt.
  destruct (opcode x) eqn:Hop; try done.
  - rewrite bind_eq, convert_all_reduce_eq by done. cbn zeta.
    destruct (ReplaceInstruction _ _ _ _) as [[[]| |] fs1] eqn:Hr; [|done..].
    unfold ret. intros ?; simplify_eq.
    apply ReplaceInstruction_Ok in Hr as (-> & _).
    exists [all_reduce_start n x; new_instruction (S n) kAllReduceDone (shape x) [n]].
    split; [|done].
    apply replaced_by_pair; rewrite ?Hop; done.
  - rewrite bind_eq.
    destruct (convert_all_gather _ _ _ _ _) as [[rp1| |] fs1] eqn:Hc; [|done..].
    apply convert_all_gather_Ok in Hc as (sh & Hr & ->); [|done].
    unfold ret. intros ?; simplify_eq.
    apply ReplaceInstruction_Ok in Hr as (-> & _).
    exists [all_gather_start n sh x; new_instruction (S n) kAllGatherDone (shape x) [n]].
    split; [|done].
    apply replaced_by_pair; rewrite ?Hop; done.
  - rewrite bind_eq.
    destruct (convert_collective_permute _ _ _ _ _ _) as [[rp1| |] fs1] eqn:Hc; [|done..].
    apply convert_collective_permute_Ok in Hc as (s0 & tail & Hs & Hid0 & Ht & Hr & ->);
      [|done].
    apply collective_permute_start_Ok in Hs as (s0' & _ & ? & _ & Hop0 & Hcc & _); [|done].
    assert (s0' = s0) as -> by (simplify_eq; by simplify_list_eq).
    unfold ret. intros ?; simplify_eq.
    apply ReplaceInstruction_Ok in Hr as (-> & _).
    exists (with_backend_config (backend_config x) (with_metadata (metadata x) s0) :: tail).
    destruct Ht as [[Ht ->]|[Ht ->]].
    + split; [|done]. apply replaced_by_pair; rewrite ?Hop; done.
    + split; [|done]. apply replaced_by_split; rewrite ?Hop; done.
  - rewrite bind_eq.
    destruct (convert_all_to_all _ _ _ _ _) as [[rp1| |] fs1] eqn:Hc; [|done..].
    apply convert_all_to_all_Ok in Hc as (sh & Hr & ->); [|done|lia].
    unfold ret. intros ?; simplify_eq.
    apply ReplaceInstruction_Ok in Hr as (-> & _).
    exists [async_start_of n sh x; new_instruction (S n) kAsyncDone (shape x) [n]].
    split; [|done].
    apply replaced_by_pair; rewrite ?Hop; done.
Qed.

Lemma kinds_replace_list old new l :
  kind_of <$> replace_list old new l = filter (λ k, k.1.1 ≠ old) (kind_of <$> l).
Proof.
  unfold replace_list. induction l as [|a l IH]; [done|].
  rewrite fmap_cons, !filter_cons. cbn [kind_of fst].
  destruct (decide (unique_id a ≠ old)); [|done].
  rewrite <- IH. done.
Qed.

Lemma ids_replace_list old new l :
  unique_id <$> replace_list old new l = filter (λ p, p ≠ old) (unique_id <$> l).
Proof.
  unfold replace_list. induction l as [|a l IH]; [done|].
  rewrite fmap_cons, !filter_cons.
  destruct (decide (unique_id a ≠ old)); [|done].
  rewrite <- IH. done.
Qed.

Lemma ids_below_alt n l : ids_below n l ↔ Forall (λ p, p < n) (unique_id <$> l).
Proof. unfold ids_below. by rewrite Forall_fmap. Qed.

Lemma ids_below_replace_list n old new l : ids_below n l → ids_below n (replace_list old new l).
Proof.
  rewrite !ids_below_alt, ids_replace_list, !Forall_forall.
  intros H p Hp. apply list_elem_of_filter in Hp as [_ Hp]. auto.
Qed.

Lemma NoDup_replace_list old new l :
  NoDup (unique_id <$> l) → NoDup (unique_id <$> replace_list old new l).
Proof. rewrite ids_replace_list. apply NoDup_filter. Qed.

Lemma ids_below_mono n n' l : n ≤ n' → ids_below n l → ids_below n' l.
Proof. intros Hn H. eapply Forall_impl; [done|]. cbn; intros; lia. Qed.

Lemma replacement_ids x n news :
  replacement_of x n news →
  unique_id <$> news = seq n (length news) ∧ 2 ≤ length news.
Proof.
  destruct 1; cbn; split; try lia; by repeat f_equal.
Qed.

Lemma replacement_wf x n news l :
  replacement_of x n news → NoDup (unique_id <$> l) → ids_below n l →
  NoDup (unique_id <$> (l ++ news)) ∧ ids_below (length news + n) (l ++ news).
Proof.
  intros Hr Hnd Hb. apply replacement_ids in Hr as [Hids Hlen]. split.
  - rewrite fmap_app, Hids. apply NoDup_app. split_and!; [done| |apply NoDup_seq].
    intros p Hp Hq. apply elem_of_seq in Hq.
    apply ids_below_alt in Hb. rewrite Forall_forall in Hb. apply Hb in Hp. lia.
  - apply Forall_app. split; [eapply ids_below_mono; [|done]; lia|].
    apply ids_below_alt. rewrite Hids. apply Forall_forall. intros p Hp.
    apply elem_of_seq in Hp. lia.
Qed.

Lemma find_list_replace_old l old new news p x :
  find_list l p = Some x → p ≠ old →
  find_list (replace_list old new (l ++ news)) p = Some (replace_uses old new x).
Proof.
  intros Hx Hne. unfold replace_list.
  rewrite find_list_replace by done. by rewrite find_list_app, Hx.
Qed.

Lemma filter_kinds_step (K news : list (nat * HloOpcode * string)) p ps n :
  Forall (λ q, q < n) ps → Forall (λ k, n ≤ k.1.1) news →
  filter (λ k, k.1.1 ∉ ps) (filter (λ k, k.1.1 ≠ p) K ++ news)
  = filter (λ k, k.1.1 ∉ p :: ps) K ++ news.
Proof.
  intros Hps Hnews. rewrite filter_app. f_equal.
  - rewrite list_filter_filter. apply list_filter_iff. intros k.
    rewrite not_elem_of_cons. tauto.
  - induction Hnews as [|k news Hk _ IH]; [done|].
    rewrite filter_cons, decide_True, IH; [done|].
    intros Hin. rewrite Forall_forall in Hps. apply Hps in Hin. lia.
Qed.

Lemma replacement_kinds x n news :
  replacement_of x n news →
  ∀ ops n' ks, news_for ops (length news + n) n' ks →
    news_for (opcode x :: ops) n n' ((kind_of <$> news) ++ ks).
Proof.
  destruct 1 as [s d Hs Hos _ _ Hcs Hd Hod _ _ Hcd _|s Hop _ Hs Hos _ _ Hcs];
    intros ops n' ks Hks; cbn [length Nat.add] in Hks;
    rewrite ?fmap_cons, fmap_nil; unfold kind_of; cbn [app].
  - rewrite Hs, Hos, Hcs, Hd, Hod, Hcd. by apply news_pair.
  - rewrite Hs, Hos, Hcs, Hop. by apply news_split.
Qed.

Lemma replacement_kinds_fresh x n news :
  replacement_of x n news → Forall (λ k, n ≤ k.1.1) (kind_of <$> news).
Proof.
  intros Hr. apply replacement_ids in Hr as [Hids _].
  rewrite Forall_fmap. apply Forall_forall. intros i Hi. cbn.
  assert (unique_id i ∈ seq n (length news)) as Hin.
  { rewrite <- Hids. apply list_elem_of_fmap. eauto. }
  apply elem_of_seq in Hin. lia.
Qed.

Lemma linked_step l new news p s d :
  linked l s d → s ≠ p → d ≠ p →
  linked (replace_list p new (l ++ news)) s d.
Proof.
  intros (si & di & Hs & Hd & Hos & Hod & Hops) Hsp Hdp.
  exists (replace_uses p new si), (replace_uses p new di).
  split_and!; try done.
  - by apply find_list_replace_old.
  - by apply find_list_replace_old.
  - cbn. rewrite Hops. cbn. by rewrite bool_decide_eq_false_2.
Qed.

Lemma replacement_linked x n news l p :
  ids_below n l → p < n → is_sync_collective (opcode x) = true →
  replacement_of x n news →
  linked (replace_list p (S n) (l ++ news)) n (S n).
Proof.
  intros Hb Hp Hsync Hr. unfold linked, replace_list.
  rewrite !find_list_replace by lia.
  rewrite !(find_list_new n) by (done || lia).
  destruct Hr as [s d Hs Hos _ _ _ Hd Hod _ Hops _ _|s Hop _ Hs Hos _ _ _].
  - exists (replace_uses p (S n) s), (replace_uses p (S n) d).
    cbn. rewrite Hs, Hd. bd. cbn. rewrite Hos, Hops. cbn. bd.
    unfold is_done_instruction. cbn. rewrite Hod.
    split_and!; try done; by destruct (opcode x).
  - eexists (replace_uses p (S n) s), (replace_uses p (S n) (cp_recv_done n x)).
    cbn. rewrite Hs. bd. cbn. rewrite Hos. bd.
    split_and!; [done..|reflexivity|by rewrite bool_decide_eq_false_2 by lia].
Qed.

Lemma filter_all {A} (P : A → Prop) `{∀ x, Decision (P x)} (l : list A) :
  Forall P l → filter P l = l.
Proof.
  induction 1 as [|a l Ha _ IH]; [done|]. by rewrite filter_cons, decide_True, IH.
Qed.

Lemma Forall2_transfer {A B} (P Q : A → B → Prop) l k :
  Forall2 P l k → Forall (λ x, ∀ y, P x y → Q x y) l → Forall2 Q l k.
Proof.
  induction 1 as [|x y l k HP _ IH]; intros HF; [constructor|].
  apply Forall_cons in HF as [Hx HF]. constructor; auto.
Qed.

Lemma opcode_at_Some l p op :
  opcode_at l p = Some op → ∃ x, find_list l p = Some x ∧ opcode x = op.
Proof. unfold opcode_at. destruct (find_list l p); naive_solver. Qed.

Lemma convert_instructions_Ok should ps :
  ∀ rp ch c l n rp' ch' fs',
  NoDup ps → NoDup (unique_id <$> l) → ids_below n l →
  Forall (λ p, ∃ op, opcode_at l p = Some op ∧ is_sync_collective op = true) ps →
  convert_instructions self ext should ps (rp, ch) (mkFocus (with_instructions c l) n)
    = (Ok (rp', ch'), fs') →
  ∃ c' l' n',
    fs' = mkFocus (with_instructions c' l') n' ∧
    execution_thread c' = execution_thread c ∧
    IsFusionComputation c' = IsFusionComputation c ∧
    loop_post should ps l n rp l' n' rp' ∧
    ch' = match ps with [] => ch | _ => true end.
Proof.
  induction ps as [|p rest IH]; intros rp ch c l n rp' ch' fs' Hps Hnd Hb Hall Hrun.
  { cbn in Hrun. unfold ret in Hrun. simplify_eq. exists c, l, n.
    split_and!; try done. split; try done.
    - exists [], []. split_and!; [constructor|constructor|].
      rewrite app_nil_r. symmetry. apply filter_all, Forall_forall.
      intros ? _. apply not_elem_of_nil.
    - destruct should; [|done]. split; [|done]. intros ? Hp. by apply elem_of_nil in Hp. }
  apply NoDup_cons in Hps as [Hp Hrest].
  apply Forall_cons in Hall as [(op & Hop & Hsync) Hall].
  apply opcode_at_Some in Hop as (x & Hx & <-).
  cbn [convert_instructions] in Hrun. rewrite bind_eq in Hrun.
  destruct (convert_instruction _ _ _ _ _ _) as [[[rp1 ch1]| |] fs1] eqn:Hstep; [|done..].
  apply (convert_instruction_Ok _ _ _ _ _ _ _ _ _ _ x) in Hstep
    as (news & Hnews & -> & -> & ->); [|done..].
  pose proof (find_list_lt _ _ _ _ Hb Hx) as Hplt.
  pose proof (find_list_Some _ _ _ Hx) as [_ Hid].
  pose proof (replacement_wf _ _ _ _ Hnews Hnd Hb) as [Hnd2 Hb2].
  assert (Forall (λ q, q < n) rest) as Hrestlt.
  { eapply Forall_impl; [exact Hall|]. intros q (opq & Hq & _).
    apply opcode_at_Some in Hq as (xq & Hxq & _). by eapply find_list_lt. }
  assert (Forall (λ q, ∀ opq, opcode_at (replace_list p (S n) (l ++ news)) q = Some opq
                           ↔ opcode_at l q = Some opq) rest) as Hsame.
  { apply Forall_forall. intros q Hq opq.
    rewrite Forall_forall in Hall. destruct (Hall _ Hq) as (opq' & Hopq & _).
    apply opcode_at_Some in Hopq as (xq & Hxq & <-).
    unfold opcode_at. erewrite find_list_replace_old; [|done|].
    - by rewrite Hxq.
    - intros ->. done. }
  apply IH in Hrun as (c' & l' & n' & -> & Ht & Hf & Hpost & ->);
    [|done|by apply NoDup_replace_list|by apply ids_below_replace_list|].
  2:{ rewrite Forall_forall in Hall, Hsame |- *. intros q Hq.
      destruct (Hall _ Hq) as (opq & Hopq & Hs). exists opq. split; [|done].
      by apply Hsame. }
  destruct Hpost as [Hmono Hnd' Hb' (ops & ks & Hops & Hks & Hkinds) Hpairs Hlinked].
  pose proof (replacement_ids _ _ _ Hnews) as [_ Hlen].
  exists c', l', n'. split_and!; [done|done|done| |by destruct rest].
  split.
  - lia.
  - done.
  - done.
  - exists (opcode x :: ops), ((kind_of <$> news) ++ ks). split_and!.
    + constructor; [unfold opcode_at; by rewrite Hx|].
      eapply Forall2_transfer; [exact Hops|].
      eapply Forall_impl; [exact Hsame|]. intros q Hq opq. apply Hq.
    + by apply replacement_kinds.
    + rewrite Hkinds, kinds_replace_list, fmap_app, filter_app.
      rewrite (filter_all _ (kind_of <$> news)).
      2:{ eapply Forall_impl; [by eapply replacement_kinds_fresh|]. cbn. intros; lia. }
      rewrite (filter_kinds_step _ _ _ _ n); [by rewrite app_assoc|done|].
      by eapply replacement_kinds_fresh.
  - destruct should; cbn [record_pair] in *.
    + destruct Hpairs as [Hin Hout]. split.
      * intros q Hq. apply elem_of_cons in Hq as [->|Hq].
        -- exists n. rewrite Hout by done. rewrite Hid, lookup_insert_eq.
           split_and!; [done|lia|lia|].
           apply Hlinked.
           ++ apply (replacement_linked x n news l); [done|lia|done|done].
           ++ intros Hn. rewrite Forall_forall in Hrestlt. apply Hrestlt in Hn. lia.
           ++ intros Hn. rewrite Forall_forall in Hrestlt. apply Hrestlt in Hn. lia.
        -- destruct (Hin _ Hq) as (s & ? & ? & ? & ?). exists s. split_and!; try done. lia.
      * intros q Hq. apply not_elem_of_cons in Hq as [Hqp Hq].
        rewrite Hout by done. rewrite Hid. by rewrite lookup_insert_ne.
    + done.
  - intros s d Hl Hs Hd. apply not_elem_of_cons in Hs as [? ?], Hd as [? ?].
    apply Hlinked; [|done..]. by apply linked_step.
Qed.

Lemma find_list_in l i :
  NoDup (unique_id <$> l) → i ∈ l → find_list l (unique_id i) = Some i.
Proof.
  unfold find_list. induction l as [|a l IH]; intros Hnd Hi; [by apply elem_of_nil in Hi|].
  rewrite fmap_cons in Hnd. apply NoDup_cons in Hnd as [Ha Hnd].
  cbn [find]. apply elem_of_cons in Hi as [->|Hi].
  - by rewrite bool_decide_eq_true_2.
  - rewrite bool_decide_eq_false_2; [by apply IH|].
    intros Heq. apply Ha. rewrite Heq. apply list_elem_of_fmap. eauto.
Qed.

Lemma is_supported_sync i :
  is_supported_collective self i = true → is_sync_collective (opcode i) = true.
Proof.
  unfold is_supported_collective. destruct (opcode i); try done;
    rewrite ?bool_decide_eq_false_2 by done; done.
Qed.

Lemma supported_collectives_pre c :
  NoDup (unique_id <$> instructions c) →
  NoDup (supported_collectives_of self c) ∧
  Forall (λ p, ∃ op, opcode_at (instructions c) p = Some op ∧ is_sync_collective op = true)
         (supported_collectives_of self c).
Proof.
  intros Hnd. unfold supported_collectives_of. split.
  - eapply sublist_NoDup; [exact Hnd|]. apply fmap_sublist, sublist_filter.
  - rewrite Forall_fmap. apply Forall_forall. intros i Hi.
    apply list_elem_of_filter in Hi as [Hs Hi]. cbn.
    exists (opcode i). unfold opcode_at. rewrite find_list_in by done.
    split; [done|]. by apply is_supported_sync.
Qed.

Lemma with_instructions_id c : with_instructions c (instructions c) = c.
Proof. by destruct c. Qed.

Lemma process_computation_skip cid ch s c :
  computations (st_module s) !! cid = Some c →
  supported_collectives_of self c = [] →
  process_computation self ext cid ch s = (Ok ch, s).
Proof.
  intros Hc Hps. unfold process_computation, lookup_computation.
  rewrite bind_eq, Hc, Hps. done.
Qed.

Lemma schedule_query_eq cid s :
  (do has <- has_schedule cid;
   if has then is_computation_scheduled cid else ret false) s
  = (Ok (should_update (st_module s) cid),
     mkState (st_module s)
       (st_accesses s ++
        match schedule (st_module s) with
        | Some _ => [AccHasSchedule cid; AccIsComputationScheduled cid]
        | None => [AccHasSchedule cid]
        end)).
Proof.
  destruct s as [m acc]. unfold has_schedule, is_computation_scheduled, should_update, log_access.
  rewrite !bind_eq. cbn. destruct (schedule m) eqn:Hs; cbn; rewrite ?Hs, <- ?app_assoc; done.
Qed.

Lemma process_computation_Ok cid ch s ch' s' c :
  computations (st_module s) !! cid = Some c →
  wf_computation (next_unique_id (st_module s)) c →
  supported_collectives_of self c ≠ [] →
  process_computation self ext cid ch s = (Ok ch', s') →
  ∃ c' rp,
    computations (st_module s') = <[cid := c']> (computations (st_module s)) ∧
    execution_thread c' = execution_thread c ∧
    IsFusionComputation c' = IsFusionComputation c ∧
    loop_post (should_update (st_module s) cid) (supported_collectives_of self c)
      (instructions c) (next_unique_id (st_module s)) ∅
      (instructions c') (next_unique_id (st_module s')) rp ∧
    schedule (st_module s') =
      (if should_update (st_module s) cid
       then (λ sched, <[cid := update_sequence rp (default [] (sched !! cid))]> sched)
              <$> schedule (st_module s)
       else schedule (st_module s)) ∧
    ch' = true.
Proof.
  intros Hc [Hnd Hb] Hps. unfold process_computation, lookup_computation.
  rewrite bind_eq, Hc.
  destruct (supported_collectives_of self c) as [|p0 ps0] eqn:Eps; [done|].
  rewrite <- Eps. clear Hps.
  rewrite bind_eq, schedule_query_eq. rewrite bind_eq.
  unfold focus at 1. cbn [st_module st_accesses]. rewrite Hc.
  destruct (convert_instructions _ _ _ _ _ _) as [[[rp ch1]| |] fs1] eqn:Hloop;
    cbn [fst snd]; [|done..].
  rewrite <- (with_instructions_id c) in Hloop.
  pose proof (supported_collectives_pre c Hnd) as [Hnd_ps Hall].
  apply convert_instructions_Ok in Hloop as (c1 & l1 & n1 & -> & Ht & Hf & Hpost & Hch);
    [|done..].
  rewrite with_instructions_id in Hpost.
  assert (ch1 = true) as -> by (rewrite Hch, with_instructions_id, Eps; done).
  clear Hch. cbn [computation next_id].
  destruct s as [m acc]. cbn [st_module st_accesses] in *.
  unfold should_update in *. destruct (schedule m) as [sched|] eqn:Hsched.
  - destruct (sched !! cid) as [seq|] eqn:Hseq.
    + rewrite bool_decide_eq_true_2 in * by (by eexists).
      unfold sequence, set_sequence, log_access. rewrite !bind_eq. cbn. rewrite Hseq. cbn.
      unfold ret. intros ?; simplify_eq. cbn.
      exists (with_instructions c1 l1), rp. by split_and!.
    + rewrite bool_decide_eq_false_2 in * by (by intros [? ?]).
      rewrite !bind_eq. unfold ret. intros ?; simplify_eq. cbn.
      exists (with_instructions c1 l1), rp. by split_and!.
  - rewrite !bind_eq. unfold ret. intros ?; simplify_eq. cbn.
    exists (with_instructions c1 l1), rp. by split_and!.
Qed.

Lemma frame_refl cid s : frame cid s s.
Proof. split_and!; try done. exists []. by rewrite app_nil_r. Qed.

Lemma frame_trans cid s1 s2 s3 : frame cid s1 s2 → frame cid s2 s3 → frame cid s1 s3.
Proof.
  intros (Ha1 & Hb1 & Hc1 & acc1 & Hd1 & He1) (Ha2 & Hb2 & Hc2 & acc2 & Hd2 & He2).
  split_and!.
  - intros cid' Hne. by rewrite Ha2, Ha1.
  - intros cid' Hne. by rewrite Hb2, Hb1.
  - by rewrite Hc2.
  - exists (acc1 ++ acc2). rewrite Hd2, Hd1, app_assoc. split; [done|].
    by apply Forall_app.
Qed.

Lemma framed_ret {A} cid (a : A) : framed cid (ret a).
Proof. intros s o s' H. unfold ret in H. simplify_eq. apply frame_refl. Qed.

Lemma framed_bind {A B} cid (x : M PassState A) (k : A → M PassState B) :
  framed cid x → (∀ a, framed cid (k a)) → framed cid (bind x k).
Proof.
  intros Hx Hk s o s'. rewrite bind_eq.
  destruct (x s) as [[a| |] s1] eqn:E; intros H; specialize (Hx _ _ _ E).
  - eapply frame_trans; [done|]. by eapply Hk.
  - by simplify_eq.
  - by simplify_eq.
Qed.

Lemma framed_log cid a : access_computation a = cid → framed cid (log_access a).
Proof.
  intros Ha s o s' H. unfold log_access in H. simplify_eq.
  split_and!; try done. exists [a]. split; [done|]. by constructor.
Qed.

Lemma framed_lookup_computation cid : framed cid (lookup_computation cid).
Proof.
  intros s o s' H. unfold lookup_computation in H.
  destruct (computations (st_module s) !! cid); simplify_eq; apply frame_refl.
Qed.

Lemma framed_focus {A} cid (f : M Focus A) : framed cid (focus cid f).
Proof.
  intros s o s' H. unfold focus in H.
  destruct (computations (st_module s) !! cid); simplify_eq; [|apply frame_refl].
  split_and!; cbn.
  - intros cid' Hne. by rewrite lookup_insert_ne.
  - done.
  - done.
  - exists []. by rewrite app_nil_r.
Qed.

Lemma framed_has_schedule cid : framed cid (has_schedule cid).
Proof.
  apply framed_bind; [by apply framed_log|]. intros _ s o s' H. simplify_eq. apply frame_refl.
Qed.

Lemma framed_is_computation_scheduled cid : framed cid (is_computation_scheduled cid).
Proof.
  apply framed_bind; [by apply framed_log|]. intros _ s o s' H.
  destruct (schedule (st_module s)); simplify_eq; apply frame_refl.
Qed.

Lemma framed_sequence cid : framed cid (sequence cid).
Proof.
  apply framed_bind; [by apply framed_log|]. intros _ s o s' H.
  destruct (schedule (st_module s)) as [sched|]; [|simplify_eq; apply frame_refl].
  destruct (sched !! cid); simplify_eq; apply frame_refl.
Qed.

Lemma framed_set_sequence cid seq : framed cid (set_sequence cid seq).
Proof.
  apply framed_bind; [by apply framed_log|]. intros _ s o s' H. cbn zeta in H.
  destruct (schedule (st_module s)) as [sched|] eqn:Hs; simplify_eq; [|apply frame_refl].
  split_and!; cbn.
  - done.
  - intros cid' Hne. unfold sched_entry. cbn. rewrite Hs. by rewrite lookup_insert_ne.
  - rewrite Hs. split; intros _; by eexists.
  - exists []. by rewrite app_nil_r.
Qed.

Lemma process_computation_frame cid ch : framed cid (process_computation self ext cid ch).
Proof.
  unfold process_computation.
  apply framed_bind; [apply framed_lookup_computation|]. intros c.
  destruct (supported_collectives_of self c); [apply framed_ret|].
  apply framed_bind.
  { apply framed_bind; [apply framed_has_schedule|]. intros [];
      [apply framed_is_computation_scheduled|apply framed_ret]. }
  intros should. apply framed_bind; [apply framed_focus|]. intros acc.
  apply framed_bind; [|intros; apply framed_ret].
  destruct should; [|apply framed_ret].
  apply framed_bind; [apply framed_sequence|]. intros seq. apply framed_set_sequence.
Qed.

Lemma process_computation_wf cid ch s ch' s' :
  wf_module (st_module s) →
  process_computation self ext cid ch s = (Ok ch', s') →
  wf_module (st_module s').
Proof.
  intros Hwf H.
  destruct (computations (st_module s) !! cid) as [c|] eqn:Hc.
  2:{ unfold process_computation, lookup_computation in H. rewrite bind_eq, Hc in H. done. }
  destruct (decide (supported_collectives_of self c = [])) as [Hps|Hps].
  { rewrite (process_computation_skip _ _ _ c) in H by done. by simplify_eq. }
  destruct (process_computation_Ok _ _ _ _ _ _ Hc (Hwf _ _ Hc) Hps H)
    as (c' & rp & Hcomps & _ & _ & Hpost & _ & _).
  intros cid' c0. rewrite Hcomps. destruct (decide (cid' = cid)) as [->|Hne].
  - rewrite lookup_insert_eq. intros ?; simplify_eq. split; apply Hpost.
  - rewrite lookup_insert_ne by done. intros H0. destruct (Hwf _ _ H0) as [Hnd Hb].
    split; [done|]. eapply ids_below_mono; [|done]. apply Hpost.
Qed.

(** *** The loop over the computations *)

Lemma process_computations_noop cids :
  ∀ ch s,
  Forall (λ cid, ∃ c, computations (st_module s) !! cid = Some c ∧
                      supported_collectives_of self c = []) cids →
  process_computations self ext cids ch s = (Ok ch, s).
Proof.
  induction cids as [|cid cids IH]; intros ch s Hall; [done|].
  apply Forall_cons in Hall as [(c & Hc & Hps) Hall].
  cbn [process_computations]. rewrite bind_eq.
  rewrite (process_computation_skip _ _ _ c) by done. by apply IH.
Qed.

(** A computation that is not processed, or has no candidate, is left as
    it is, and no schedule access is made on its behalf. *)
Lemma process_computations_untouched cids :
  ∀ ch s o s' cid,
  cid ∉ cids ∨ (∃ c, computations (st_module s) !! cid = Some c ∧
                     supported_collectives_of self c = []) →
  process_computations self ext cids ch s = (o, s') →
  computations (st_module s') !! cid = computations (st_module s) !! cid ∧
  sched_entry (st_module s') cid = sched_entry (st_module s) cid ∧
  ∃ acc, st_accesses s' = st_accesses s ++ acc ∧
         Forall (λ a, access_computation a ≠ cid) acc.
Proof.
  induction cids as [|h cids IH]; intros ch s o s' cid Hcid H.
  { cbn in H. unfold ret in H. simplify_eq. split_and!; try done.
    exists []. by rewrite app_nil_r. }
  cbn [process_computations] in H. rewrite bind_eq in H.
  destruct (process_computation self ext h ch s) as [o1 s1] eqn:Hh.
  assert (computations (st_module s1) !! cid = computations (st_module s) !! cid ∧
          sched_entry (st_module s1) cid = sched_entry (st_module s) cid ∧
          ∃ acc, st_accesses s1 = st_accesses s ++ acc ∧
                 Forall (λ a, access_computation a ≠ cid) acc) as (Ha & Hb & acc1 & Hc & Hd).
  { destruct (decide (h = cid)) as [->|Hne].
    - destruct Hcid as [Hcid|(c & Hc & Hps)].
      + exfalso. apply Hcid. by left.
      + rewrite (process_computation_skip _ _ _ c) in Hh by done. simplify_eq.
        split_and!; try done. exists []. by rewrite app_nil_r.
    - apply process_computation_frame in Hh as (Ha & Hb & _ & acc & Hc & Hd).
      split_and!; [by apply Ha|by apply Hb|].
      exists acc. split; [done|]. eapply Forall_impl; [done|]. cbn. intros; congruence. }
  destruct o1 as [ch1| |].
  - eapply IH in H as (Ha2 & Hb2 & acc2 & Hc2 & Hd2).
    + split_and!; [by rewrite Ha2|by rewrite Hb2|].
      exists (acc1 ++ acc2). rewrite Hc2, Hc, app_assoc. split; [done|]. by apply Forall_app.
    + destruct Hcid as [Hcid|(c & Hc0 & Hps)].
      * left. by apply not_elem_of_cons in Hcid as [_ ?].
      * right. exists c. by rewrite Ha.
  - simplify_eq. split_and!; try done. by exists acc1.
  - simplify_eq. split_and!; try done. by exists acc1.
Qed.

(** In a successful run, the processing of an eligible computation starts
    from the computation and schedule entry of the input module. *)
Lemma process_computations_at cids :
  ∀ ch s ch' s' cid c,
  NoDup cids → cid ∈ cids → wf_module (st_module s) →
  computations (st_module s) !! cid = Some c →
  process_computations self ext cids ch s = (Ok ch', s') →
  ∃ ch1 s1 ch2 s2,
    process_computation self ext cid ch1 s1 = (Ok ch2, s2) ∧
    wf_module (st_module s1) ∧
    computations (st_module s1) !! cid = Some c ∧
    sched_entry (st_module s1) cid = sched_entry (st_module s) cid ∧
    computations (st_module s') !! cid = computations (st_module s2) !! cid ∧
    sched_entry (st_module s') cid = sched_entry (st_module s2) cid.
Proof.
  induction cids as [|h cids IH]; intros ch s ch' s' cid c Hnd Hin Hwf Hc H.
  { by apply elem_of_nil in Hin. }
  apply NoDup_cons in Hnd as [Hh Hnd].
  cbn [process_computations] in H. rewrite bind_eq in H.
  destruct (process_computation self ext h ch s) as [[ch1| |] s1] eqn:Hstep; [|done..].
  destruct (decide (h = cid)) as [->|Hne].
  - exists ch, s, ch1, s1. split_and!; try done.
    + eapply process_computations_untouched in H as (? & _); [done|by left].
    + eapply process_computations_untouched in H as (_ & ? & _); [done|by left].
  - apply elem_of_cons in Hin as [?|Hin]; [congruence|].
    pose proof (process_computation_frame _ _ _ _ _ Hstep) as (Ha & Hb & _).
    eapply IH in H as (ch2 & s2 & ch3 & s3 & ? & ? & ? & Hs & ? & ?); [|done|done| |].
    + exists ch2, s2, ch3, s3. split_and!; try done. rewrite Hs. by apply Hb.
    + by eapply process_computation_wf.
    + rewrite Ha by done. done.
Qed.

Lemma NoDup_MakeNonfusionComputations m threads :
  NoDup (MakeNonfusionComputations ext m threads).
Proof.
  unfold MakeNonfusionComputations.
  eapply sublist_NoDup; [apply (NoDup_fst_map_to_list (computations m))|].
  apply fmap_sublist, sublist_filter.
Qed.

Lemma elem_of_MakeNonfusionComputations m threads cid :
  cid ∈ MakeNonfusionComputations ext m threads ↔
  ∃ c, computations m !! cid = Some c ∧ eligible ext threads c = true.
Proof.
  unfold MakeNonfusionComputations. rewrite list_elem_of_fmap. split.
  - intros ([cid' c] & -> & Hin). apply list_elem_of_filter in Hin as [He Hin].
    apply elem_of_map_to_list in Hin. eauto.
  - intros (c & Hc & He). exists (cid, c). split; [done|].
    apply list_elem_of_filter. split; [done|]. by apply elem_of_map_to_list.
Qed.

(** *** The schedule patcher *)

Lemma update_sequence_app rp l1 l2 :
  update_sequence rp (l1 ++ l2) = update_sequence rp l1 ++ update_sequence rp l2.
Proof.
  induction l1 as [|p l1 IH]; [done|]. cbn. destruct (rp !! p); cbn; by rewrite IH.
Qed.

Lemma update_sequence_empty seq : update_sequence ∅ seq = seq.
Proof. induction seq as [|p seq IH]; [done|]. cbn. by rewrite lookup_empty, IH. Qed.

Lemma update_sequence_slots_length (rp : gmap nat ReplacedAsync) seq :
  length (update_sequence rp seq)
  = length seq + length (filter (λ p, is_Some (rp !! p)) seq).
Proof.
  induction seq as [|p seq IH]; [done|]. cbn [update_sequence]. rewrite filter_cons.
  destruct (rp !! p) eqn:E.
  - rewrite decide_True by done. cbn. lia.
  - rewrite decide_False by (by intros [? ?]). cbn. lia.
Qed.

Lemma filter_ext_elem {A} (P Q : A → Prop) `{∀ x, Decision (P x)} `{∀ x, Decision (Q x)}
    (l : list A) :
  (∀ x, x ∈ l → (P x ↔ Q x)) → filter P l = filter Q l.
Proof.
  induction l as [|a l IH]; intros HPQ; [done|].
  rewrite !filter_cons. rewrite IH by (intros; apply HPQ; by right).
  destruct (decide (P a)) as [HP|HP], (decide (Q a)) as [HQ|HQ]; try done.
  - exfalso. apply HQ, HPQ; [by left|done].
  - exfalso. apply HP, HPQ; [by left|done].
Qed.

Lemma replaced_slots_length (rp : gmap nat ReplacedAsync) seq ps :
  NoDup seq → NoDup ps → (∀ p, p ∈ ps → p ∈ seq) →
  (∀ p, is_Some (rp !! p) ↔ p ∈ ps) →
  length (filter (λ p, is_Some (rp !! p)) seq) = length ps.
Proof.
  intros Hseq Hps Hsub Hdom. apply Permutation_length, NoDup_Permutation.
  - by apply NoDup_filter.
  - done.
  - intros p. rewrite list_elem_of_filter, Hdom. split; [by intros [? ?]|auto].
Qed.

Lemma update_sequence_filter (rp : gmap nat ReplacedAsync) (Q : nat → Prop)
    `{∀ p, Decision (Q p)} seq :
  (∀ p x, rp !! p = Some x → ¬ Q p ∧ ¬ Q (start x) ∧ ¬ Q (done x)) →
  filter Q (update_sequence rp seq) = filter Q seq.
Proof.
  intros HQ. induction seq as [|p seq IH]; [done|]. cbn [update_sequence].
  destruct (rp !! p) as [x|] eqn:E.
  - destruct (HQ _ _ E) as (Hp & Hs & Hd).
    rewrite !filter_cons, !decide_False by done. exact IH.
  - rewrite !filter_cons, IH. done.
Qed.

Lemma update_sequence_sublist (rp : gmap nat ReplacedAsync) seq :
  filter (λ p, rp !! p = None) seq `sublist_of` update_sequence rp seq.
Proof.
  induction seq as [|p seq IH]; [done|]. cbn [update_sequence]. rewrite filter_cons.
  destruct (rp !! p) as [x|] eqn:E.
  - rewrite decide_False by done. by do 2 apply sublist_cons.
  - rewrite decide_True by done. by apply sublist_skip.
Qed.

(** *** One computation, in a run *)

Lemma loop_post_nil should l n rp :
  NoDup (unique_id <$> l) → ids_below n l → loop_post should [] l n rp l n rp.
Proof.
  intros Hnd Hb. split; try done.
  - exists [], []. split_and!; [constructor|constructor|].
    rewrite app_nil_r. symmetry. apply filter_all, Forall_forall.
    intros ? _. apply not_elem_of_nil.
  - destruct should; [|done]. split; [|done]. intros ? Hp. by apply elem_of_nil in Hp.
Qed.

Lemma should_update_entry m cid :
  should_update m cid = bool_decide (is_Some (sched_entry m cid)).
Proof.
  unfold should_update, sched_entry. destruct (schedule m); [done|].
  rewrite bool_decide_eq_false_2; [done|]. by intros [? ?].
Qed.

Lemma process_computation_summary cid ch s ch' s' c :
  computations (st_module s) !! cid = Some c →
  wf_computation (next_unique_id (st_module s)) c →
  process_computation self ext cid ch s = (Ok ch', s') →
  ∃ c' rp,
    computations (st_module s') !! cid = Some c' ∧
    execution_thread c' = execution_thread c ∧
    IsFusionComputation c' = IsFusionComputation c ∧
    loop_post (should_update (st_module s) cid) (supported_collectives_of self c)
      (instructions c) (next_unique_id (st_module s)) ∅
      (instructions c') (next_unique_id (st_module s')) rp ∧
    sched_entry (st_module s') cid = update_sequence rp <$> sched_entry (st_module s) cid.
Proof.
  intros Hc Hwf H.
  destruct (decide (supported_collectives_of self c = [])) as [Hps|Hps].
  { rewrite (process_computation_skip _ _ _ c) in H by done. simplify_eq.
    exists c, ∅. rewrite Hps. split_and!; try done.
    - destruct Hwf. by apply loop_post_nil.
    - destruct (sched_entry _ _); cbn; by rewrite ?update_sequence_empty. }
  destruct (process_computation_Ok _ _ _ _ _ _ Hc Hwf Hps H)
    as (c' & rp & Hcomps & Ht & Hf & Hpost & Hsched & _).
  exists c', rp. rewrite Hcomps, lookup_insert_eq. split_and!; try done.
  unfold sched_entry, should_update in *. rewrite Hsched.
  destruct (schedule (st_module s)) as [sched|]; [|done].
  destruct (sched !! cid) as [seq|] eqn:Hseq.
  - rewrite bool_decide_eq_true_2 in * by (by eexists). cbn.
    by rewrite lookup_insert_eq, Hseq.
  - rewrite bool_decide_eq_false_2 in * by (by intros [? ?]). cbn.
    destruct Hpost as [_ _ _ _ -> _]. rewrite Hseq. done.
Qed.

Lemma Run_at m threads ch s' cid c :
  wf_module m → cid ∈ MakeNonfusionComputations ext m threads →
  computations m !! cid = Some c →
  RunOnModule self ext m threads = (Ok ch, s') →
  ∃ c' rp n0 n1,
    computations (st_module s') !! cid = Some c' ∧
    execution_thread c' = execution_thread c ∧
    IsFusionComputation c' = IsFusionComputation c ∧
    ids_below n0 (instructions c) ∧
    loop_post (bool_decide (is_Some (sched_entry m cid))) (supported_collectives_of self c)
      (instructions c) n0 ∅ (instructions c') n1 rp ∧
    sched_entry (st_module s') cid = update_sequence rp <$> sched_entry m cid.
Proof.
  intros Hwf Hin Hc H. unfold RunOnModule, Run in H. cbn [st_module] in H.
  eapply process_computations_at in H
    as (ch1 & s1 & ch2 & s2 & Hstep & Hwf1 & Hc1 & He1 & Hc' & He');
    [|apply NoDup_MakeNonfusionComputations|done|done|done].
  cbn [st_module] in He1.
  destruct (process_computation_summary _ _ _ _ _ _ Hc1 (Hwf1 _ _ Hc1) Hstep)
    as (c' & rp & Hc2 & Ht & Hf & Hpost & Hsched).
  exists c', rp, (next_unique_id (st_module s1)), (next_unique_id (st_module s2)).
  rewrite Hc', He', Hsched, <- He1, <- should_update_entry. split_and!; try done.
  apply (Hwf1 _ _ Hc1).
Qed.

Lemma accepts_every_instance_supported i :
  accepts_every_instance →
  is_supported_collective self i = is_sync_collective (opcode i).
Proof.
  intros Hacc. destruct (Hacc i) as (H1 & H2 & H3 & H4).
  unfold is_supported_collective.
  destruct (opcode i); cbn; rewrite ?H1, ?H2, ?H3, ?H4 by done; done.
Qed.

Lemma candidate_opcodes (P : HloInstruction → Prop) `{∀ i, Decision (P i)} l ops :
  NoDup (unique_id <$> l) →
  Forall2 (λ p op, opcode_at l p = Some op) (unique_id <$> filter P l) ops →
  ops = opcode <$> filter P l.
Proof.
  intros Hnd.
  assert (Forall (λ i, i ∈ l) (filter P l)) as Hin.
  { apply Forall_forall. intros i Hi. by apply list_elem_of_filter in Hi as [_ ?]. }
  revert ops. induction (filter P l) as [|i l0 IH]; intros ops Hops.
  - by apply Forall2_nil_inv_l in Hops.
  - apply Forall_cons in Hin as [Hi Hin]. rewrite fmap_cons in Hops.
    apply Forall2_cons_inv_l in Hops as (op & ops' & Hop & Hops & ->).
    unfold opcode_at in Hop. rewrite find_list_in in Hop by done. cbn in Hop.
    rewrite fmap_cons. f_equal; [congruence|]. by apply IH.
Qed.

Lemma filter_kinds (Q : nat * HloOpcode * string → Prop) (R : HloInstruction → Prop)
    `{∀ k, Decision (Q k)} `{∀ i, Decision (R i)} (l : list HloInstruction) :
  (∀ i, i ∈ l → (Q (kind_of i) ↔ R i)) →
  filter Q (kind_of <$> l) = kind_of <$> filter R l.
Proof.
  induction l as [|a l IH]; intros HQR; [done|].
  rewrite fmap_cons, !filter_cons. rewrite IH by (intros; apply HQR; by right).
  destruct (decide (Q (kind_of a))) as [HQ|HQ], (decide (R a)) as [HR|HR]; try done.
  - exfalso. apply HR, HQR; [by left|done].
  - exfalso. apply HQ, HQR; [by left|done].
Qed.

Lemma unreplaced_kinds (P : HloInstruction → Prop) `{∀ i, Decision (P i)} l :
  NoDup (unique_id <$> l) →
  filter (λ k, k.1.1 ∉ unique_id <$> filter P l) (kind_of <$> l)
  = kind_of <$> filter (λ i, ¬ P i) l.
Proof.
  intros Hnd. apply filter_kinds. intros i Hi. cbn. split.
  - intros Hn HP. apply Hn, list_elem_of_fmap. exists i. split; [done|].
    by apply list_elem_of_filter.
  - intros HP Hin. apply list_elem_of_fmap in Hin as (j & Hij & Hj).
    apply list_elem_of_filter in Hj as [HPj Hj].
    pose proof (find_list_in _ _ Hnd Hi) as E1.
    pose proof (find_list_in _ _ Hnd Hj) as E2.
    rewrite Hij in E1. congruence.
Qed.

Lemma news_for_not_sync ops n n' ks :
  news_for ops n n' ks →
  Forall (λ op, is_sync_collective op = true) ops →
  Forall (λ k, is_sync_collective k.1.2 = false) ks.
Proof.
  induction 1 as [|op ops n n' ks _ IH|ops n n' ks _ IH]; intros Hops.
  - constructor.
  - apply Forall_cons in Hops as [Hop Hops].
    repeat constructor; [by destruct op..|by apply IH].
  - apply Forall_cons in Hops as [Hop Hops].
    repeat constructor. by apply IH.
Qed.

Lemma Run_kinds m threads ch s' :
  wf_module m → RunOnModule self ext m threads = (Ok ch, s') →
  ∀ cid c, cid ∈ MakeNonfusionComputations ext m threads →
    computations m !! cid = Some c →
    ∃ c' n n' ks,
      computations (st_module s') !! cid = Some c' ∧
      kind_of <$> instructions c'
        = (kind_of <$> filter (λ i, ¬ is_supported_collective self i = true)
                         (instructions c)) ++ ks ∧
      news_for (opcode <$> filter (λ i, is_supported_collective self i = true)
                             (instructions c)) n n' ks.
Proof.
  intros Hwf Hrun cid c Hcid Hc.
  destruct (Run_at _ _ _ _ _ _ Hwf Hcid Hc Hrun)
    as (c' & rp & n0 & n1 & Hc' & _ & _ & _ & Hpost & _).
  destruct Hpost as [_ _ _ (ops & ks & Hops & Hks & Hkinds) _ _].
  destruct (Hwf _ _ Hc) as [Hnd _].
  unfold supported_collectives_of in *.
  apply candidate_opcodes in Hops; [|done]. subst ops.
  rewrite unreplaced_kinds in Hkinds by done.
  by exists c', n0, n1, ks.
Qed.

Lemma accept_all_candidates (l : list HloInstruction) :
  accepts_every_instance →
  filter (λ i, is_supported_collective self i = true) l
    = filter (λ i, is_sync_collective (opcode i) = true) l ∧
  filter (λ i, ¬ is_supported_collective self i = true) l
    = filter (λ i, is_sync_collective (opcode i) = false) l.
Proof.
  intros Hacc. split; apply list_filter_iff; intros i;
    rewrite accepts_every_instance_supported by done;
    by destruct (is_sync_collective (opcode i)).
Qed.

Lemma kinds_without_sync (l l' : list HloInstruction) ops n n' ks :
  kind_of <$> l'
    = (kind_of <$> filter (λ i, is_sync_collective (opcode i) = false) l) ++ ks →
  news_for ops n n' ks → Forall (λ op, is_sync_collective op = true) ops →
  ∀ i, i ∈ l' → is_sync_collective (opcode i) = false.
Proof.
  intros Hkinds Hks Hops i Hi.
  assert (kind_of i ∈ kind_of <$> l') as Hk by (apply list_elem_of_fmap; eauto).
  rewrite Hkinds in Hk. apply elem_of_app in Hk as [Hk|Hk].
  - apply list_elem_of_fmap in Hk as (j & Hij & Hj).
    apply list_elem_of_filter in Hj as [Hj _]. unfold kind_of in Hij. congruence.
  - apply news_for_not_sync in Hks; [|done].
    rewrite Forall_forall in Hks. by apply Hks in Hk.
Qed.

Lemma sync_opcodes (l : list HloInstruction) :
  Forall (λ op, is_sync_collective op = true)
         (opcode <$> filter (λ i, is_sync_collective (opcode i) = true) l).
Proof.
  rewrite Forall_fmap. apply Forall_forall. intros j Hj.
  by apply list_elem_of_filter in Hj as [Hj _].
Qed.

Lemma news_for_counts ops n n' ks :
  news_for ops n n' ks → Forall (λ op, is_sync_collective op = true) ops →
  length (filter (λ k, is_start_opcode k.1.2 = true) ks) = length ops ∧
  length (filter (λ k, is_done_kind k.1.2 k.2 = true) ks) = length ops.
Proof.
  induction 1 as [|op ops n n' ks _ IH|ops n n' ks _ IH]; intros Hops.
  - done.
  - apply Forall_cons in Hops as [Hop Hops]. destruct (IH Hops) as [IH1 IH2].
    rewrite !filter_cons. cbn [fst snd].
    destruct op; try discriminate Hop; cbn;
      rewrite !(decide_True (P := true = true)), !(decide_False (P := false = true)) by done;
      cbn; by rewrite IH1, IH2.
  - apply Forall_cons in Hops as [Hop Hops]. destruct (IH Hops) as [IH1 IH2].
    rewrite !filter_cons. cbn.
    rewrite !(decide_True (P := true = true)), !(decide_False (P := false = true)) by done.
    cbn. by rewrite IH1, IH2.
Qed.

Lemma length_filter_kinds (P : nat * HloOpcode * string → bool) (l : list HloInstruction) :
  length (filter (λ i, P (kind_of i) = true) l)
  = length (filter (λ k, P k = true) (kind_of <$> l)).
Proof.
  induction l as [|a l IH]; [done|]. rewrite fmap_cons, !filter_cons.
  destruct (decide (P (kind_of a) = true)); cbn; by rewrite IH.
Qed.

Lemma length_filter_not_sync (P : nat * HloOpcode * string → bool)
    (l : list HloInstruction) :
  (∀ i, P (kind_of i) = true → is_sync_collective (opcode i) = false) →
  length (filter (λ k, P k = true)
            (kind_of <$> filter (λ i, is_sync_collective (opcode i) = false) l))
  = length (filter (λ i, P (kind_of i) = true) l).
Proof.
  intros HP. rewrite <- length_filter_kinds. f_equal.
  rewrite list_filter_filter. apply list_filter_iff. intros i. split; [tauto|].
  intros Hi. split; [done|]. by apply HP.
Qed.

(** C4, as amended. The schedule patcher turns each replaced slot into two
    slots, the start and then the done recorded for the replaced
    instruction, and leaves every other slot as it is: the result is the
    concatenation, slot by slot, of [start; done] for a replaced
    instruction and of the instruction itself otherwise, so whatever
    precedes a slot is patched before it and whatever follows is patched
    after it. For a sequence without repetition that holds every replaced
    instruction the result has the original length plus the number of
    replaced instructions (not twice that number), and the untouched
    instructions keep their relative order. *)
Theorem update_sequence_length (rp : gmap nat ReplacedAsync) seq :
  NoDup seq → (∀ p, is_Some (rp !! p) → p ∈ seq) →
  length (update_sequence rp seq) = length seq + size rp ∧
  filter (λ p, rp !! p = None) seq `sublist_of` update_sequence rp seq ∧
  update_sequence rp seq
    = seq ≫= (λ p, match rp !! p with Some it => [start it; done it] | None => [p] end) ∧
  (∀ l1 p l2 it, seq = l1 ++ p :: l2 → rp !! p = Some it →
     update_sequence rp seq
     = update_sequence rp l1 ++ start it :: done it :: update_sequence rp l2) ∧
  (∀ l1 p l2, seq = l1 ++ p :: l2 → rp !! p = None →
     update_sequence rp seq = update_sequence rp l1 ++ p :: update_sequence rp l2).
Proof.
  intros Hnd Hsub. split_and!; [|apply update_sequence_sublist| |..].
  2:{ clear. induction seq as [|p seq IH]; [done|]. cbn [update_sequence].
      destruct (rp !! p) eqn:E; cbn; rewrite E; cbn; by rewrite IH. }
  - rewrite update_sequence_slots_length. f_equal.
    rewrite <- (length_map_to_list rp), <- (length_fmap fst (map_to_list rp)).
    apply replaced_slots_length; [done|apply NoDup_fst_map_to_list| |].
    + intros p Hp. apply Hsub. apply list_elem_of_fmap in Hp as ([p' x] & -> & Hp).
      apply elem_of_map_to_list in Hp. by eexists.
    + intros p. split.
      * intros [x Hx]. apply list_elem_of_fmap. exists (p, x). split; [done|].
        by apply elem_of_map_to_list.
      * intros Hp. apply list_elem_of_fmap in Hp as ([p' x] & -> & Hp).
        apply elem_of_map_to_list in Hp. by eexists.
  - intros l1 p l2 it -> Hp. rewrite update_sequence_app. cbn [update_sequence].
    by rewrite Hp.
  - intros l1 p l2 -> Hp. rewrite update_sequence_app. cbn [update_sequence].
    by rewrite Hp.
Qed.

Lemma no_candidate c :
  (∀ i, i ∈ instructions c → is_supported_collective self i = false) →
  supported_collectives_of self c = [].
Proof.
  intros Hno. unfold supported_collectives_of.
  induction (instructions c) as [|a l IH]; [done|].
  rewrite filter_cons, decide_False.
  - apply IH. intros i Hi. apply Hno. by right.
  - rewrite Hno; [done|by left].
Qed.

(** C7. A computation in which no instruction has a supported kind and is
    accepted by its predicate is left exactly as it was by a run, whatever
    the outcome, and the run makes no access to the schedule while working
    on it. *)
Theorem Run_skips_computation_without_candidate m threads o s' cid c :
  computations m !! cid = Some c →
  (∀ i, i ∈ instructions c → is_supported_collective self i = false) →
  RunOnModule self ext m threads = (o, s') →
  computations (st_module s') !! cid = Some c ∧
  sched_entry (st_module s') cid = sched_entry m cid ∧
  Forall (λ a, access_computation a ≠ cid) (st_accesses s').
Proof.
  intros Hc Hno Hrun. unfold RunOnModule, Run in Hrun. cbn [st_module] in Hrun.
  eapply process_computations_untouched in Hrun as (Ha & Hb & acc & Hacc & Hall).
  - cbn in *. rewrite Ha, Hb, Hacc. done.
  - right. exists c. split; [done|]. by apply no_candidate.
Qed.

Lemma Run_without_collectives m threads :
  (∀ cid c, cid ∈ MakeNonfusionComputations ext m threads →
            computations m !! cid = Some c →
            ∀ i, i ∈ instructions c → is_sync_collective (opcode i) = false) →
  RunOnModule self ext m threads = (Ok false, mkState m []).
Proof.
  intros Habsent. unfold RunOnModule, Run. cbn [st_module].
  apply process_computations_noop, Forall_forall. intros cid Hcid. cbn.
  pose proof Hcid as Hcid'.
  apply elem_of_MakeNonfusionComputations in Hcid' as (c & Hc & _).
  exists c. split; [done|]. apply no_candidate. intros i Hi.
  specialize (Habsent _ _ Hcid Hc _ Hi).
  destruct (is_supported_collective self i) eqn:E; [|done].
  apply is_supported_sync in E. congruence.
Qed.

Lemma Run_eligible_preserved m threads ch s1 cid :
  wf_module m → RunOnModule self ext m threads = (Ok ch, s1) →
  cid ∈ MakeNonfusionComputations ext (st_module s1) threads ↔
  cid ∈ MakeNonfusionComputations ext m threads.
Proof.
  intros Hwf Hrun. split.
  - intros Hin.
    destruct (decide (cid ∈ MakeNonfusionComputations ext m threads)) as [|Hn]; [done|].
    unfold RunOnModule, Run in Hrun. cbn [st_module] in Hrun.
    eapply process_computations_untouched in Hrun as (Ha & _); [|by left].
    apply elem_of_MakeNonfusionComputations in Hin as (c & Hc & He).
    apply elem_of_MakeNonfusionComputations. exists c. cbn in Ha. by rewrite <- Ha.
  - intros Hin. pose proof Hin as Hin'.
    apply elem_of_MakeNonfusionComputations in Hin' as (c & Hc & He).
    destruct (Run_at _ _ _ _ _ _ Hwf Hin Hc Hrun) as (c' & _ & _ & _ & Hc' & Ht & Hf & _).
    apply elem_of_MakeNonfusionComputations. exists c'. split; [done|].
    unfold eligible in *. by rewrite Ht, Hf.
Qed.

(** C8. After a successful run that left no instruction of the four
    synchronous kinds in the eligible computations, a second run with the
    same predicates changes nothing, accesses no schedule and returns
    [changed = false]; and that is the case after every successful run on a
    well-formed module with predicates that accept every instance. *)
Theorem second_Run_is_noop m threads ch s1 :
  RunOnModule self ext m threads = (Ok ch, s1) →
  (collectives_absent (st_module s1) threads →
   RunOnModule self ext (st_module s1) threads = (Ok false, mkState (st_module s1) [])) ∧
  (wf_module m → accepts_every_instance →
   collectives_absent (st_module s1) threads ∧
   RunOnModule self ext (st_module s1) threads = (Ok false, mkState (st_module s1) [])).
Proof.
  intros Hrun. split; [apply Run_without_collectives|]. intros Hwf Hacc.
  assert (collectives_absent (st_module s1) threads) as Habsent.
  { intros cid c1 Hcid Hc1.
    apply (Run_eligible_preserved _ _ _ _ _ Hwf Hrun) in Hcid. pose proof Hcid as Hcid'.
    apply elem_of_MakeNonfusionComputations in Hcid' as (c & Hc & _).
    destruct (Run_kinds _ _ _ _ Hwf Hrun _ _ Hcid Hc) as (c' & n & n' & ks & Hc' & Hk & Hks).
    destruct (accept_all_candidates (instructions c) Hacc) as [E1 E2].
    rewrite E1 in Hks. rewrite E2 in Hk. simplify_eq.
    eapply kinds_without_sync; [done|done|apply sync_opcodes]. }
  split; [done|]. by apply Run_without_collectives.
Qed.

Lemma find_start_after_replace l news p d n s rest :
  ids_below n l → p < n → news = s :: rest → unique_id s = n →
  find_list (replace_list p d (l ++ news)) n = Some (replace_uses p d s).
Proof.
  intros Hb Hp -> Hs. unfold replace_list. rewrite find_list_replace by lia.
  rewrite (find_list_new n) by (done || lia). cbn. by rewrite Hs, bool_decide_eq_true_2.
Qed.

(** C5. In each of the four rewrite branches, the start instruction that
    the rewrite of [x] creates carries the metadata and the backend
    configuration of [x]. *)
Theorem start_carries_metadata_and_backend_config should p rp ch c n x r fs' :
  ids_below n (instructions c) → find_instruction c p = Some x →
  is_sync_collective (opcode x) = true →
  convert_instruction self ext should p (rp, ch) (mkFocus c n) = (Ok r, fs') →
  ∃ st, find_instruction (computation fs') n = Some st ∧
        opcode st = start_opcode (opcode x) ∧
        metadata st = metadata x ∧ backend_config st = backend_config x.
Proof.
  intros Hb Hx Hsync Hrun. destruct r as [rp' ch'].
  rewrite <- (with_instructions_id c) in Hrun.
  pose proof (find_list_lt _ _ _ _ Hb Hx) as Hlt.
  eapply convert_instruction_Ok in Hrun as (news & Hnews & -> & _); [|done..].
  cbn [computation]. unfold find_instruction. cbn [instructions with_instructions].
  fold (find_list (replace_list p (S n) (instructions c ++ news)) n).
  destruct Hnews as [s d Hs Hos Hm Hbc _ _ _ _ _ _ _|s Hop _ Hs Hos Hm Hbc _].
  - erewrite find_start_after_replace by done.
    eexists. split; [done|]. by cbn.
  - erewrite find_start_after_replace by done.
    eexists. split; [done|]. cbn. by rewrite Hop.
Qed.

(** C10. The start instruction created for a single-operand
    collective-permute never carries the disjoint read/write regions
    attribute, whatever the original carries; with another operand count
    (four, since the rewrite succeeded) the start carries it exactly when
    the original does. *)
Theorem single_operand_start_has_no_disjoint_attr should cp rp c n rp' fs' :
  ids_below n (instructions c) → find_instruction c (unique_id cp) = Some cp →
  convert_collective_permute self ext should cp rp (mkFocus c n) = (Ok rp', fs') →
  ∃ st, find_instruction (computation fs') n = Some st ∧
        opcode st = kCollectivePermuteStart ∧
        (operand_count cp = 1 → disjoint_read_write_regions st = false) ∧
        (operand_count cp ≠ 1 →
           operand_count cp = 4 ∧
           disjoint_read_write_regions st = disjoint_read_write_regions cp).
Proof.
  intros Hb Hx Hrun. rewrite <- (with_instructions_id c) in Hrun.
  pose proof (find_list_lt _ _ _ _ Hb Hx) as Hlt.
  apply convert_collective_permute_Ok in Hrun as (s0 & tail & Hs & Hid & _ & Hr & _); [|done].
  apply collective_permute_start_Ok in Hs as (s0' & _ & ? & _ & Hop & _ & H1 & H4); [|done].
  assert (s0' = s0) as -> by (simplify_eq; by simplify_list_eq).
  apply ReplaceInstruction_Ok in Hr as (-> & _).
  rewrite replace_in_computation_eq. cbn [computation].
  unfold find_instruction. cbn [instructions with_instructions].
  fold (find_list (replace_list (unique_id cp) (S n)
          (instructions c ++ with_backend_config (backend_config cp)
                               (with_metadata (metadata cp) s0) :: tail)) n).
  erewrite find_start_after_replace; [|done|done|done|done].
  eexists. split; [done|]. by cbn.
Qed.

(** C2, as amended. For a candidate collective-permute with exactly four
    operands whose operand shapes make shape inference fail, the rewrite
    does not return a failure: unwrapping the failed result kills the
    process, and this happens before any graph edit for that candidate
    (the computation and the id counter are as they were). *)
Theorem failed_shape_inference_is_fatal should cp rp fs shs e :
  operand_count cp = 4 →
  operand_shapes_of (operands cp) fs = (Ok shs, fs) →
  InferCollectivePermuteStartShape ext shs = ErrorStatus e →
  convert_collective_permute self ext should cp rp fs = (Aborted (BadStatusOrAccess e), fs).
Proof.
  intros Hcount Hshapes Hinfer. unfold operand_count in Hcount.
  destruct (operands cp) as [|o0 [|o1 [|o2 [|o3 [|]]]]] eqn:Hops; try done.
  unfold convert_collective_permute, collective_permute_start, mutable_operand, operand_count.
  rewrite Hops. cbn [lookup list_lookup length]. mrun.
  rewrite bool_decide_eq_false_2 by done.
  unfold CHECK_EQ_operand_count. rewrite decide_True by done. mrun.
  rewrite Hshapes. mrun. rewrite Hinfer. done.
Qed.

Lemma find_list_replaced_gone l old new : find_list (replace_list old new l) old = None.
Proof.
  unfold find_list, replace_list. induction l as [|a l IH]; [done|].
  rewrite filter_cons. destruct (decide (unique_id a ≠ old)); [|done].
  cbn. by rewrite bool_decide_eq_false_2.
Qed.

Lemma replace_list_user l old new u :
  u ∈ l → unique_id u ≠ old → replace_uses old new u ∈ replace_list old new l.
Proof.
  intros Hu Hne. unfold replace_list. apply list_elem_of_fmap. exists u. split; [done|].
  by apply list_elem_of_filter.
Qed.

(** C6. When the tracking predicate accepts a collective-permute that is
    rewritten, the computation holds the new start, a recv-done custom call
    with the original result shape and a send-done custom call with a token
    shape, both reading the start and both marked as side-effecting, with a
    control edge from recv-done to send-done; the original is gone and
    every instruction that used it now uses the recv-done, which is also the
    done recorded for the schedule. With collaborators that succeed, the
    rewrite of a single-operand collective-permute does return. *)
Theorem split_tracking_creates_recv_done_and_send_done should cp rp c n :
  ids_below n (instructions c) → find_instruction c (unique_id cp) = Some cp →
  track_send_recv_separately_ self cp = true →
  (∀ rp' fs',
     convert_collective_permute self ext should cp rp (mkFocus c n) = (Ok rp', fs') →
     let c' := computation fs' in
     ∃ st recv send,
       find_instruction c' n = Some st ∧ opcode st = kCollectivePermuteStart ∧
       find_instruction c' (S n) = Some recv ∧
       find_instruction c' (S (S n)) = Some send ∧
       opcode recv = kCustomCall ∧ custom_call_target recv = "$cp_recv_done" ∧
       shape recv = shape cp ∧ operands recv = [n] ∧
       custom_call_has_side_effect recv = true ∧
       opcode send = kCustomCall ∧ custom_call_target send = "$cp_send_done" ∧
       shape send = ShapeUtil.MakeTokenShape ∧ operands send = [n] ∧
       custom_call_has_side_effect send = true ∧
       control_successors recv = [S (S n)] ∧ control_predecessors send = [S n] ∧
       find_instruction c' (unique_id cp) = None ∧
       (∀ u, u ∈ instructions c → unique_id u ≠ unique_id cp →
          ∃ u', u' ∈ instructions c' ∧ unique_id u' = unique_id u ∧
                operands u' = (λ o, if bool_decide (o = unique_id cp) then S n else o)
                                <$> operands u) ∧
       root_instruction c' = (if bool_decide (root_instruction c = unique_id cp)
                              then S n else root_instruction c) ∧
       rp' = record_pair should cp n (S n) rp) ∧
  (∀ o, operands cp = [o] → is_Some (find_instruction c o) →
     (∀ c0 a b, AddControlDependencyTo_failure ext c0 a b = None) →
     (∀ c0 a b, ReplaceInstruction_failure ext c0 a b = None) →
     ∃ rp' fs',
       convert_collective_permute self ext should cp rp (mkFocus c n) = (Ok rp', fs')).
Proof.
  intros Hb Hx Ht. pose proof (find_list_lt _ _ _ _ Hb Hx) as Hlt. split.
  - intros rp' fs' Hrun c'. subst c'. rewrite <- (with_instructions_id c) in Hrun.
    apply convert_collective_permute_Ok in Hrun as (s0 & tail & Hs & Hid & Htail & Hr & ->);
      [|done].
    destruct Htail as [[? _]|[_ ->]]; [congruence|].
    apply collective_permute_start_Ok in Hs as (s0' & _ & ? & _ & Hop & _); [|done].
    assert (s0' = s0) as -> by (simplify_eq; by simplify_list_eq).
    apply ReplaceInstruction_Ok in Hr as (-> & _).
    rewrite replace_in_computation_eq. cbn [computation].
    unfold find_instruction. cbn [instructions with_instructions root_instruction].
    set (news := with_backend_config _ _ :: _).
    fold (find_list (replace_list (unique_id cp) (S n) (instructions c ++ news)) n).
    fold (find_list (replace_list (unique_id cp) (S n) (instructions c ++ news)) (S n)).
    fold (find_list (replace_list (unique_id cp) (S n) (instructions c ++ news)) (S (S n))).
    fold (find_list (replace_list (unique_id cp) (S n) (instructions c ++ news))
            (unique_id cp)).
    rewrite find_list_replaced_gone.
    unfold replace_list at 1 2 3. rewrite !find_list_replace by lia.
    rewrite !(find_list_new n) by (done || lia). subst news. cbn. rewrite Hid. bd. cbn.
    eexists _, _, _. split_and!; try done.
    + cbn. by rewrite bool_decide_eq_false_2 by lia.
    + cbn. by rewrite bool_decide_eq_false_2 by lia.
    + intros u Hu Hne. exists (replace_uses (unique_id cp) (S n) u). split; [|done].
      apply replace_list_user; [|done]. apply elem_of_app. by left.
  - intros o Hops [oi Ho] Hctl Hrep. rewrite <- (with_instructions_id c).
    unfold convert_collective_permute.
    rewrite bind_eq, (collective_permute_start_single _ o) by done.
    unfold find_instruction in Ho. fold (find_list (instructions c) o) in Ho. rewrite Ho.
    unfold set_metadata, CopyBackendConfigFrom.
    do 2 (mrun; rewrite mutate_eq;
          rewrite (find_list_new n), (update_list_new n) by (done || lia);
          simpl; bd).
    mrun. rewrite collective_permute_done_split by done. rewrite Hctl. mrun.
    rewrite ReplaceInstruction_eq, Hrep.
    rewrite find_list_app. unfold find_instruction in Hx.
    fold (find_list (instructions c) (unique_id cp)) in Hx. rewrite Hx.
    rewrite (find_list_new n) by (done || lia). cbn. bd. cbn. eauto.
Qed.

Lemma ncf_ret {S A} (a : A) : never_check_fails (S := S) (ret a).
Proof. by intros s a0 b. Qed.

Lemma ncf_fail {S A} e : never_check_fails (S := S) (A := A) (fail e).
Proof. by intros s a0 b. Qed.

Lemma ncf_bind {S A B} (x : M S A) (k : A → M S B) :
  never_check_fails x → (∀ a, never_check_fails (k a)) → never_check_fails (bind x k).
Proof.
  intros Hx Hk s a b. rewrite bind_eq. specialize (Hx s a b).
  destruct (x s) as [[r| |] s1]; cbn in *; [apply Hk|by intros ?|].
  intros E. apply Hx. by simplify_eq.
Qed.

Lemma ncf_deref p : never_check_fails (deref p).
Proof.
  intros [c n] a b. unfold deref. rewrite bind_eq. cbn.
  by destruct (find_instruction c p).
Qed.

Lemma ncf_mutate p f : never_check_fails (mutate p f).
Proof.
  unfold mutate. apply ncf_bind; [apply ncf_deref|]. intros _.
  apply ncf_bind; [by intros ? ? ?|]. by intros ? ? ? ?.
Qed.

Lemma ncf_mutable_operand i k : never_check_fails (mutable_operand i k).
Proof. unfold mutable_operand. by destruct (operands i !! k). Qed.

Lemma ncf_operand_shapes_of ops : never_check_fails (operand_shapes_of ops).
Proof.
  induction ops as [|p ops IH]; [apply ncf_ret|]. cbn.
  apply ncf_bind; [apply ncf_deref|]. intros op.
  apply ncf_bind; [done|]. intros ?. apply ncf_ret.
Qed.

Lemma ncf_AddInstruction i : never_check_fails (AddInstruction i).
Proof. by intros ? ? ?. Qed.

Lemma ncf_ReplaceInstruction old new : never_check_fails (ReplaceInstruction ext old new).
Proof.
  unfold ReplaceInstruction. apply ncf_bind; [by intros ? ? ?|]. intros c.
  destruct (ReplaceInstruction_failure _ _ _ _); [apply ncf_fail|].
  apply ncf_bind; [apply ncf_deref|]. intros _.
  apply ncf_bind; [apply ncf_deref|]. by intros ? ? ? ?.
Qed.

Lemma ncf_collective_permute_done cp st :
  never_check_fails (collective_permute_done self ext cp st).
Proof.
  unfold collective_permute_done. destruct (negb _).
  - apply ncf_bind; [by intros ? ? ?|]. intros ?. apply ncf_AddInstruction.
  - apply ncf_bind; [by intros ? ? ?|]. intros ?.
    apply ncf_bind; [apply ncf_AddInstruction|]. intros ?.
    apply ncf_bind; [by intros ? ? ?|]. intros ?.
    apply ncf_bind; [apply ncf_AddInstruction|]. intros ?.
    apply ncf_bind.
    { unfold AddControlDependencyTo. apply ncf_bind; [by intros ? ? ?|]. intros ?.
      destruct (AddControlDependencyTo_failure _ _ _ _); [apply ncf_fail|].
      apply ncf_bind; [apply ncf_mutate|]. intros _. apply ncf_mutate. }
    intros _. apply ncf_bind; [apply ncf_mutate|]. intros _.
    apply ncf_bind; [apply ncf_mutate|]. intros _. apply ncf_ret.
Qed.

Lemma ncf_collective_permute_start cp :
  operand_count cp = 1 ∨ operand_count cp = 4 →
  never_check_fails (collective_permute_start ext cp).
Proof.
  intros Hcount. unfold collective_permute_start.
  apply ncf_bind; [apply ncf_mutable_operand|]. intros operand.
  destruct (bool_decide (operand_count cp = 1)) eqn:E1.
  - apply ncf_bind; [apply ncf_deref|]. intros ?.
    apply ncf_bind; [by intros ? ? ?|]. intros ?. apply ncf_AddInstruction.
  - apply bool_decide_eq_false in E1. destruct Hcount as [?|H4]; [done|].
    apply ncf_bind.
    { unfold CHECK_EQ_operand_count. rewrite decide_True by done. apply ncf_ret. }
    intros _. apply ncf_bind; [apply ncf_operand_shapes_of|]. intros shs.
    apply ncf_bind.
    { by destruct (InferCollectivePermuteStartShape ext shs). }
    intros sh. do 3 (apply ncf_bind; [apply ncf_mutable_operand|]; intros ?).
    apply ncf_bind; [by intros ? ? ?|]. intros ?.
    apply ncf_bind; [apply ncf_AddInstruction|]. intros ?.
    apply ncf_bind; [|intros; apply ncf_ret].
    destruct (HasDisjointReadWriteRegionsAttr cp); [apply ncf_mutate|apply ncf_ret].
Qed.

(** C9. A candidate collective-permute whose operand count is neither 1
    nor 4 kills the process (it is not a returned failure, and nothing has
    been edited): on the check that the count is 4, or, with no operand at
    all, already on the access to operand 0. With 1 or 4 operands the
    rewrite never dies on that check. *)
Theorem collective_permute_operand_count_check should cp rp fs :
  (operand_count cp ≠ 1 → operand_count cp ≠ 4 →
     convert_collective_permute self ext should cp rp fs
     = (Aborted (if decide (operand_count cp = 0)
                 then OperandIndexOutOfRange 0
                 else CheckEqOperandCount (operand_count cp) 4), fs)) ∧
  (operand_count cp = 1 ∨ operand_count cp = 4 →
     ∀ a b, (convert_collective_permute self ext should cp rp fs).1
            ≠ Aborted (CheckEqOperandCount a b)).
Proof.
  split.
  - intros H1 H4. unfold convert_collective_permute. rewrite bind_eq.
    destruct (decide (operand_count cp = 0)) as [H0|H0].
    + rewrite collective_permute_start_no_operand; [done|].
      unfold operand_count in H0. by destruct (operands cp).
    + by rewrite collective_permute_start_check.
  - intros Hcount a b. revert fs a b. change (never_check_fails
      (convert_collective_permute self ext should cp rp)).
    unfold convert_collective_permute.
    apply ncf_bind; [by apply ncf_collective_permute_start|]. intros st.
    apply ncf_bind; [apply ncf_mutate|]. intros _.
    apply ncf_bind; [apply ncf_mutate|]. intros _.
    apply ncf_bind; [apply ncf_collective_permute_done|]. intros d.
    apply ncf_bind; [apply ncf_ReplaceInstruction|]. intros _. apply ncf_ret.
Qed.

(** ** Which computations a run works on, and what it reports *)

(** X1. A computation that [MakeNonfusionComputations] does not return for
    the given execution threads (a fusion computation, a computation of
    another thread) is left as it is by a run, whatever it holds and
    whatever the outcome: its instructions and its schedule entry are
    unchanged and no schedule access is made on its behalf. *)
Theorem Run_leaves_unselected_computation m threads o s' cid :
  cid ∉ MakeNonfusionComputations ext m threads →
  RunOnModule self ext m threads = (o, s') →
  computations (st_module s') !! cid = computations m !! cid ∧
  sched_entry (st_module s') cid = sched_entry m cid ∧
  Forall (λ a, access_computation a ≠ cid) (st_accesses s').
Proof.
  intros Hcid Hrun. unfold RunOnModule, Run in Hrun. cbn [st_module] in Hrun.
  eapply process_computations_untouched in Hrun as (Ha & Hb & acc & Hacc & Hall);
    [|by left].
  cbn in *. by rewrite Ha, Hb, Hacc.
Qed.

Lemma has_candidate c :
  supported_collectives_of self c ≠ [] ↔
  ∃ i, i ∈ instructions c ∧ is_supported_collective self i = true.
Proof.
  split.
  - intros Hps. destruct (supported_collectives_of self c) as [|p ps] eqn:E; [done|].
    assert (p ∈ supported_collectives_of self c) as Hp by (rewrite E; by left).
    unfold supported_collectives_of in Hp.
    apply list_elem_of_fmap in Hp as (i & _ & Hi).
    apply list_elem_of_filter in Hi as [? ?]. eauto.
  - intros (i & Hi & Hs) Hps.
    assert (unique_id i ∈ supported_collectives_of self c) as Hp.
    { apply list_elem_of_fmap. exists i. split; [done|]. by apply list_elem_of_filter. }
    rewrite Hps in Hp. by apply elem_of_nil in Hp.
Qed.

Lemma process_computations_changed cids :
  ∀ ch s ch' s',
  NoDup cids → wf_module (st_module s) →
  process_computations self ext cids ch s = (Ok ch', s') →
  (ch' = true ↔
   ch = true ∨ ∃ cid c, cid ∈ cids ∧ computations (st_module s) !! cid = Some c ∧
                        supported_collectives_of self c ≠ []).
Proof.
  induction cids as [|h cids IH]; intros ch s ch' s' Hnd Hwf H.
  { cbn in H. unfold ret in H. simplify_eq. split; [by left|].
    intros [?|(cid & c & Hin & _)]; [done|]. by apply elem_of_nil in Hin. }
  apply NoDup_cons in Hnd as [Hh Hnd].
  cbn [process_computations] in H. rewrite bind_eq in H.
  destruct (process_computation self ext h ch s) as [[ch1| |] s1] eqn:Hstep; [|done..].
  pose proof (process_computation_wf _ _ _ _ _ Hwf Hstep) as Hwf1.
  pose proof (process_computation_frame _ _ _ _ _ Hstep) as (Ha & _).
  apply IH in H; [|done..].
  destruct (computations (st_module s) !! h) as [c|] eqn:Hc.
  2:{ unfold process_computation, lookup_computation in Hstep.
      rewrite bind_eq, Hc in Hstep. done. }
  assert (ch1 = true ↔ ch = true ∨ supported_collectives_of self c ≠ []) as Hch1.
  { destruct (decide (supported_collectives_of self c = [])) as [Hps|Hps].
    - rewrite (process_computation_skip _ _ _ c) in Hstep by done. simplify_eq. tauto.
    - destruct (process_computation_Ok _ _ _ _ _ _ Hc (Hwf _ _ Hc) Hps Hstep)
        as (? & ? & _ & _ & _ & _ & _ & ->). tauto. }
  rewrite H, Hch1. split.
  - intros [[?|?]|(cid & c0 & Hin & Hc0 & Hps)].
    + by left.
    + right. exists h, c. split_and!; [by left|done|done].
    + right. exists cid, c0. split_and!; [by right| |done].
      rewrite <- Ha; [done|]. by intros ->.
  - intros [?|(cid & c0 & Hin & Hc0 & Hps)]; [by left; left|].
    apply elem_of_cons in Hin as [->|Hin].
    + left. right. by simplify_eq.
    + right. exists cid, c0. split_and!; [done| |done].
      rewrite Ha; [done|]. by intros ->.
Qed.

(** X2. The flag a successful run returns is true exactly when some
    selected computation holds an instruction that the scan accepts; and
    when the flag is false the module is the input module and the schedule
    was not even queried. *)
Theorem Run_changed_iff_candidate m threads ch s' :
  wf_module m → RunOnModule self ext m threads = (Ok ch, s') →
  (ch = true ↔
   ∃ cid c i, cid ∈ MakeNonfusionComputations ext m threads ∧
              computations m !! cid = Some c ∧ i ∈ instructions c ∧
              is_supported_collective self i = true) ∧
  (ch = false → s' = mkState m []).
Proof.
  intros Hwf Hrun. pose proof Hrun as Hrun'.
  unfold RunOnModule, Run in Hrun'. cbn [st_module] in Hrun'.
  apply process_computations_changed in Hrun';
    [|apply NoDup_MakeNonfusionComputations|done].
  cbn [st_module] in Hrun'.
  assert (ch = true ↔
          ∃ cid c i, cid ∈ MakeNonfusionComputations ext m threads ∧
                     computations m !! cid = Some c ∧ i ∈ instructions c ∧
                     is_supported_collective self i = true) as Hiff.
  { rewrite Hrun'. split.
    - intros [?|(cid & c & Hin & Hc & Hps)]; [done|].
      apply has_candidate in Hps as (i & ? & ?). by exists cid, c, i.
    - intros (cid & c & i & Hin & Hc & Hi & Hs). right. exists cid, c.
      split_and!; [done..|]. apply has_candidate. eauto. }
  split; [done|]. intros ->.
  assert (RunOnModule self ext m threads = (Ok false, mkState m [])) as Hnoop.
  { unfold RunOnModule, Run. cbn [st_module].
    apply process_computations_noop, Forall_forall. intros cid Hcid. cbn.
    pose proof Hcid as Hcid'.
    apply elem_of_MakeNonfusionComputations in Hcid' as (c & Hc & _).
    exists c. split; [done|].
    destruct (decide (supported_collectives_of self c = [])) as [|Hps]; [done|].
    apply has_candidate in Hps as (i & ? & ?).
    assert (false = true) as Habs by (apply Hiff; by exists cid, c, i). done. }
  rewrite Hnoop in Hrun. by simplify_eq.
Qed.

(** ** The schedule is only touched where it exists *)

Lemma process_computation_unscheduled cid ch s o s' :
  sched_entry (st_module s) cid = None →
  process_computation self ext cid ch s = (o, s') →
  schedule (st_module s') = schedule (st_module s) ∧
  ∃ acc, st_accesses s' = st_accesses s ++ acc ∧
         Forall (λ a, touches_sequence a = false) acc ∧
         (schedule (st_module s) = None → Forall (λ a, is_has_schedule a = true) acc).
Proof.
  intros He. unfold process_computation, lookup_computation. rewrite bind_eq.
  destruct (computations (st_module s) !! cid) as [c|] eqn:Hc.
  2:{ intros ?; simplify_eq. split; [done|]. exists []. by rewrite app_nil_r. }
  destruct (supported_collectives_of self c) as [|p0 ps0].
  { unfold ret. intros ?; simplify_eq. split; [done|]. exists []. by rewrite app_nil_r. }
  rewrite bind_eq, schedule_query_eq, should_update_entry, He.
  rewrite bool_decide_eq_false_2 by (by intros [? ?]).
  rewrite bind_eq. unfold focus at 1. cbn [st_module st_accesses]. rewrite Hc.
  set (acc := match schedule (st_module s) with
              | Some _ => [AccHasSchedule cid; AccIsComputationScheduled cid]
              | None => [AccHasSchedule cid]
              end).
  assert (Forall (λ a, touches_sequence a = false) acc ∧
          (schedule (st_module s) = None → Forall (λ a, is_has_schedule a = true) acc))
    as [Hacc1 Hacc2].
  { subst acc. destruct (schedule (st_module s)).
    - split; [by repeat constructor|done].
    - split; intros; by repeat constructor. }
  destruct (convert_instructions _ _ _ _ _ _) as [[acc1| |] fs1]; cbn [fst snd].
  - rewrite !bind_eq. unfold ret. intros ?; simplify_eq. cbn. split; [done|]. by exists acc.
  - intros ?; simplify_eq. cbn. split; [done|]. by exists acc.
  - intros ?; simplify_eq. cbn. split; [done|]. by exists acc.
Qed.

Lemma process_computations_no_schedule cids :
  ∀ ch s o s',
  schedule (st_module s) = None →
  process_computations self ext cids ch s = (o, s') →
  schedule (st_module s') = None ∧
  ∃ acc, st_accesses s' = st_accesses s ++ acc ∧
         Forall (λ a, is_has_schedule a = true) acc.
Proof.
  induction cids as [|h cids IH]; intros ch s o s' Hs H.
  { cbn in H. unfold ret in H. simplify_eq. split; [done|]. exists [].
    by rewrite app_nil_r. }
  cbn [process_computations] in H. rewrite bind_eq in H.
  destruct (process_computation self ext h ch s) as [o1 s1] eqn:Hh.
  apply process_computation_unscheduled in Hh as (Hs1 & acc1 & Hacc1 & _ & Hall1).
  2:{ unfold sched_entry. by rewrite Hs. }
  rewrite Hs in Hs1. specialize (Hall1 Hs).
  destruct o1 as [ch1| |].
  - apply IH in H as (Hs2 & acc2 & Hacc2 & Hall2); [|done]. split; [done|].
    exists (acc1 ++ acc2). rewrite Hacc2, Hacc1, app_assoc. split; [done|].
    by apply Forall_app.
  - simplify_eq. split; [done|]. by exists acc1.
  - simplify_eq. split; [done|]. by exists acc1.
Qed.

(** X3. On a module without a schedule, the only call a run makes on the
    schedule is [has_schedule]: the schedule is never asked whether a
    computation is scheduled, no sequence is read or set, and the module
    still has no schedule afterwards, whatever the outcome. *)
Theorem Run_without_schedule_only_asks_has_schedule m threads o s' :
  schedule m = None →
  RunOnModule self ext m threads = (o, s') →
  schedule (st_module s') = None ∧
  Forall (λ a, is_has_schedule a = true) (st_accesses s').
Proof.
  intros Hs Hrun. unfold RunOnModule, Run in Hrun. cbn [st_module] in Hrun.
  apply process_computations_no_schedule in Hrun as (Hs' & acc & Hacc & Hall); [|done].
  cbn in Hacc. by rewrite Hacc.
Qed.

Lemma process_computations_unscheduled cids :
  ∀ ch s o s' cid,
  sched_entry (st_module s) cid = None →
  process_computations self ext cids ch s = (o, s') →
  sched_entry (st_module s') cid = None ∧
  ∃ acc, st_accesses s' = st_accesses s ++ acc ∧
         Forall (λ a, access_computation a = cid → touches_sequence a = false) acc.
Proof.
  induction cids as [|h cids IH]; intros ch s o s' cid He H.
  { cbn in H. unfold ret in H. simplify_eq. split; [done|]. exists [].
    by rewrite app_nil_r. }
  cbn [process_computations] in H. rewrite bind_eq in H.
  destruct (process_computation self ext h ch s) as [o1 s1] eqn:Hh.
  assert (sched_entry (st_module s1) cid = None ∧
          ∃ acc, st_accesses s1 = st_accesses s ++ acc ∧
                 Forall (λ a, access_computation a = cid → touches_sequence a = false) acc)
    as (He1 & acc1 & Hacc1 & Hall1).
  { destruct (decide (h = cid)) as [->|Hne].
    - apply process_computation_unscheduled in Hh as (Hs1 & acc & Hacc & Hall & _); [|done].
      split; [unfold sched_entry in *; by rewrite Hs1|].
      exists acc. split; [done|]. eapply Forall_impl; [done|]. by cbn.
    - apply process_computation_frame in Hh as (_ & Hb & _ & acc & Hacc & Hall).
      split; [by rewrite Hb|]. exists acc. split; [done|].
      eapply Forall_impl; [done|]. cbn. intros; congruence. }
  destruct o1 as [ch1| |].
  - eapply IH in H as (He2 & acc2 & Hacc2 & Hall2); [|done]. split; [done|].
    exists (acc1 ++ acc2). rewrite Hacc2, Hacc1, app_assoc. split; [done|].
    by apply Forall_app.
  - simplify_eq. split; [done|]. by exists acc1.
  - simplify_eq. split; [done|]. by exists acc1.
Qed.

(** X4. A computation that the schedule does not cover gets no sequence:
    whatever the run does to its instructions and whatever the outcome, its
    schedule entry stays absent and its sequence is neither read nor set. *)
Theorem Run_never_schedules_unscheduled_computation m threads o s' cid :
  sched_entry m cid = None →
  RunOnModule self ext m threads = (o, s') →
  sched_entry (st_module s') cid = None ∧
  Forall (λ a, access_computation a = cid → touches_sequence a = false) (st_accesses s').
Proof.
  intros He Hrun. unfold RunOnModule, Run in Hrun. cbn [st_module] in Hrun.
  eapply process_computations_unscheduled in Hrun as (He' & acc & Hacc & Hall); [|done].
  cbn in Hacc. by rewrite Hacc.
Qed.

(** ** The schedule patcher on any sequence *)

Lemma update_sequence_unreplaced (rp : gmap nat ReplacedAsync) sq :
  (∀ p, p ∈ sq → rp !! p = None) → update_sequence rp sq = sq.
Proof.
  induction sq as [|p sq IH]; intros Hno; [done|]. cbn [update_sequence].
  rewrite (Hno p) by (by left). f_equal. apply IH. intros q Hq. apply Hno. by right.
Qed.

(** X5. On any sequence, also one that repeats an instruction or misses a
    replaced one, the patcher adds exactly one slot for each slot that holds
    a replaced instruction; a sequence none of whose slots holds a replaced
    instruction is returned as it is, so a replacement whose original the
    sequence does not list is not scheduled at all. *)
Theorem update_sequence_expands_replaced_slots (rp : gmap nat ReplacedAsync) seq :
  length (update_sequence rp seq)
    = length seq + length (filter (λ p, is_Some (rp !! p)) seq) ∧
  ((∀ p, p ∈ seq → rp !! p = None) → update_sequence rp seq = seq).
Proof.
  split.
  - induction seq as [|p seq IH]; [done|]. cbn [update_sequence]. rewrite filter_cons.
    destruct (rp !! p) eqn:E.
    + rewrite decide_True by done. cbn. lia.
    + rewrite decide_False by (by intros [? ?]). cbn. lia.
  - apply update_sequence_unreplaced.
Qed.

(** X6. The entries of the patched sequence are exactly the entries of the
    old sequence that were not replaced, and the start and the done of each
    replaced entry: no replaced instruction is left in the sequence unless
    it is itself the start or done recorded for a replaced entry. *)
Theorem update_sequence_entries (rp : gmap nat ReplacedAsync) seq p :
  p ∈ update_sequence rp seq ↔
  (p ∈ seq ∧ rp !! p = None) ∨
  (∃ q it, q ∈ seq ∧ rp !! q = Some it ∧ (p = start it ∨ p = done it)).
Proof.
  induction seq as [|q seq IH].
  { cbn. split.
    - intros H. by apply elem_of_nil in H.
    - intros [[H _]|(? & ? & H & _)]; by apply elem_of_nil in H. }
  cbn [update_sequence]. destruct (rp !! q) as [it|] eqn:E.
  - split.
    + intros H. apply elem_of_cons in H as [->|H];
        [|apply elem_of_cons in H as [->|H]; [|apply IH in H]].
      * right. exists q, it. split_and!; [by left|done|by left].
      * right. exists q, it. split_and!; [by left|done|by right].
      * destruct H as [[? ?]|(q' & it' & ? & ? & ?)].
        -- left. split; [by right|done].
        -- right. exists q', it'. split_and!; [by right|done|done].
    + intros [[Hin Hp]|(q' & it' & Hin & Hq' & Hp)].
      * apply elem_of_cons in Hin as [->|Hin]; [congruence|].
        do 2 right. apply IH. by left.
      * apply elem_of_cons in Hin as [->|Hin].
        -- simplify_eq. destruct Hp as [-> | ->]; [by left|right; by left].
        -- do 2 right. apply IH. right. by exists q', it'.
  - split.
    + intros H. apply elem_of_cons in H as [->|H]; [|apply IH in H].
      * left. split; [by left|done].
      * destruct H as [[? ?]|(q' & it' & ? & ? & ?)].
        -- left. split; [by right|done].
        -- right. exists q', it'. split_and!; [by right|done|done].
    + intros [[Hin Hp]|(q' & it' & Hin & Hq' & Hp)].
      * apply elem_of_cons in Hin as [->|Hin]; [by left|]. right. apply IH. by left.
      * apply elem_of_cons in Hin as [->|Hin]; [congruence|].
        right. apply IH. right. by exists q', it'.
Qed.

(** ** Failures *)

Lemma fw_ret {S A} (P : Status → Prop) (a : A) : fails_with (S := S) P (ret a).
Proof. by intros s e s' H. Qed.

Lemma fw_abort {S A} (P : Status → Prop) f : fails_with (S := S) (A := A) P (abort f).
Proof. by intros s e s' H. Qed.

Lemma fw_fail {S A} (P : Status → Prop) e : P e → fails_with (S := S) (A := A) P (fail e).
Proof. intros HP s e0 s' H. unfold fail in H. by simplify_eq. Qed.

Lemma fw_bind {S A B} (P : Status → Prop) (x : M S A) (k : A → M S B) :
  fails_with P x → (∀ a, fails_with P (k a)) → fails_with P (bind x k).
Proof.
  intros Hx Hk s e s'. rewrite bind_eq.
  destruct (x s) as [[a| |] s1] eqn:E; intros H.
  - by eapply Hk.
  - simplify_eq. by eapply Hx.
  - done.
Qed.

Lemma fw_mono {S A} (P Q : Status → Prop) (f : M S A) :
  (∀ e, P e → Q e) → fails_with P f → fails_with Q f.
Proof. intros HPQ Hf s e s' H. eapply HPQ, Hf, H. Qed.

Lemma fw_fresh_id P : fails_with P fresh_id.
Proof. by intros s e s' H. Qed.

Lemma fw_deref P p : fails_with P (deref p).
Proof.
  intros [c n] e s'. unfold deref. rewrite bind_eq. cbn.
  by destruct (find_instruction c p).
Qed.

Lemma fw_mutate P p f : fails_with P (mutate p f).
Proof.
  unfold mutate. apply fw_bind; [apply fw_deref|]. intros _.
  apply fw_bind; [by intros ? ? ? ?|]. by intros ? ? ? ? ?.
Qed.

Lemma fw_mutable_operand P i k : fails_with P (mutable_operand i k).
Proof. unfold mutable_operand. destruct (operands i !! k); [apply fw_ret|apply fw_abort]. Qed.

Lemma fw_operand_shapes_of P ops : fails_with P (operand_shapes_of ops).
Proof.
  induction ops as [|p ops IH]; [apply fw_ret|]. cbn.
  apply fw_bind; [apply fw_deref|]. intros op.
  apply fw_bind; [done|]. intros ?. apply fw_ret.
Qed.

Lemma fw_AddInstruction P i : fails_with P (AddInstruction i).
Proof. by intros ? ? ? ?. Qed.

Lemma fw_ReplaceInstruction old new :
  fails_with (λ e, ∃ c, ReplaceInstruction_failure ext c old new = Some e)
    (ReplaceInstruction ext old new).
Proof.
  unfold ReplaceInstruction. apply fw_bind; [by intros ? ? ? ?|]. intros c.
  destruct (ReplaceInstruction_failure _ _ _ _) eqn:E; [apply fw_fail; eauto|].
  apply fw_bind; [apply fw_deref|]. intros _.
  apply fw_bind; [apply fw_deref|]. by intros ? ? ? ? ?.
Qed.

Lemma fw_with_context {S A} (P : Status → Prop) (f : M S A) ctx :
  fails_with P f →
  fails_with (λ e', ∃ e, P e ∧ e' = mkStatus (error_message e) (error_context e ++ [ctx]))
    (with_context f ctx).
Proof.
  intros Hf s e' s'. unfold with_context.
  destruct (f s) as [[a| |] s1] eqn:E; intros H; simplify_eq.
  eexists. split; [by eapply Hf|done].
Qed.

Lemma fw_replace_with_context old new_instr (x : HloInstruction) :
  unique_id x = old → opcode x = kAllReduce ∨ opcode x = kAllGather →
  fails_with returned_failure
    (with_context (ReplaceWithNewInstruction ext old new_instr)
                  ("replacing " ++ ToShortString ext x)).
Proof.
  intros Hid Hop. eapply fw_mono; [|apply fw_with_context].
  2:{ unfold ReplaceWithNewInstruction. apply fw_bind; [apply fw_AddInstruction|].
      intros new. apply (fw_mono (λ e, ∃ c d, ReplaceInstruction_failure ext c old d = Some e)).
      - intros e H. exact H.
      - eapply fw_mono; [|apply fw_ReplaceInstruction]. cbn. intros e [c ?]. eauto. }
  cbn. intros e' (e & (c & d & He) & ->). right. exists c, x, d, e. by rewrite Hid.
Qed.

Lemma fw_plain_ReplaceInstruction old new :
  fails_with returned_failure (ReplaceInstruction ext old new).
Proof.
  eapply fw_mono; [|apply fw_ReplaceInstruction]. cbn. intros e [c ?].
  left. left. eauto.
Qed.

Lemma fw_AddControlDependencyTo from to :
  fails_with reported_by_collaborator (AddControlDependencyTo ext from to).
Proof.
  unfold AddControlDependencyTo. apply fw_bind; [by intros ? ? ? ?|]. intros c.
  destruct (AddControlDependencyTo_failure _ _ _ _) eqn:E.
  - apply fw_fail. right. left. eauto.
  - apply fw_bind; [apply fw_mutate|]. intros _. apply fw_mutate.
Qed.

Lemma fw_collective_permute_start P cp : fails_with P (collective_permute_start ext cp).
Proof.
  unfold collective_permute_start.
  apply fw_bind; [apply fw_mutable_operand|]. intros operand.
  destruct (bool_decide (operand_count cp = 1)).
  - apply fw_bind; [apply fw_deref|]. intros ?.
    apply fw_bind; [|intros; apply fw_AddInstruction].
    apply fw_bind; [apply fw_fresh_id|]. intros ?. apply fw_ret.
  - apply fw_bind.
    { unfold CHECK_EQ_operand_count. destruct (decide _); [apply fw_ret|apply fw_abort]. }
    intros _. apply fw_bind; [apply fw_operand_shapes_of|]. intros shs.
    apply fw_bind.
    { destruct (InferCollectivePermuteStartShape ext shs); [apply fw_ret|apply fw_abort]. }
    intros sh. do 3 (apply fw_bind; [apply fw_mutable_operand|]; intros ?).
    apply fw_bind; [apply fw_bind; [apply fw_fresh_id|]; intros ?; apply fw_ret|].
    intros ?. apply fw_bind; [apply fw_AddInstruction|]. intros ?.
    apply fw_bind; [|intros; apply fw_ret].
    destruct (HasDisjointReadWriteRegionsAttr cp); [apply fw_mutate|apply fw_ret].
Qed.

Lemma fw_collective_permute_done cp st :
  fails_with reported_by_collaborator (collective_permute_done self ext cp st).
Proof.
  unfold collective_permute_done. destruct (negb _).
  - apply fw_bind; [|intros; apply fw_AddInstruction].
    apply fw_bind; [apply fw_fresh_id|]. intros ?. apply fw_ret.
  - apply fw_bind; [apply fw_bind; [apply fw_fresh_id|]; intros ?; apply fw_ret|].
    intros ?. apply fw_bind; [apply fw_AddInstruction|]. intros ?.
    apply fw_bind; [apply fw_bind; [apply fw_fresh_id|]; intros ?; apply fw_ret|].
    intros ?. apply fw_bind; [apply fw_AddInstruction|]. intros ?.
    apply fw_bind; [apply fw_AddControlDependencyTo|]. intros _.
    apply fw_bind; [apply fw_mutate|]. intros _.
    apply fw_bind; [apply fw_mutate|]. intros _. apply fw_ret.
Qed.

Lemma fw_convert_collective_permute should cp rp :
  fails_with reported_by_collaborator (convert_collective_permute self ext should cp rp).
Proof.
  unfold convert_collective_permute.
  apply fw_bind; [apply fw_collective_permute_start|]. intros st.
  apply fw_bind; [apply fw_mutate|]. intros _.
  apply fw_bind; [apply fw_mutate|]. intros _.
  apply fw_bind; [apply fw_collective_permute_done|]. intros d.
  apply fw_bind; [|intros; apply fw_ret].
  eapply fw_mono; [|apply fw_ReplaceInstruction]. cbn. intros e [c ?]. left. eauto.
Qed.

Lemma fw_convert_all_to_all should ata rp :
  fails_with reported_by_collaborator (convert_all_to_all ext should ata rp).
Proof.
  unfold convert_all_to_all.
  apply fw_bind.
  { unfold CreateAsyncInstructions. apply fw_bind; [by intros ? ? ? ?|]. intros c.
    destruct (CreateAsyncInstructions_failure _ _ _) eqn:E.
    { apply fw_fail. right. right. eauto. }
    apply fw_bind; [apply fw_operand_shapes_of|]. intros ?.
    apply fw_bind; [apply fw_fresh_id|]. intros ?.
    apply fw_bind; [apply fw_AddInstruction|]. intros ?.
    apply fw_bind; [apply fw_fresh_id|]. intros ?.
    apply fw_bind; [apply fw_AddInstruction|]. intros ?.
    apply fw_bind; [apply fw_mutate|]. intros _.
    apply fw_bind; [apply fw_mutate|]. intros _.
    apply fw_bind; [|intros; apply fw_ret].
    eapply fw_mono; [|apply fw_ReplaceInstruction]. cbn. intros e [c0 ?]. left. eauto. }
  intros d. destruct should; [|apply fw_ret].
  apply fw_bind; [apply fw_deref|]. intros ?.
  apply fw_bind; [apply fw_mutable_operand|]. intros ?. apply fw_ret.
Qed.

Lemma fw_convert_all_reduce should ar rp :
  opcode ar = kAllReduce →
  fails_with returned_failure (convert_all_reduce ext should ar rp).
Proof.
  intros Hop. unfold convert_all_reduce.
  apply fw_bind; [apply fw_bind; [apply fw_fresh_id|]; intros ?; apply fw_ret|]. intros ?.
  apply fw_bind; [apply fw_AddInstruction|]. intros ?.
  apply fw_bind; [apply fw_bind; [apply fw_fresh_id|]; intros ?; apply fw_ret|]. intros ?.
  apply fw_bind; [apply fw_mutate|]. intros _.
  apply fw_bind; [apply fw_mutate|]. intros _.
  apply fw_bind; [|intros; apply fw_ret].
  apply fw_replace_with_context; auto.
Qed.

Lemma fw_convert_all_gather should ag rp :
  opcode ag = kAllGather →
  fails_with returned_failure (convert_all_gather ext should ag rp).
Proof.
  intros Hop. unfold convert_all_gather.
  apply fw_bind; [apply fw_operand_shapes_of|]. intros shs.
  apply fw_bind.
  { destruct (bool_decide _); [apply fw_ret|].
    destruct (shs !! 0); [apply fw_ret|apply fw_abort]. }
  intros ?.
  apply fw_bind; [apply fw_bind; [apply fw_fresh_id|]; intros ?; apply fw_ret|]. intros ?.
  apply fw_bind; [apply fw_AddInstruction|]. intros ?.
  apply fw_bind; [apply fw_bind; [apply fw_fresh_id|]; intros ?; apply fw_ret|]. intros ?.
  apply fw_bind; [apply fw_mutate|]. intros _.
  apply fw_bind; [apply fw_mutate|]. intros _.
  apply fw_bind; [|intros; apply fw_ret].
  apply fw_replace_with_context; auto.
Qed.

Lemma fw_convert_instruction should p acc :
  fails_with returned_failure (convert_instruction self ext should p acc).
Proof.
  unfold convert_instruction. apply fw_bind; [apply fw_deref|]. intros x.
  destruct (opcode x) eqn:Hop; try apply fw_ret.
  - apply fw_bind; [by apply fw_convert_all_reduce|]. intros ?. apply fw_ret.
  - apply fw_bind; [by apply fw_convert_all_gather|]. intros ?. apply fw_ret.
  - apply fw_bind; [|intros; apply fw_ret].
    eapply fw_mono; [|apply fw_convert_collective_permute]. intros e ?. by left.
  - apply fw_bind; [|intros; apply fw_ret].
    eapply fw_mono; [|apply fw_convert_all_to_all]. intros e ?. by left.
Qed.

Lemma fw_convert_instructions should ps :
  ∀ acc, fails_with returned_failure (convert_instructions self ext should ps acc).
Proof.
  induction ps as [|p ps IH]; intros acc; [apply fw_ret|]. cbn.
  apply fw_bind; [apply fw_convert_instruction|]. intros acc'. apply IH.
Qed.

Lemma fw_focus {A} P cid (f : M Focus A) : fails_with P f → fails_with P (focus cid f).
Proof.
  intros Hf s e s'. unfold focus.
  destruct (computations (st_module s) !! cid) as [c|]; [|done].
  destruct (f _) as [o fs1] eqn:E. cbn. intros ?; simplify_eq. by eapply Hf.
Qed.

Lemma fw_process_computation cid ch :
  fails_with returned_failure (process_computation self ext cid ch).
Proof.
  unfold process_computation. apply fw_bind.
  { intros s e s'. unfold lookup_computation. by destruct (_ !! _). }
  intros c. destruct (supported_collectives_of self c) as [|p0 ps0]; [apply fw_ret|].
  apply fw_bind.
  { intros s e s'. rewrite schedule_query_eq. done. }
  intros should. apply fw_bind; [apply fw_focus, fw_convert_instructions|]. intros acc.
  apply fw_bind; [|intros; apply fw_ret].
  destruct should; [|apply fw_ret].
  apply fw_bind.
  { intros s e s'. unfold sequence, log_access. rewrite bind_eq. cbn.
    destruct (schedule _) as [sched|]; [|done]. by destruct (sched !! cid). }
  intros seq s e s'. unfold set_sequence, log_access. rewrite bind_eq. cbn.
  by destruct (schedule _).
Qed.

(** X7. A run raises no failure of its own: every failure status it
    returns was reported by a collaborator (the replace-instruction
    primitive, the control-dependency primitive or the async constructor),
    and it is returned as reported, except that a failed replacement of an
    all-reduce or of an all-gather comes back with the context
    [replacing <instruction>] attached. *)
Theorem Run_returns_only_reported_failures m threads e s' :
  RunOnModule self ext m threads = (Failed e, s') → returned_failure e.
Proof.
  unfold RunOnModule, Run. cbn [st_module].
  generalize (MakeNonfusionComputations ext m threads) false (mkState m []).
  intros cids. induction cids as [|cid cids IH]; intros ch s; [done|].
  cbn [process_computations]. rewrite bind_eq.
  destruct (process_computation self ext cid ch s) as [[ch1| |] s1] eqn:E.
  - apply IH.
  - intros ?; simplify_eq. by eapply fw_process_computation.
  - done.
Qed.

(** X8. A failure while a collective-permute or an all-to-all is rewritten
    is returned exactly as the collaborator reported it, with no context
    attached. *)
Theorem permute_and_all_to_all_failures_have_no_context should p acc fs x e fs' :
  find_instruction (computation fs) p = Some x →
  opcode x = kCollectivePermute ∨ opcode x = kAllToAll →
  convert_instruction self ext should p acc fs = (Failed e, fs') →
  reported_by_collaborator e.
Proof.
  intros Hx Hop. unfold convert_instruction, deref. rewrite !bind_eq.
  cbn [get_computation]. rewrite Hx. cbn [ret].
  destruct Hop as [Hop|Hop]; rewrite Hop; rewrite bind_eq.
  - destruct (convert_collective_permute _ _ _ _ _ _) as [[rp| |] fs1] eqn:E;
      intros ?; simplify_eq. by eapply fw_convert_collective_permute.
  - destruct (convert_all_to_all _ _ _ _ _) as [[rp| |] fs1] eqn:E;
      intros ?; simplify_eq. by eapply fw_convert_all_to_all.
Qed.

(** ** The start instructions, branch by branch *)

Lemma operand_shapes_of_Ok ops c l n shs :
  (operand_shapes_of ops (mkFocus (with_instructions c l) n)).1 = Ok shs →
  Forall2 (λ o sh, ∃ op, find_list l o = Some op ∧ shape op = sh) ops shs.
Proof.
  revert shs. induction ops as [|p ops IH]; intros shs.
  { cbn. intros ?; simplify_eq. constructor. }
  cbn [operand_shapes_of]. rewrite bind_eq, deref_eq.
  destruct (find_list l p) as [op|] eqn:Hp; [|done].
  rewrite bind_eq, operand_shapes_of_eq.
  destruct (operand_shapes_of ops _).1 as [shs0| |] eqn:E; [|done..].
  cbn. intros ?; simplify_eq. constructor; [eauto|]. by apply IH.
Qed.

Lemma convert_all_gather_eq should ag rp c l n shs :
  ids_below n l →
  (operand_shapes_of (operands ag) (mkFocus (with_instructions c l) n)).1 = Ok shs →
  convert_all_gather ext should ag rp (mkFocus (with_instructions c l) n) =
  match all_gather_input_shape ag shs with
  | None => (Aborted (OperandIndexOutOfRange 0), mkFocus (with_instructions c l) n)
  | Some input =>
      let l2 := l ++ [all_gather_start n (ShapeUtil.MakeTupleShape [input; shape ag]) ag;
                      new_instruction (S n) kAllGatherDone (shape ag) [n]] in
      match ReplaceInstruction ext (unique_id ag) (S n)
              (mkFocus (with_instructions c l2) (S (S n))) with
      | (Ok _, s') => (Ok (record_pair should ag n (S n) rp), s')
      | (Failed e, s') => (Failed (replacing_context e ag), s')
      | (Aborted f, s') => (Aborted f, s')
      end
  end.
Proof.
  intros Hb Hshs. unfold convert_all_gather, all_gather_input_shape.
  rewrite bind_eq, operand_shapes_of_eq, Hshs. rewrite bind_eq.
  destruct (bool_decide (1 < operand_count ag)).
  2:{ destruct (shs !! 0) as [sh|]; [|done]. cbn [ret].
      unfold CreateAllGatherStart, CreateUnary.
      repeat (rewrite bind_eq; cbn [fresh_id ret computation next_id]).
      rewrite AddInstruction_eq.
      repeat (rewrite bind_eq; cbn [fresh_id ret computation next_id]).
      unfold set_metadata, CopyBackendConfigFrom.
      rewrite mutate_eq.
      rewrite (find_list_new n), (update_list_new n) by (done || lia). simpl. bd.
      rewrite bind_eq. rewrite mutate_eq.
      rewrite (find_list_new n), (update_list_new n) by (done || lia). simpl. bd.
      rewrite bind_eq. unfold with_context, ReplaceWithNewInstruction.
      rewrite bind_eq, AddInstruction_eq. rewrite <- app_assoc. simpl.
      unfold all_gather_start, new_instruction.
      destruct (ReplaceInstruction _ _ _ _) as [[?|?|?] ?]; done. }
  cbn [ret].
  unfold CreateAllGatherStart, CreateUnary.
  repeat (rewrite bind_eq; cbn [fresh_id ret computation next_id]).
  rewrite AddInstruction_eq.
  repeat (rewrite bind_eq; cbn [fresh_id ret computation next_id]).
  unfold set_metadata, CopyBackendConfigFrom.
  rewrite mutate_eq.
  rewrite (find_list_new n), (update_list_new n) by (done || lia). simpl. bd.
  rewrite bind_eq. rewrite mutate_eq.
  rewrite (find_list_new n), (update_list_new n) by (done || lia). simpl. bd.
  rewrite bind_eq. unfold with_context, ReplaceWithNewInstruction.
  rewrite bind_eq, AddInstruction_eq. rewrite <- app_assoc. simpl.
  unfold all_gather_start, new_instruction.
  destruct (ReplaceInstruction _ _ _ _) as [[?|?|?] ?]; done.
Qed.

(** X9. When the replacement of an all-reduce or of an all-gather fails,
    the failure comes back with the context [replacing <instruction>], and
    nothing is rolled back: the computation still holds everything it held,
    the original included, followed by the start that was created, which
    already carries the metadata and the backend configuration of the
    original. *)
Theorem failed_replacement_leaves_the_start should p rp ch c n x e' fs' :
  ids_below n (instructions c) → find_instruction c p = Some x →
  opcode x = kAllReduce ∨ opcode x = kAllGather →
  convert_instruction self ext should p (rp, ch) (mkFocus c n) = (Failed e', fs') →
  ∃ e c0 d st rest,
    ReplaceInstruction_failure ext c0 p d = Some e ∧
    e' = replacing_context e x ∧
    instructions (computation fs') = instructions c ++ st :: rest ∧
    unique_id st = n ∧ opcode st = start_opcode (opcode x) ∧
    operands st = operands x ∧
    metadata st = metadata x ∧ backend_config st = backend_config x.
Proof.
  intros Hb Hx Hop Hrun. rewrite <- (with_instructions_id c) in Hrun.
  unfold find_instruction in Hx. fold (find_list (instructions c) p) in Hx.
  pose proof (find_list_Some _ _ _ Hx) as [_ Hid].
  unfold convert_instruction in Hrun. rewrite bind_eq, deref_eq, Hx in Hrun.
  cbn [fst] in Hrun.
  destruct Hop as [Hop|Hop]; rewrite Hop in *.
  - rewrite bind_eq, convert_all_reduce_eq in Hrun by done. cbn zeta in Hrun.
    rewrite ReplaceInstruction_eq, Hid in Hrun.
    destruct (ReplaceInstruction_failure _ _ _ _) as [e|] eqn:He.
    + simplify_eq. eexists e, _, _, _, _. cbn. split_and!; done.
    + destruct (find_list (_ ++ _) p); [destruct (find_list (_ ++ _) (S n))|]; done.
  - rewrite bind_eq in Hrun.
    destruct (operand_shapes_of (operands x)
                (mkFocus (with_instructions c (instructions c)) n)).1
      as [shs| |] eqn:Hshs.
    + rewrite (convert_all_gather_eq _ _ _ _ _ _ shs) in Hrun by done.
      destruct (all_gather_input_shape x shs); [|done]. cbn zeta in Hrun.
      rewrite ReplaceInstruction_eq, Hid in Hrun.
      destruct (ReplaceInstruction_failure _ _ _ _) as [e|] eqn:He.
      * simplify_eq. eexists e, _, _, _, _. cbn. split_and!; done.
      * destruct (find_list (_ ++ _) p); [destruct (find_list (_ ++ _) (S n))|]; done.
    + by apply operand_shapes_of_not_Failed in Hshs.
    + unfold convert_all_gather in Hrun.
      rewrite bind_eq, operand_shapes_of_eq, Hshs in Hrun. done.
Qed.

Lemma find_done_after_replace l news p n s d rest :
  ids_below n l → p < n → news = s :: d :: rest → unique_id s = n → unique_id d = S n →
  find_list (replace_list p (S n) (l ++ news)) (S n) = Some (replace_uses p (S n) d).
Proof.
  intros Hb Hp -> Hs Hd. unfold replace_list. rewrite find_list_replace by lia.
  rewrite (find_list_new n) by (done || lia). cbn. rewrite Hs, Hd.
  rewrite bool_decide_eq_false_2 by lia. by rewrite bool_decide_eq_true_2.
Qed.

(** X10. The start created for an all-reduce has the shape and the
    operands of the original and carries its reduction computation, replica
    groups, layout constraint, channel id and global-device-ids flag; the
    done that replaces the original has the original's shape and reads the
    start; the original is gone. *)
Theorem all_reduce_start_keeps_attributes should ar rp c n rp' fs' :
  ids_below n (instructions c) → find_instruction c (unique_id ar) = Some ar →
  convert_all_reduce ext should ar rp (mkFocus c n) = (Ok rp', fs') →
  ∃ st dn,
    find_instruction (computation fs') n = Some st ∧
    find_instruction (computation fs') (S n) = Some dn ∧
    opcode st = kAllReduceStart ∧ shape st = shape ar ∧
    operands st = rewired (unique_id ar) (S n) (operands ar) ∧
    to_apply st = to_apply ar ∧ replica_groups st = replica_groups ar ∧
    constrain_layout st = constrain_layout ar ∧ channel_id st = channel_id ar ∧
    use_global_device_ids st = use_global_device_ids ar ∧
    opcode dn = kAllReduceDone ∧ shape dn = shape ar ∧ operands dn = [n] ∧
    find_instruction (computation fs') (unique_id ar) = None ∧
    rp' = record_pair should ar n (S n) rp.
Proof.
  intros Hb Hx Hrun. rewrite <- (with_instructions_id c) in Hrun.
  pose proof (find_list_lt _ _ _ _ Hb Hx) as Hlt.
  rewrite convert_all_reduce_eq in Hrun by done. cbn zeta in Hrun.
  destruct (ReplaceInstruction _ _ _ _) as [[[]| |] fs1] eqn:Hr; [|done..]. simplify_eq.
  apply ReplaceInstruction_Ok in Hr as (-> & _).
  rewrite replace_in_computation_eq. cbn [computation].
  unfold find_instruction. cbn [instructions with_instructions].
  set (news := [all_reduce_start n ar; _]).
  fold (find_list (replace_list (unique_id ar) (S n) (instructions c ++ news)) n).
  fold (find_list (replace_list (unique_id ar) (S n) (instructions c ++ news)) (S n)).
  fold (find_list (replace_list (unique_id ar) (S n) (instructions c ++ news))
          (unique_id ar)).
  rewrite find_list_replaced_gone.
  erewrite find_start_after_replace by done.
  erewrite find_done_after_replace by done.
  eexists _, _. split_and!; try done.
  cbn. by rewrite bool_decide_eq_false_2 by lia.
Qed.

(** X11. The start created for an all-gather has as shape the pair of the
    input shape and the result shape of the original, where the input shape
    is the shape of the operand when there is one operand and the tuple of
    the operand shapes when there are more; it has the operands of the
    original and carries its all-gather dimension, replica groups, layout
    constraint, channel id and global-device-ids flag. The done has the
    original's shape and reads the start; the original is gone. *)
Theorem all_gather_start_shape_and_attributes should ag rp c n rp' fs' :
  ids_below n (instructions c) → find_instruction c (unique_id ag) = Some ag →
  convert_all_gather ext should ag rp (mkFocus c n) = (Ok rp', fs') →
  ∃ shs input st dn,
    shapes_of c (operands ag) shs ∧
    (if bool_decide (1 < operand_count ag)
     then input = ShapeUtil.MakeTupleShapeWithPtrs shs else shs = [input]) ∧
    find_instruction (computation fs') n = Some st ∧
    find_instruction (computation fs') (S n) = Some dn ∧
    opcode st = kAllGatherStart ∧
    shape st = ShapeUtil.MakeTupleShape [input; shape ag] ∧
    operands st = rewired (unique_id ag) (S n) (operands ag) ∧
    all_gather_dimension st = all_gather_dimension ag ∧
    replica_groups st = replica_groups ag ∧
    constrain_layout st = constrain_layout ag ∧ channel_id st = channel_id ag ∧
    use_global_device_ids st = use_global_device_ids ag ∧
    opcode dn = kAllGatherDone ∧ shape dn = shape ag ∧ operands dn = [n] ∧
    find_instruction (computation fs') (unique_id ag) = None ∧
    rp' = record_pair should ag n (S n) rp.
Proof.
  intros Hb Hx Hrun. rewrite <- (with_instructions_id c) in Hrun.
  pose proof (find_list_lt _ _ _ _ Hb Hx) as Hlt.
  destruct (operand_shapes_of (operands ag)
              (mkFocus (with_instructions c (instructions c)) n)).1
    as [shs| |] eqn:Hshs.
  2:{ by apply operand_shapes_of_not_Failed in Hshs. }
  2:{ unfold convert_all_gather in Hrun.
      rewrite bind_eq, operand_shapes_of_eq, Hshs in Hrun. done. }
  rewrite (convert_all_gather_eq _ _ _ _ _ _ shs) in Hrun by done.
  apply operand_shapes_of_Ok in Hshs.
  destruct (all_gather_input_shape ag shs) as [input|] eqn:Hin; [|done].
  cbn zeta in Hrun.
  destruct (ReplaceInstruction _ _ _ _) as [[[]| |] fs1] eqn:Hr; [|done..]. simplify_eq.
  apply ReplaceInstruction_Ok in Hr as (-> & _).
  rewrite replace_in_computation_eq. cbn [computation].
  unfold find_instruction. cbn [instructions with_instructions].
  set (news := [all_gather_start n _ ag; _]).
  fold (find_list (replace_list (unique_id ag) (S n) (instructions c ++ news)) n).
  fold (find_list (replace_list (unique_id ag) (S n) (instructions c ++ news)) (S n)).
  fold (find_list (replace_list (unique_id ag) (S n) (instructions c ++ news))
          (unique_id ag)).
  rewrite find_list_replaced_gone.
  erewrite find_start_after_replace by done.
  erewrite find_done_after_replace by done.
  exists shs, input. eexists _, _. split_and!; try done.
  - unfold all_gather_input_shape in Hin.
    destruct (bool_decide (1 < operand_count ag)) eqn:Hc; [by simplify_eq|].
    apply bool_decide_eq_false in Hc. apply Forall2_length in Hshs.
    unfold operand_count in Hc.
    destruct shs as [|sh [|]]; cbn in *; simplify_eq; [done|lia].
  - cbn. by rewrite bool_decide_eq_false_2 by lia.
Qed.

(** X12. The start created for a collective-permute carries the
    source-target pairs and the channel id of the original. With one
    operand its shape is the tuple of the operand shape, the result shape
    and two scalar u32 shapes, and it reads that operand. With four
    operands its shape is what shape inference returns for the four operand
    shapes, it reads the four operands and carries the dynamic slice sizes
    of the original. *)
Theorem collective_permute_start_shape_and_operands should cp rp c n rp' fs' :
  ids_below n (instructions c) → find_instruction c (unique_id cp) = Some cp →
  convert_collective_permute self ext should cp rp (mkFocus c n) = (Ok rp', fs') →
  ∃ st,
    find_instruction (computation fs') n = Some st ∧
    opcode st = kCollectivePermuteStart ∧
    source_target_pairs st = source_target_pairs cp ∧ channel_id st = channel_id cp ∧
    operands st = rewired (unique_id cp) (S n) (operands cp) ∧
    (operand_count cp = 1 →
       ∃ o op, operands cp = [o] ∧ find_instruction c o = Some op ∧
         shape st = ShapeUtil.MakeTupleShape
                      [shape op; shape cp;
                       ShapeUtil.MakeShape U32 [] []; ShapeUtil.MakeShape U32 [] []] ∧
         dynamic_slice_sizes_list st = []) ∧
    (operand_count cp ≠ 1 →
       operand_count cp = 4 ∧
       ∃ shs, shapes_of c (operands cp) shs ∧
         InferCollectivePermuteStartShape ext shs = OkValue (shape st) ∧
         dynamic_slice_sizes_list st = dynamic_slice_sizes_list cp).
Proof.
  intros Hb Hx Hrun. rewrite <- (with_instructions_id c) in Hrun.
  pose proof (find_list_lt _ _ _ _ Hb Hx) as Hlt.
  apply convert_collective_permute_Ok in Hrun as (s0 & tail & Hs & Hid & _ & Hr & _);
    [|done].
  apply ReplaceInstruction_Ok in Hr as (-> & _).
  rewrite replace_in_computation_eq. cbn [computation].
  unfold find_instruction. cbn [instructions with_instructions].
  fold (find_list (replace_list (unique_id cp) (S n)
          (instructions c ++ with_backend_config (backend_config cp)
                               (with_metadata (metadata cp) s0) :: tail)) n).
  erewrite find_start_after_replace; [|done|done|done|done].
  destruct (decide (operand_count cp = 1)) as [H1|H1].
  - unfold operand_count in H1. destruct (operands cp) as [|o [|]] eqn:Hops; try done.
    rewrite (collective_permute_start_single _ o) in Hs by done.
    destruct (find_list (instructions c) o) as [oi|] eqn:Ho; [|done].
    assert (s0 = cp_start_single n (shape oi) cp) as -> by (simplify_eq; by simplify_list_eq).
    eexists. split; [done|]. cbn. rewrite Hops. cbn. split_and!; try done.
    + intros _. exists o, oi. by split_and!.
    + intros Hn. exfalso. apply Hn. unfold operand_count. by rewrite Hops.
  - destruct (decide (operand_count cp = 4)) as [H4|H4].
    2:{ destruct (decide (operand_count cp = 0)) as [H0|H0].
        - rewrite collective_permute_start_no_operand in Hs; [done|].
          unfold operand_count in H0. by destruct (operands cp).
        - by rewrite collective_permute_start_check in Hs. }
    rewrite collective_permute_start_multi in Hs by done.
    destruct (operand_shapes_of _ _).1 as [shs| |] eqn:Hshs; [|done..].
    apply operand_shapes_of_Ok in Hshs.
    destruct (InferCollectivePermuteStartShape ext shs) as [sh|] eqn:Hinf; [|done].
    assert (s0 = cp_start_multi n sh cp) as -> by (simplify_eq; by simplify_list_eq).
    eexists. split; [done|]. cbn. split_and!; try done.
    intros _. split; [done|]. by exists shs.
Qed.

(** ** The effect of the loop over the candidates, in closed form *)

Lemma rewire_replace_uses σ p d i :
  σ !! d = None → rewire σ (replace_uses p d i) = rewire (<[p := d]> σ) i.
Proof.
  intros Hd. unfold rewire, replace_uses, with_operands. cbn. f_equal.
  rewrite map_map. apply map_ext. intros o.
  destruct (decide (o = p)) as [->|Hne].
  - rewrite bool_decide_eq_true_2 by done. by rewrite Hd, lookup_insert_eq.
  - rewrite bool_decide_eq_false_2 by done. by rewrite lookup_insert_ne.
Qed.

Lemma rewire_empty i : rewire ∅ i = i.
Proof.
  unfold rewire, with_operands. destruct i. cbn. f_equal.
  rewrite <- (map_id operands0) at 2. apply map_ext. intros o. by rewrite lookup_empty.
Qed.

Lemma filter_ids_map (f : HloInstruction → HloInstruction) (P : nat → Prop)
    `{∀ q, Decision (P q)} (l : list HloInstruction) :
  (∀ i, unique_id (f i) = unique_id i) →
  filter (λ i, P (unique_id i)) (f <$> l) = f <$> filter (λ i, P (unique_id i)) l.
Proof.
  intros Hf. induction l as [|a l IH]; [done|].
  rewrite fmap_cons, !filter_cons, Hf, IH. by destruct (decide (P (unique_id a))).
Qed.

Lemma ids_filter (P : nat → Prop) `{∀ q, Decision (P q)} (l : list HloInstruction) :
  unique_id <$> filter (λ i, P (unique_id i)) l = filter P (unique_id <$> l).
Proof.
  induction l as [|a l IH]; [done|].
  rewrite fmap_cons, !filter_cons. destruct (decide (P (unique_id a))); cbn; by rewrite IH.
Qed.

Lemma ids_rewire σ (l : list HloInstruction) :
  unique_id <$> (rewire σ <$> l) = unique_id <$> l.
Proof. rewrite <- list_fmap_compose. by apply list_fmap_ext. Qed.

Lemma ids_replace_uses p d (l : list HloInstruction) :
  unique_id <$> (replace_uses p d <$> l) = unique_id <$> l.
Proof. rewrite <- list_fmap_compose. by apply list_fmap_ext. Qed.

Lemma dones_of_outside ps starts q : q ∉ ps → dones_of ps starts !! q = None.
Proof.
  intros Hq. unfold dones_of. apply not_elem_of_list_to_map_1.
  intros Hin. apply Hq. apply list_elem_of_fmap in Hin as ([q' d] & -> & Hin).
  by apply elem_of_zip_l in Hin.
Qed.

Lemma pairs_of_outside ps starts q : q ∉ ps → pairs_of ps starts !! q = None.
Proof.
  intros Hq. unfold pairs_of. apply not_elem_of_list_to_map_1.
  intros Hin. apply Hq. apply list_elem_of_fmap in Hin as ([q' d] & -> & Hin).
  by apply elem_of_zip_l in Hin.
Qed.

Lemma allocated_le n starts sends n' : allocated n starts sends n' → n ≤ n'.
Proof. induction 1; lia. Qed.

Lemma old_part_step σ p d rest l news n :
  σ !! d = None → ids_below n l → p < n → Forall (λ q, q < n) rest →
  Forall (λ i, n ≤ unique_id i) news →
  rewire σ <$> filter (λ i, unique_id i ∉ rest) (replace_list p d (l ++ news))
  = (rewire (<[p := d]> σ) <$> filter (λ i, unique_id i ∉ p :: rest) l)
    ++ (rewire σ <$> (replace_uses p d <$> news)).
Proof.
  intros Hd Hb Hp Hrest Hnews. unfold replace_list.
  rewrite filter_app.
  rewrite (filter_all _ news).
  2:{ eapply Forall_impl; [done|]. cbn. intros; lia. }
  change (map (replace_uses p d) ?k) with (replace_uses p d <$> k).
  rewrite fmap_app, filter_app, fmap_app.
  rewrite (filter_all _ (replace_uses p d <$> news)).
  2:{ rewrite Forall_fmap. eapply Forall_impl; [exact Hnews|]. cbn. intros i Hi Hin.
      rewrite Forall_forall in Hrest. apply Hrest in Hin. lia. }
  f_equal.
  pose proof (filter_ids_map (replace_uses p d) (λ q, q ∉ rest)
                (filter (λ i, unique_id i ≠ p) l) (λ _, eq_refl)) as E.
  cbn beta in E. rewrite E. clear E.
  rewrite list_filter_filter, <- list_fmap_compose.
  erewrite (list_filter_iff _ (λ i, unique_id i ∉ p :: rest)).
  2:{ intros i. rewrite not_elem_of_cons. tauto. }
  apply list_fmap_ext. intros ? i _. cbn. by apply rewire_replace_uses.
Qed.

Lemma loop_step_pre p rest l n x news :
  p ∉ rest → NoDup (unique_id <$> l) → ids_below n l →
  find_list l p = Some x →
  Forall (λ q, ∃ op, opcode_at l q = Some op ∧ is_sync_collective op = true) rest →
  replacement_of x n news →
  NoDup (unique_id <$> replace_list p (S n) (l ++ news)) ∧
  ids_below (length news + n) (replace_list p (S n) (l ++ news)) ∧
  Forall (λ q, q < n) rest ∧
  Forall (λ q, ∃ y, find_list l q = Some y ∧
                    find_list (replace_list p (S n) (l ++ news)) q
                      = Some (replace_uses p (S n) y)) rest ∧
  Forall (λ q, ∃ op, opcode_at (replace_list p (S n) (l ++ news)) q = Some op ∧
                     is_sync_collective op = true) rest.
Proof.
  intros Hp Hnd Hb Hx Hall Hnews.
  pose proof (replacement_wf _ _ _ _ Hnews Hnd Hb) as [Hnd2 Hb2].
  assert (Forall (λ q, ∃ y, find_list l q = Some y ∧
                    find_list (replace_list p (S n) (l ++ news)) q
                      = Some (replace_uses p (S n) y)) rest) as Hsame.
  { apply Forall_forall. intros q Hq.
    rewrite Forall_forall in Hall. destruct (Hall _ Hq) as (opq & Hopq & _).
    apply opcode_at_Some in Hopq as (xq & Hxq & <-). exists xq. split; [done|].
    apply find_list_replace_old; [done|]. by intros ->. }
  split_and!.
  - by apply NoDup_replace_list.
  - by apply ids_below_replace_list.
  - eapply Forall_impl; [exact Hall|]. intros q (opq & Hq & _).
    apply opcode_at_Some in Hq as (xq & Hxq & _). by eapply find_list_lt.
  - done.
  - rewrite Forall_forall in Hall, Hsame |- *. intros q Hq.
    destruct (Hall _ Hq) as (opq & Hopq & Hs), (Hsame _ Hq) as (y & Hy & Hy1).
    exists opq. split; [|done]. unfold opcode_at in *. rewrite Hy1. rewrite Hy in Hopq.
    done.
Qed.

Lemma replacement_summary x n news :
  is_sync_collective (opcode x) = true → replacement_of x n news →
  ∃ s d extra,
    news = s :: d :: extra ∧ unique_id s = n ∧ unique_id d = S n ∧
    opcode s = start_opcode (opcode x) ∧ is_done_instruction d = true ∧
    shape d = shape x ∧ operands d = [n] ∧
    (extra = [] ∧ (opcode x = kCollectivePermute → track_send_recv_separately_ self x = false)
     ∨ extra = [cp_send_done n] ∧ opcode x = kCollectivePermute ∧
       track_send_recv_separately_ self x = true).
Proof.
  intros Hsync [s d Hs Hos _ _ _ Hd Hod Hsh Hops _ Ht|s Hop Ht Hs Hos _ _ _].
  - exists s, d, []. split_and!; try done.
    + unfold is_done_instruction. rewrite Hod. by destruct (opcode x).
    + by left.
  - exists s, (cp_recv_done n x), [cp_send_done n]. split_and!; try done.
    + by rewrite Hop.
    + by right.
Qed.

Lemma loop_effect_nil should c l n rp : loop_effect should [] c l n rp c l n rp [] [] [].
Proof.
  split; try done.
  - rewrite app_nil_r. rewrite filter_all.
    + rewrite <- (list_fmap_id l) at 1. apply list_fmap_ext. intros ? i _. cbn.
      symmetry. apply rewire_empty.
    + apply Forall_forall. intros ? _. apply not_elem_of_nil.
  - constructor.
  - by rewrite Nat.sub_diag.
  - destruct should; [|done]. unfold pairs_of. cbn. by rewrite (left_id ∅ (∪)).
Qed.

Lemma convert_instructions_effect should ps :
  ∀ rp ch c l n rp' ch' fs',
  NoDup ps → NoDup (unique_id <$> l) → ids_below n l →
  Forall (λ p, ∃ op, opcode_at l p = Some op ∧ is_sync_collective op = true) ps →
  convert_instructions self ext should ps (rp, ch) (mkFocus (with_instructions c l) n)
    = (Ok (rp', ch'), fs') →
  ∃ c' l' n' starts sends created,
    fs' = mkFocus (with_instructions c' l') n' ∧
    loop_effect should ps c l n rp c' l' n' rp' starts sends created.
Proof.
  induction ps as [|p rest IH]; intros rp ch c l n rp' ch' fs' Hps Hnd Hb Hall Hrun.
  { cbn in Hrun. unfold ret in Hrun. simplify_eq. exists c, l, n, [], [], [].
    split; [done|]. apply loop_effect_nil. }
  apply NoDup_cons in Hps as [Hp Hrest].
  apply Forall_cons in Hall as [(op & Hop & Hsync) Hall].
  apply opcode_at_Some in Hop as (x & Hx & <-).
  cbn [convert_instructions] in Hrun. rewrite bind_eq in Hrun.
  destruct (convert_instruction _ _ _ _ _ _) as [[[rp1 ch1]| |] fs1] eqn:Hstep; [|done..].
  apply (convert_instruction_Ok _ _ _ _ _ _ _ _ _ _ x) in Hstep
    as (news & Hnews & -> & -> & ->); [|done..].
  pose proof (find_list_lt _ _ _ _ Hb Hx) as Hplt.
  pose proof (find_list_Some _ _ _ Hx) as [_ Hid].
  destruct (loop_step_pre _ _ _ _ _ _ Hp Hnd Hb Hx Hall Hnews)
    as (Hnd1 & Hb1 & Hrestlt & Hsame & Hall1).
  apply IH in Hrun as (c' & l' & n' & starts & sends & created & -> & Heff); [|done..].
  destruct Heff as [Hl' Hlen Halloc Hcreated Hroot Hpairs Hsends Hnosplit Hsplit Hrp].
  destruct (replacement_summary _ _ _ Hsync Hnews)
    as (s & d & extra & -> & Hs & Hd & Hos & Hdone & Hsh & Hops & Hextra).
  set (σ := dones_of rest starts) in *.
  assert (∀ q, n ≤ q → σ !! q = None) as Hσ.
  { intros q Hq. apply dones_of_outside. intros Hin.
    rewrite Forall_forall in Hrestlt. apply Hrestlt in Hin. lia. }
  assert (Forall (λ i, n ≤ unique_id i) (s :: d :: extra)) as Hfresh.
  { repeat constructor; [lia|lia|].
    destruct Hextra as [[-> _]|(-> & _)]; [constructor|].
    constructor; [cbn; lia|constructor]. }
  pose proof (allocated_le _ _ _ _ Halloc) as Hle.
  exists c', l', n', (n :: starts),
    (match extra with [] => sends | _ => S (S n) :: sends end),
    ((rewire σ <$> (replace_uses p (S n) <$> s :: d :: extra)) ++ created).
  split; [done|]. split.
  - rewrite Hl'. rewrite (old_part_step _ _ _ _ _ _ n); [|by apply Hσ; lia|done..].
    by rewrite app_assoc.
  - cbn. by rewrite Hlen.
  - destruct Hextra as [[-> _]|(-> & _)]; by constructor.
  - rewrite fmap_app, ids_rewire, ids_replace_uses, Hcreated.
    destruct Hextra as [[-> _]|(-> & _)]; cbn [fmap list_fmap length Nat.add] in *;
      rewrite Hs, Hd; cbn [cp_send_done unique_id].
    + replace (n' - n) with (2 + (n' - S (S n))) by lia. done.
    + replace (n' - n) with (3 + (n' - S (S (S n)))) by lia. done.
  - rewrite Hroot. cbn [replace_in_computation root_instruction].
    change (dones_of (p :: rest) (n :: starts)) with (<[p := S n]> σ).
    destruct (decide (root_instruction c = p)) as [->|Hne].
    + rewrite bool_decide_eq_true_2 by done. rewrite lookup_insert_eq, Hσ by lia. done.
    + rewrite bool_decide_eq_false_2 by done. by rewrite lookup_insert_ne.
  - constructor.
    + exists x, (rewire σ (replace_uses p (S n) s)), (rewire σ (replace_uses p (S n) d)). split_and!; try done.
      * apply elem_of_app. left. rewrite !fmap_cons. by left.
      * apply elem_of_app. left. rewrite !fmap_cons. right. by left.
      * cbn. rewrite Hops. cbn. rewrite bool_decide_eq_false_2 by lia.
        by rewrite Hσ by lia.
    + eapply Forall2_transfer; [exact Hpairs|].
      eapply Forall_impl; [exact Hsame|]. cbn beta.
      intros q (y & Hy & Hy1) a (x1 & si & di & Hx1 & Hsi & Hdi & ? & ? & ? & ? & ? & ?).
      rewrite Hy1 in Hx1. injection Hx1 as <-.
      exists y, si, di. split_and!; try done; apply elem_of_app; by right.
  - assert (Forall (λ q, ∃ i, i ∈ (rewire σ <$> (replace_uses p (S n) <$> s :: d :: extra)) ++ created ∧
                              unique_id i = q ∧ is_send_done i) sends) as Hsends'.
    { eapply Forall_impl; [exact Hsends|]. cbn beta. intros q (i & Hi & ? & ?).
      exists i. split; [|done]. apply elem_of_app. by right. }
    destruct Hextra as [[-> _]|(-> & _)]; [done|]. constructor; [|done].
    exists (rewire σ (replace_uses p (S n) (cp_send_done n))). split_and!; [|done|done].
    apply elem_of_app. left. rewrite !fmap_cons. do 2 right. by left.
  - intros Hno. destruct Hextra as [[-> _]|(-> & _ & Ht)]; [by apply Hnosplit|].
    by rewrite Hno in Ht.
  - intros Hall_split. rewrite filter_cons.
    assert (opcode_at l p = Some (opcode x)) as Hopx by (unfold opcode_at; by rewrite Hx).
    assert (length sends
            = length (filter (λ q, opcode_at l q = Some kCollectivePermute) rest)) as Hls.
    { rewrite (Hsplit Hall_split). f_equal. apply filter_ext_elem. intros q Hq.
      rewrite Forall_forall in Hsame. destruct (Hsame _ Hq) as (y & Hy & Hy1).
      unfold opcode_at. by rewrite Hy, Hy1. }
    destruct Hextra as [[-> Ht]|(-> & Hop & _)].
    + rewrite decide_False; [done|]. rewrite Hopx. intros Heq. injection Heq as Heq.
      rewrite Hall_split in Ht by done. by specialize (Ht Heq).
    + rewrite decide_True by (by rewrite Hopx, Hop). cbn [length]. by rewrite Hls.
  - rewrite Hrp. destruct should; cbn [record_pair]; [|done].
    change (pairs_of (p :: rest) (n :: starts))
      with (<[p := mkReplacedAsync n (S n)]> (pairs_of rest starts)).
    rewrite Hid. rewrite <- insert_union_l, insert_union_r; [done|].
    by apply pairs_of_outside.
Qed.

Lemma process_computation_effect cid ch s ch' s' c :
  computations (st_module s) !! cid = Some c →
  wf_computation (next_unique_id (st_module s)) c →
  process_computation self ext cid ch s = (Ok ch', s') →
  ∃ c' rp' starts sends created,
    computations (st_module s') !! cid = Some c' ∧
    loop_effect (should_update (st_module s) cid) (supported_collectives_of self c)
      c (instructions c) (next_unique_id (st_module s)) ∅
      c' (instructions c') (next_unique_id (st_module s')) rp' starts sends created ∧
    sched_entry (st_module s') cid
      = update_sequence (pairs_of (supported_collectives_of self c) starts)
          <$> sched_entry (st_module s) cid.
Proof.
  intros Hc [Hnd Hb] H.
  destruct (decide (supported_collectives_of self c = [])) as [Hps|Hps].
  { rewrite (process_computation_skip _ _ _ c) in H by done. simplify_eq.
    exists c, ∅, [], [], []. rewrite Hps. split_and!; [done|apply loop_effect_nil|].
    unfold pairs_of. cbn. destruct (sched_entry _ _); cbn; by rewrite ?update_sequence_empty. }
  unfold process_computation, lookup_computation in H. rewrite bind_eq, Hc in H.
  destruct (supported_collectives_of self c) as [|p0 ps0] eqn:Eps; [done|].
  rewrite <- Eps in *. clear Hps.
  rewrite bind_eq, schedule_query_eq in H. rewrite bind_eq in H.
  unfold focus at 1 in H. cbn [st_module st_accesses] in H. rewrite Hc in H.
  destruct (convert_instructions _ _ _ _ _ _) as [[[rp ch1]| |] fs1] eqn:Hloop;
    cbn [fst snd] in H; [|done..].
  rewrite <- (with_instructions_id c) in Hloop.
  pose proof (supported_collectives_pre c Hnd) as [Hnd_ps Hall].
  apply convert_instructions_effect in Hloop
    as (c1 & l1 & n1 & starts & sends & created & -> & Heff); [|done..].
  rewrite with_instructions_id in Heff.
  cbn [computation next_id] in H.
  assert (loop_effect (should_update (st_module s) cid) (supported_collectives_of self c)
            c (instructions c) (next_unique_id (st_module s)) ∅
            (with_instructions c1 l1) l1 n1 rp starts sends created) as Heff'.
  { destruct Heff. by split. }
  pose proof (eff_recorded _ _ _ _ _ _ _ _ _ _ _ _ _ Heff) as Hrp.
  destruct s as [m acc]. cbn [st_module st_accesses] in *.
  unfold should_update, sched_entry in *. destruct (schedule m) as [sched|] eqn:Hsched.
  - destruct (sched !! cid) as [sq|] eqn:Hsq.
    + rewrite bool_decide_eq_true_2 in * by (by eexists).
      unfold sequence, set_sequence, log_access in H. rewrite !bind_eq in H. cbn in H.
      rewrite Hsq in H. cbn in H. unfold ret in H. simplify_eq. cbn.
      exists (with_instructions c1 l1), (pairs_of (supported_collectives_of self c) starts ∪ ∅),
        starts, sends, created.
      rewrite !lookup_insert_eq. split_and!; [done|done|]. by rewrite (right_id ∅ (∪)).
    + rewrite bool_decide_eq_false_2 in * by (by intros [? ?]).
      rewrite !bind_eq in H. unfold ret in H. simplify_eq. cbn.
      exists (with_instructions c1 l1), ∅, starts, sends, created.
      rewrite lookup_insert_eq, Hsq. by split_and!.
  - rewrite !bind_eq in H. unfold ret in H. simplify_eq. cbn.
    exists (with_instructions c1 l1), ∅, starts, sends, created.
    rewrite lookup_insert_eq. by split_and!.
Qed.

Lemma Run_effect m threads ch s' cid c :
  wf_module m → cid ∈ MakeNonfusionComputations ext m threads →
  computations m !! cid = Some c →
  RunOnModule self ext m threads = (Ok ch, s') →
  ∃ c' n n' rp' starts sends created,
    computations (st_module s') !! cid = Some c' ∧
    wf_computation n c ∧ wf_computation n' c' ∧
    loop_effect (bool_decide (is_Some (sched_entry m cid)))
      (supported_collectives_of self c) c (instructions c) n ∅
      c' (instructions c') n' rp' starts sends created ∧
    sched_entry (st_module s') cid
      = update_sequence (pairs_of (supported_collectives_of self c) starts)
          <$> sched_entry m cid.
Proof.
  intros Hwf Hin Hc H. unfold RunOnModule, Run in H. cbn [st_module] in H.
  eapply process_computations_at in H
    as (ch1 & s1 & ch2 & s2 & Hstep & Hwf1 & Hc1 & He1 & Hc' & He');
    [|apply NoDup_MakeNonfusionComputations|done|done|done].
  cbn [st_module] in He1.
  pose proof (process_computation_wf _ _ _ _ _ Hwf1 Hstep) as Hwf2.
  destruct (process_computation_effect _ _ _ _ _ _ Hc1 (Hwf1 _ _ Hc1) Hstep)
    as (c' & rp' & starts & sends & created & Hc2 & Heff & Hsched).
  exists c', (next_unique_id (st_module s1)), (next_unique_id (st_module s2)),
    rp', starts, sends, created.
  rewrite Hc', He', Hsched, <- He1, <- should_update_entry.
  split_and!; try done; [apply (Hwf1 _ _ Hc1)|apply (Hwf2 _ _ Hc2)].
Qed.

Lemma unreplaced_instructions (l : list HloInstruction) :
  NoDup (unique_id <$> l) →
  filter (λ i, unique_id i ∉ unique_id <$> filter (λ i, is_supported_collective self i = true) l) l
  = filter (λ i, is_supported_collective self i = false) l.
Proof.
  intros Hnd. apply filter_ext_elem. intros i Hi. split.
  - intros Hn. destruct (is_supported_collective self i) eqn:E; [|done].
    exfalso. apply Hn, list_elem_of_fmap. exists i. split; [done|].
    by apply list_elem_of_filter.
  - intros HP Hin. apply list_elem_of_fmap in Hin as (j & Hij & Hj).
    apply list_elem_of_filter in Hj as [HPj Hj].
    pose proof (find_list_in _ _ Hnd Hi) as E1.
    pose proof (find_list_in _ _ Hnd Hj) as E2.
    rewrite Hij in E1. congruence.
Qed.

Lemma zip_lookups (R : nat → nat → Prop) ps starts :
  NoDup ps → Forall2 R ps starts →
  ∀ p, p ∈ ps →
    ∃ a, R p a ∧ dones_of ps starts !! p = Some (S a) ∧
         pairs_of ps starts !! p = Some (mkReplacedAsync a (S a)).
Proof.
  intros Hnd HR. induction HR as [|p a ps starts Hpa _ IH]; intros q Hq.
  { by apply elem_of_nil in Hq. }
  apply NoDup_cons in Hnd as [Hp Hnd].
  change (dones_of (p :: ps) (a :: starts)) with (<[p := S a]> (dones_of ps starts)).
  change (pairs_of (p :: ps) (a :: starts))
    with (<[p := mkReplacedAsync a (S a)]> (pairs_of ps starts)).
  apply elem_of_cons in Hq as [->|Hq].
  - exists a. by rewrite !lookup_insert_eq.
  - destruct (IH Hnd _ Hq) as (b & ? & ? & ?). exists b.
    rewrite !lookup_insert_ne by (by intros ->). done.
Qed.

Lemma find_instruction_in c i :
  NoDup (unique_id <$> instructions c) → i ∈ instructions c →
  find_instruction c (unique_id i) = Some i.
Proof. intros. unfold find_instruction. by apply find_list_in. Qed.

(** X13. After a successful run, a selected computation holds, in their
    old order, the instructions that the scan did not accept, unchanged
    except that each operand that was replaced now refers to the done that
    took its place; the created instructions follow, with ids the
    computation did not have. The replaced instructions are exactly the
    accepted ones, the done that stands for a replaced instruction has its
    shape, and the root follows its replacement. *)
Theorem Run_rewires_users_to_the_done m threads ch s' cid c :
  wf_module m → cid ∈ MakeNonfusionComputations ext m threads →
  computations m !! cid = Some c →
  RunOnModule self ext m threads = (Ok ch, s') →
  ∃ c' σ created,
    computations (st_module s') !! cid = Some c' ∧
    instructions c'
      = (rewire σ <$> filter (λ i, is_supported_collective self i = false) (instructions c))
        ++ created ∧
    (∀ i, i ∈ created → unique_id i ∉ unique_id <$> instructions c) ∧
    (∀ p, is_Some (σ !! p) ↔ p ∈ supported_collectives_of self c) ∧
    (∀ p d, σ !! p = Some d →
       ∃ x di, find_instruction c p = Some x ∧ find_instruction c' d = Some di ∧
               is_done_instruction di = true ∧ shape di = shape x) ∧
    root_instruction c' = default (root_instruction c) (σ !! root_instruction c).
Proof.
  intros Hwf Hcid Hc Hrun.
  destruct (Run_effect _ _ _ _ _ _ Hwf Hcid Hc Hrun)
    as (c' & n & n' & rp' & starts & sends & created & Hc' & [Hnd Hb] & [Hnd' Hb'] & Heff & _).
  destruct Heff as [Hl' Hlen Halloc Hcreated Hroot Hpairs _ _ _ _].
  pose proof (supported_collectives_pre c Hnd) as [Hnd_ps _].
  set (ps := supported_collectives_of self c) in *.
  exists c', (dones_of ps starts), created. split_and!; try done.
  - rewrite Hl'. f_equal. f_equal. by apply unreplaced_instructions.
  - intros i Hi Hin.
    assert (unique_id i ∈ seq n (n' - n)) as Hi'.
    { rewrite <- Hcreated. apply list_elem_of_fmap. eauto. }
    apply elem_of_seq in Hi'. apply ids_below_alt in Hb.
    rewrite Forall_forall in Hb. apply Hb in Hin. lia.
  - intros p. split.
    + intros [d Hd]. destruct (decide (p ∈ ps)) as [|Hn]; [done|].
      by rewrite dones_of_outside in Hd.
    + intros Hp. destruct (zip_lookups _ _ _ Hnd_ps Hpairs _ Hp) as (a & _ & -> & _).
      by eexists.
  - intros p d Hd.
    assert (p ∈ ps) as Hp.
    { destruct (decide (p ∈ ps)) as [|Hn]; [done|]. by rewrite dones_of_outside in Hd. }
    destruct (zip_lookups _ _ _ Hnd_ps Hpairs _ Hp)
      as (a & (x & si & di & Hx & _ & Hdi & _ & Hida & _ & Hdone & Hsh & _) & Hd' & _).
    rewrite Hd' in Hd. simplify_eq. exists x, di. split_and!; try done.
    rewrite <- Hida. apply find_instruction_in; [done|].
    rewrite Hl'. apply elem_of_app. by right.
Qed.

(** ** The patched schedule against the rewritten computation *)

Lemma update_sequence_cons (rp : gmap nat ReplacedAsync) p sq :
  update_sequence rp (p :: sq) = update_sequence rp [p] ++ update_sequence rp sq.
Proof. apply (update_sequence_app rp [p] sq). Qed.

Lemma candidate_permutes_count (l l0 : list HloInstruction) :
  NoDup (unique_id <$> l) → Forall (λ i, i ∈ l) l0 →
  length (filter (λ p, opcode_at l p = Some kCollectivePermute) (unique_id <$> l0))
  = length (filter (λ i, opcode i = kCollectivePermute) l0).
Proof.
  intros Hnd. induction 1 as [|i l0 Hi _ IH]; [done|].
  rewrite fmap_cons, !filter_cons.
  assert (opcode_at l (unique_id i) = Some (opcode i)) as Hop.
  { unfold opcode_at. by rewrite find_list_in. }
  destruct (decide (opcode i = kCollectivePermute)) as [E|E].
  - rewrite decide_True by (by rewrite Hop, E). cbn. by rewrite IH.
  - rewrite decide_False; [done|]. rewrite Hop. intros E'. by simplify_eq.
Qed.

Lemma update_sequence_Permutation (rp : gmap nat ReplacedAsync) sq1 sq2 :
  sq1 ≡ₚ sq2 → update_sequence rp sq1 ≡ₚ update_sequence rp sq2.
Proof.
  induction 1 as [|x l1 l2 _ IH|x y l|l1 l2 l3 _ IH1 _ IH2].
  - done.
  - rewrite (update_sequence_cons rp x l1), (update_sequence_cons rp x l2).
    by rewrite IH.
  - rewrite (update_sequence_cons rp y (x :: l)), (update_sequence_cons rp x l),
      (update_sequence_cons rp x (y :: l)), (update_sequence_cons rp y l).
    rewrite !app_assoc. f_equiv. apply Permutation_app_comm.
  - by etrans.
Qed.

Lemma update_sequence_insert_outside (rp : gmap nat ReplacedAsync) p v sq :
  p ∉ sq → update_sequence (<[p := v]> rp) sq = update_sequence rp sq.
Proof.
  induction sq as [|q sq IH]; intros Hp; [done|].
  apply not_elem_of_cons in Hp as [Hne Hp]. cbn [update_sequence].
  rewrite lookup_insert_ne by done. by rewrite IH.
Qed.

Lemma update_sequence_candidates ps :
  ∀ starts, NoDup ps → length starts = length ps →
  update_sequence (pairs_of ps starts) ps = starts ≫= (λ a, [a; S a]).
Proof.
  induction ps as [|p ps IH]; intros [|a starts] Hnd Hlen; try done.
  apply NoDup_cons in Hnd as [Hp Hnd]. cbn in Hlen.
  change (pairs_of (p :: ps) (a :: starts))
    with (<[p := mkReplacedAsync a (S a)]> (pairs_of ps starts)).
  cbn [update_sequence]. rewrite lookup_insert_eq. cbn.
  rewrite update_sequence_insert_outside by done. rewrite IH by (done || lia). done.
Qed.

Lemma allocated_Permutation n starts sends n' :
  allocated n starts sends n' →
  (starts ≫= (λ a, [a; S a])) ++ sends ≡ₚ seq n (n' - n).
Proof.
  induction 1 as [n|n starts sends n' H IH|n starts sends n' H IH].
  - by rewrite Nat.sub_diag.
  - apply allocated_le in H. replace (n' - n) with (2 + (n' - S (S n))) by lia.
    cbn. by rewrite IH.
  - apply allocated_le in H. replace (n' - n) with (3 + (n' - S (S (S n)))) by lia.
    cbn. rewrite <- Permutation_middle. by rewrite IH.
Qed.

Lemma allocated_count n starts sends n' :
  allocated n starts sends n' →
  n' - n = 2 * length starts + length sends ∧ length sends ≤ length starts.
Proof.
  induction 1 as [n|n starts sends n' H [IH1 IH2]|n starts sends n' H [IH1 IH2]].
  - split; [cbn; lia|done].
  - apply allocated_le in H. cbn [length]. lia.
  - apply allocated_le in H. cbn [length]. lia.
Qed.

Lemma patched_schedule_Permutation ps (l : list HloInstruction) n n' starts sends sq :
  NoDup (unique_id <$> l) → NoDup ps → (∀ p, p ∈ ps → p ∈ unique_id <$> l) →
  length starts = length ps → allocated n starts sends n' →
  sq ≡ₚ unique_id <$> l →
  update_sequence (pairs_of ps starts) sq ++ sends
  ≡ₚ filter (λ p, p ∉ ps) (unique_id <$> l) ++ seq n (n' - n).
Proof.
  intros Hnd Hps Hsub Hlen Halloc Hperm.
  rewrite <- (allocated_Permutation _ _ _ _ Halloc), app_assoc. f_equiv.
  rewrite <- Hperm.
  rewrite (update_sequence_Permutation _ sq
             (filter (λ p : nat, p ∉ ps) sq ++ filter (λ p : nat, ¬ (p ∉ ps)) sq))
    by (by rewrite filter_app_complement).
  rewrite update_sequence_app. f_equiv.
  - rewrite update_sequence_unreplaced; [done|]. intros p Hp.
    apply list_elem_of_filter in Hp as [Hp _]. by apply pairs_of_outside.
  - rewrite (update_sequence_Permutation _ _ ps).
    + by rewrite update_sequence_candidates.
    + apply NoDup_Permutation; [|done|].
      * apply NoDup_filter. by rewrite Hperm.
      * intros p. rewrite list_elem_of_filter. split.
        -- intros [Hp _]. by destruct (decide (p ∈ ps)).
        -- intros Hp. split; [by intros ?|]. rewrite Hperm. by apply Hsub.
Qed.

Lemma Run_schedule_effect m threads ch s' cid c sq :
  wf_module m → cid ∈ MakeNonfusionComputations ext m threads →
  computations m !! cid = Some c →
  sched_entry m cid = Some sq → sq ≡ₚ unique_id <$> instructions c →
  RunOnModule self ext m threads = (Ok ch, s') →
  ∃ c' sq' sends,
    computations (st_module s') !! cid = Some c' ∧
    sched_entry (st_module s') cid = Some sq' ∧
    sq' ++ sends ≡ₚ unique_id <$> instructions c' ∧
    NoDup (unique_id <$> instructions c') ∧
    Forall (λ q, ∃ i, i ∈ instructions c' ∧ unique_id i = q ∧ is_send_done i) sends ∧
    ((∀ i, track_send_recv_separately_ self i = false) → sends = []) ∧
    ((∀ i, opcode i = kCollectivePermute → track_send_recv_separately_ self i = true) →
     length sends
     = length (filter (λ p, opcode_at (instructions c) p = Some kCollectivePermute)
                 (supported_collectives_of self c))).
Proof.
  intros Hwf Hcid Hc Hsq Hperm Hrun.
  destruct (Run_effect _ _ _ _ _ _ Hwf Hcid Hc Hrun)
    as (c' & n & n' & rp' & starts & sends & created & Hc' & [Hnd Hb] & [Hnd' Hb']
        & Heff & Hsched).
  destruct Heff as [Hl' Hlen Halloc Hcreated _ _ Hsends Hnosplit Hsplit _].
  pose proof (supported_collectives_pre c Hnd) as [Hnd_ps _].
  rewrite Hsq in Hsched. cbn in Hsched.
  exists c', (update_sequence (pairs_of (supported_collectives_of self c) starts) sq), sends.
  split_and!; try done.
  - rewrite Hl', fmap_app, ids_rewire, Hcreated.
    pose proof (ids_filter (λ q, q ∉ supported_collectives_of self c) (instructions c)) as E.
    cbn beta in E. rewrite E. clear E.
    apply patched_schedule_Permutation; try done.
    intros p Hp. unfold supported_collectives_of in Hp.
    apply list_elem_of_fmap in Hp as (i & -> & Hi).
    apply list_elem_of_filter in Hi as [_ Hi]. apply list_elem_of_fmap. eauto.
  - eapply Forall_impl; [exact Hsends|]. cbn beta. intros q (i & Hi & ? & ?).
    exists i. split; [|done]. rewrite Hl'. apply elem_of_app. by right.
Qed.

(** X14. Without separate tracking of send and recv, the patched schedule
    of a computation still lists exactly the instructions of the rewritten
    computation, each once, when the schedule did so before the run. *)
Theorem schedule_still_covers_computation m threads ch s' cid c sq :
  wf_module m → cid ∈ MakeNonfusionComputations ext m threads →
  computations m !! cid = Some c →
  sched_entry m cid = Some sq → sq ≡ₚ unique_id <$> instructions c →
  (∀ i, track_send_recv_separately_ self i = false) →
  RunOnModule self ext m threads = (Ok ch, s') →
  ∃ c' sq',
    computations (st_module s') !! cid = Some c' ∧
    sched_entry (st_module s') cid = Some sq' ∧
    sq' ≡ₚ unique_id <$> instructions c'.
Proof.
  intros Hwf Hcid Hc Hsq Hperm Hno Hrun.
  destruct (Run_schedule_effect _ _ _ _ _ _ _ Hwf Hcid Hc Hsq Hperm Hrun)
    as (c' & sq' & sends & Hc' & Hsq' & Hp & _ & _ & Hnosplit & _).
  exists c', sq'. split_and!; [done..|].
  rewrite (Hnosplit Hno), app_nil_r in Hp. done.
Qed.

(** X15. With separate tracking of send and recv the patched schedule no
    longer lists every instruction of the rewritten computation: the
    instructions it misses are exactly send-done custom calls, which are in
    the computation and in no slot of the schedule; and when every
    collective-permute is tracked separately there is one of them for each
    replaced collective-permute. *)
Theorem split_tracking_leaves_send_done_unscheduled m threads ch s' cid c sq :
  wf_module m → cid ∈ MakeNonfusionComputations ext m threads →
  computations m !! cid = Some c →
  sched_entry m cid = Some sq → sq ≡ₚ unique_id <$> instructions c →
  RunOnModule self ext m threads = (Ok ch, s') →
  ∃ c' sq' sends,
    computations (st_module s') !! cid = Some c' ∧
    sched_entry (st_module s') cid = Some sq' ∧
    sq' ++ sends ≡ₚ unique_id <$> instructions c' ∧
    Forall (λ q, (q ∉ sq') ∧ ∃ i, find_instruction c' q = Some i ∧ is_send_done i) sends ∧
    ((∀ i, opcode i = kCollectivePermute → track_send_recv_separately_ self i = true) →
     length sends
     = length (filter (λ i, is_supported_collective self i = true ∧
                            opcode i = kCollectivePermute) (instructions c))).
Proof.
  intros Hwf Hcid Hc Hsq Hperm Hrun.
  destruct (Run_schedule_effect _ _ _ _ _ _ _ Hwf Hcid Hc Hsq Hperm Hrun)
    as (c' & sq' & sends & Hc' & Hsq' & Hp & Hnd' & Hsends & _ & Hsplit).
  destruct (Hwf _ _ Hc) as [Hnd _].
  exists c', sq', sends. split_and!; try done.
  - assert (NoDup (sq' ++ sends)) as Hnd2 by (by rewrite Hp).
    apply NoDup_app in Hnd2 as (_ & Hdisj & _).
    apply Forall_forall. intros q Hq. rewrite Forall_forall in Hsends.
    destruct (Hsends _ Hq) as (i & Hi & <- & Hsd). split.
    + intros Hin. by apply (Hdisj _ Hin).
    + exists i. split; [|done]. by apply find_instruction_in.
  - intros Hall. rewrite (Hsplit Hall). unfold supported_collectives_of.
    rewrite candidate_permutes_count; [|done|].
    + rewrite list_filter_filter. f_equal. apply list_filter_iff. intros i. tauto.
    + apply Forall_forall. intros i Hi. by apply list_elem_of_filter in Hi as [_ ?].
Qed.

(** ** When a run succeeds *)

Lemma operand_shapes_of_found ops c l n :
  (∀ o, o ∈ ops → is_Some (find_list l o)) →
  ∃ shs, operand_shapes_of ops (mkFocus (with_instructions c l) n)
           = (Ok shs, mkFocus (with_instructions c l) n) ∧
         length shs = length ops.
Proof.
  induction ops as [|p ops IH]; intros Hfound; [by exists []|].
  destruct (Hfound p) as [op Hp]; [by left|].
  destruct IH as (shs & Hshs & Hlen); [intros o Ho; apply Hfound; by right|].
  exists (shape op :: shs). split; [|cbn; by rewrite Hlen].
  cbn [operand_shapes_of]. rewrite bind_eq, deref_eq, Hp.
  rewrite bind_eq, Hshs. done.
Qed.

Lemma ReplaceInstruction_succeeds old new c l n :
  collaborators_succeed →
  is_Some (find_list l old) → is_Some (find_list l new) →
  ReplaceInstruction ext old new (mkFocus (with_instructions c l) n)
  = (Ok tt, mkFocus (replace_in_computation (with_instructions c l) old new) n).
Proof.
  intros (Hrep & _) [? Hold] [? Hnew]. by rewrite ReplaceInstruction_eq, Hrep, Hold, Hnew.
Qed.

Lemma find_old_among_new l news p x : find_list l p = Some x → is_Some (find_list (l ++ news) p).
Proof. intros Hx. rewrite find_list_app, Hx. by eexists. Qed.

Lemma find_done_among_new n l s d rest :
  ids_below n l → unique_id s = n → unique_id d = S n →
  is_Some (find_list (l ++ s :: d :: rest) (S n)).
Proof.
  intros Hb Hs Hd. rewrite (find_list_new n) by (done || lia). cbn. rewrite Hs, Hd.
  rewrite bool_decide_eq_false_2 by lia. rewrite bool_decide_eq_true_2 by done. by eexists.
Qed.

Lemma convert_all_reduce_succeeds should ar rp c l n :
  collaborators_succeed → ids_below n l → find_list l (unique_id ar) = Some ar →
  ∃ rp' fs', convert_all_reduce ext should ar rp (mkFocus (with_instructions c l) n)
             = (Ok rp', fs').
Proof.
  intros Hext Hb Hx. rewrite convert_all_reduce_eq by done. cbn zeta.
  rewrite ReplaceInstruction_succeeds; [eauto|done|by eapply find_old_among_new|].
  by apply find_done_among_new.
Qed.

Lemma convert_all_gather_succeeds should ag rp c l n :
  collaborators_succeed → ids_below n l → find_list l (unique_id ag) = Some ag →
  (∀ o, o ∈ operands ag → is_Some (find_list l o)) → 1 ≤ operand_count ag →
  ∃ rp' fs', convert_all_gather ext should ag rp (mkFocus (with_instructions c l) n)
             = (Ok rp', fs').
Proof.
  intros Hext Hb Hx Hops Hcount.
  destruct (operand_shapes_of_found (operands ag) c l n Hops) as (shs & Hshs & Hlen).
  rewrite (convert_all_gather_eq _ _ _ _ _ _ shs) by (done || by rewrite Hshs).
  assert (is_Some (all_gather_input_shape ag shs)) as [input ->].
  { unfold all_gather_input_shape. destruct (bool_decide _); [by eexists|].
    apply lookup_lt_is_Some. unfold operand_count in Hcount. lia. }
  cbn zeta.
  rewrite ReplaceInstruction_succeeds; [eauto|done|by eapply find_old_among_new|].
  by apply find_done_among_new.
Qed.

Lemma collective_permute_start_succeeds cp c l n :
  collaborators_succeed → ids_below n l →
  (∀ o, o ∈ operands cp → is_Some (find_list l o)) →
  operand_count cp = 1 ∨ operand_count cp = 4 →
  ∃ s0, collective_permute_start ext cp (mkFocus (with_instructions c l) n)
          = (Ok n, mkFocus (with_instructions c (l ++ [s0])) (S n)) ∧
        unique_id s0 = n.
Proof.
  intros (_ & _ & _ & Hinfer) Hb Hops [H1|H4].
  - unfold operand_count in H1. destruct (operands cp) as [|o [|]] eqn:E; try done.
    rewrite (collective_permute_start_single _ o) by done.
    destruct (Hops o) as [oi ->]; [by left|]. by eexists.
  - rewrite collective_permute_start_multi by done.
    destruct (operand_shapes_of_found (operands cp) c l n Hops) as (shs & -> & _).
    cbn [fst]. destruct (Hinfer shs) as [sh ->]. by eexists.
Qed.

Lemma convert_collective_permute_succeeds should cp rp c l n :
  collaborators_succeed → ids_below n l → find_list l (unique_id cp) = Some cp →
  (∀ o, o ∈ operands cp → is_Some (find_list l o)) →
  operand_count cp = 1 ∨ operand_count cp = 4 →
  ∃ rp' fs', convert_collective_permute self ext should cp rp
               (mkFocus (with_instructions c l) n) = (Ok rp', fs').
Proof.
  intros Hext Hb Hx Hops Hcount.
  destruct (collective_permute_start_succeeds cp c l n Hext Hb Hops Hcount)
    as (s0 & Hstart & Hid).
  pose proof (find_list_lt _ _ _ _ Hb Hx) as Hlt.
  unfold convert_collective_permute. rewrite bind_eq, Hstart.
  unfold set_metadata, CopyBackendConfigFrom.
  do 2 (mrun; rewrite mutate_eq;
        rewrite (find_list_new n), (update_list_new n) by (done || lia);
        simpl; rewrite ?Hid; bd).
  mrun. destruct (track_send_recv_separately_ self cp) eqn:Ht.
  - rewrite collective_permute_done_split by done.
    destruct Hext as (Hrep & Hctl & ?). rewrite Hctl. mrun.
    rewrite ReplaceInstruction_succeeds; [by mrun; eauto|done|by eapply find_old_among_new|].
    by apply find_done_among_new.
  - rewrite collective_permute_done_single by done. mrun.
    rewrite ReplaceInstruction_succeeds; [by mrun; eauto|done|by eapply find_old_among_new|].
    by apply find_done_among_new.
Qed.

Lemma convert_all_to_all_succeeds should ata rp c l n :
  collaborators_succeed → ids_below n l → find_list l (unique_id ata) = Some ata →
  (∀ o, o ∈ operands ata → is_Some (find_list l o)) →
  ∃ rp' fs', convert_all_to_all ext should ata rp (mkFocus (with_instructions c l) n)
             = (Ok rp', fs').
Proof.
  intros Hext Hb Hx Hops.
  pose proof (find_list_lt _ _ _ _ Hb Hx) as Hlt.
  unfold convert_all_to_all, CreateAsyncInstructions. mrun.
  destruct Hext as (Hrep & Hctl & Hasync & Hinfer). rewrite Hasync. rewrite bind_eq.
  destruct (operand_shapes_of_found (operands ata) c l n Hops) as (shs & -> & _).
  mrun. rewrite AddInstruction_eq. mrun. rewrite AddInstruction_eq.
  unfold set_metadata, CopyBackendConfigFrom.
  do 2 (mrun; rewrite mutate_eq; rewrite <- ?app_assoc;
        rewrite (find_list_new n), (update_list_new n) by (done || lia);
        simpl; bd).
  mrun. rewrite ReplaceInstruction_eq, Hrep.
  rewrite find_list_app, Hx. rewrite (find_list_new n) by (done || lia). cbn. bd. cbn.
  mrun. destruct should; [|by mrun; eauto].
  rewrite bind_eq.
  change (replace_in_computation ?c0 ?o ?d) with
    (with_instructions (replace_in_computation c0 o d)
       (instructions (replace_in_computation c0 o d))).
  rewrite deref_eq. cbn [replace_in_computation instructions with_instructions].
  rewrite find_list_replace by lia.
  rewrite (find_list_new n) by (done || lia). cbn.
  rewrite bool_decide_eq_false_2 by lia.
  rewrite bool_decide_eq_true_2 by lia. cbn.
  rewrite bool_decide_eq_false_2 by lia. cbn. eauto.
Qed.

Lemma convert_instruction_succeeds should p acc c l n x :
  collaborators_succeed → ids_below n l → find_list l p = Some x →
  is_sync_collective (opcode x) = true → convertible l x →
  ∃ r fs', convert_instruction self ext should p acc (mkFocus (with_instructions c l) n)
           = (Ok r, fs').
Proof.
  intros Hext Hb Hx Hsync (Hops & Hcp & Hag).
  pose proof (find_list_Some _ _ _ Hx) as [_ Hid].
  assert (find_list l (unique_id x) = Some x) as Hx' by (by rewrite Hid).
  unfold convert_instruction. rewrite bind_eq, deref_eq, Hx.
  destruct (opcode x) eqn:Hop; try done.
  - destruct (convert_all_reduce_succeeds should x acc.1 c l n) as (rp' & fs' & E);
      [done..|]. rewrite bind_eq, E. by mrun; eauto.
  - destruct (convert_all_gather_succeeds should x acc.1 c l n) as (rp' & fs' & E);
      [done..|by apply Hag|]. rewrite bind_eq, E. by mrun; eauto.
  - destruct (convert_collective_permute_succeeds should x acc.1 c l n)
      as (rp' & fs' & E); [done..|by apply Hcp|]. rewrite bind_eq, E. by mrun; eauto.
  - destruct (convert_all_to_all_succeeds should x acc.1 c l n) as (rp' & fs' & E);
      [done..|]. rewrite bind_eq, E. by mrun; eauto.
Qed.

Lemma convertible_step l news p n x y s d extra :
  ids_below n l → p < n → find_list l p = Some x →
  news = s :: d :: extra → unique_id s = n → unique_id d = S n →
  convertible l y →
  convertible (replace_list p (S n) (l ++ news)) (replace_uses p (S n) y).
Proof.
  intros Hb Hp Hx -> Hs Hd (Hops & Hcp & Hag). split_and!.
  - intros o Ho. cbn in Ho. apply list_elem_of_fmap in Ho as (o0 & -> & Ho0).
    destruct (decide (o0 = p)) as [->|Hne].
    + rewrite bool_decide_eq_true_2 by done.
      erewrite find_done_after_replace by done. by eexists.
    + rewrite bool_decide_eq_false_2 by done.
      destruct (Hops _ Ho0) as [oi Hoi].
      erewrite find_list_replace_old by done. by eexists.
  - intros Hop. unfold operand_count. cbn. rewrite length_map. by apply Hcp.
  - intros Hop. unfold operand_count. cbn. rewrite length_map. by apply Hag.
Qed.

Lemma convert_instructions_succeed should ps :
  ∀ acc c l n,
  collaborators_succeed → NoDup ps → NoDup (unique_id <$> l) → ids_below n l →
  Forall (λ p, ∃ x, find_list l p = Some x ∧ is_sync_collective (opcode x) = true ∧
                    convertible l x) ps →
  ∃ r fs', convert_instructions self ext should ps acc (mkFocus (with_instructions c l) n)
           = (Ok r, fs').
Proof.
  induction ps as [|p rest IH]; intros acc c l n Hext Hps Hnd Hb Hall.
  { cbn. unfold ret. eauto. }
  apply NoDup_cons in Hps as [Hp Hrest].
  apply Forall_cons in Hall as [(x & Hx & Hsync & Hconv) Hall].
  destruct (convert_instruction_succeeds should p acc c l n x) as ([rp1 ch1] & fs1 & Hstep);
    [done..|].
  cbn [convert_instructions]. rewrite bind_eq, Hstep.
  destruct acc as [rp ch].
  apply (convert_instruction_Ok _ _ _ _ _ _ _ _ _ _ x) in Hstep
    as (news & Hnews & -> & -> & ->); [|done..].
  pose proof (find_list_lt _ _ _ _ Hb Hx) as Hplt.
  assert (Forall (λ q, ∃ op, opcode_at l q = Some op ∧ is_sync_collective op = true) rest)
    as Hall'.
  { eapply Forall_impl; [exact Hall|]. cbn beta. intros q (y & Hy & Hs & _).
    exists (opcode y). unfold opcode_at. by rewrite Hy. }
  destruct (loop_step_pre _ _ _ _ _ _ Hp Hnd Hb Hx Hall' Hnews)
    as (Hnd1 & Hb1 & Hrestlt & Hsame & Hall1).
  destruct (replacement_summary _ _ _ Hsync Hnews)
    as (s & d & extra & Hnews_eq & Hs & Hd & _).
  apply IH; [done..|].
  rewrite Forall_forall in Hall, Hsame |- *. intros q Hq.
  destruct (Hall _ Hq) as (y & Hy & Hsy & Hcy), (Hsame _ Hq) as (y' & Hy' & Hy1).
  rewrite Hy in Hy'. injection Hy' as <-.
  exists (replace_uses p (S n) y). split_and!; [done|done|].
  by eapply convertible_step.
Qed.

Lemma process_computation_succeeds cid ch s c :
  collaborators_succeed →
  computations (st_module s) !! cid = Some c →
  wf_computation (next_unique_id (st_module s)) c →
  candidates_convertible c →
  ∃ ch' s', process_computation self ext cid ch s = (Ok ch', s').
Proof.
  intros Hext Hc [Hnd Hb] Hconv.
  unfold process_computation, lookup_computation. rewrite bind_eq, Hc.
  destruct (supported_collectives_of self c) as [|p0 ps0] eqn:Eps; [by unfold ret; eauto|].
  rewrite <- Eps.
  rewrite bind_eq, schedule_query_eq. rewrite bind_eq.
  unfold focus at 1. cbn [st_module st_accesses]. rewrite Hc.
  pose proof (supported_collectives_pre c Hnd) as [Hnd_ps _].
  destruct (convert_instructions_succeed (should_update (st_module s) cid)
              (supported_collectives_of self c) (∅, ch) c (instructions c)
              (next_unique_id (st_module s))) as ([rp ch1] & fs1 & Hloop); [done..| |].
  { unfold supported_collectives_of. rewrite Forall_fmap. apply Forall_forall.
    intros i Hi. apply list_elem_of_filter in Hi as [Hs Hi]. cbn.
    exists i. split_and!; [by apply find_list_in|by apply is_supported_sync|by apply Hconv]. }
  rewrite with_instructions_id in Hloop. rewrite Hloop. cbn [fst snd].
  destruct s as [m acc]. cbn [st_module st_accesses] in *.
  unfold should_update. destruct (schedule m) as [sched|] eqn:Hsched.
  - destruct (sched !! cid) as [sq|] eqn:Hsq.
    + rewrite bool_decide_eq_true_2 by (by eexists).
      unfold sequence, set_sequence, log_access. rewrite !bind_eq. cbn.
      rewrite Hsq. cbn. unfold ret. eauto.
    + rewrite bool_decide_eq_false_2 by (by intros [? ?]).
      rewrite !bind_eq. unfold ret. eauto.
  - rewrite !bind_eq. unfold ret. eauto.
Qed.

Lemma process_computations_succeed cids :
  ∀ ch s,
  collaborators_succeed → NoDup cids → wf_module (st_module s) →
  Forall (λ cid, ∃ c, computations (st_module s) !! cid = Some c ∧
                      candidates_convertible c) cids →
  ∃ ch' s', process_computations self ext cids ch s = (Ok ch', s').
Proof.
  induction cids as [|h cids IH]; intros ch s Hext Hnd Hwf Hall.
  { cbn. unfold ret. eauto. }
  apply NoDup_cons in Hnd as [Hh Hnd].
  apply Forall_cons in Hall as [(c & Hc & Hconv) Hall].
  destruct (process_computation_succeeds h ch s c Hext Hc (Hwf _ _ Hc) Hconv)
    as (ch1 & s1 & Hstep).
  cbn [process_computations]. rewrite bind_eq, Hstep.
  pose proof (process_computation_frame _ _ _ _ _ Hstep) as (Ha & _).
  apply IH; [done|done|by eapply process_computation_wf|].
  rewrite Forall_forall in Hall |- *. intros cid Hcid.
  destruct (Hall _ Hcid) as (c0 & Hc0 & Hconv0). exists c0. split; [|done].
  rewrite Ha; [done|]. by intros ->.
Qed.

(** X16. A run returns, and returns success, on a well-formed module when
    the collaborators report no failure and every accepted collective of a
    selected computation can be handled: its operands are instructions of
    its computation, a collective-permute has one or four operands and an
    all-gather has at least one. *)
Theorem Run_succeeds m threads :
  wf_module m → collaborators_succeed →
  (∀ cid c, cid ∈ MakeNonfusionComputations ext m threads →
            computations m !! cid = Some c → candidates_convertible c) →
  ∃ ch s', RunOnModule self ext m threads = (Ok ch, s').
Proof.
  intros Hwf Hext Hconv. unfold RunOnModule, Run. cbn [st_module].
  apply process_computations_succeed;
    [done|apply NoDup_MakeNonfusionComputations|done|].
  apply Forall_forall. intros cid Hcid. cbn. pose proof Hcid as Hcid'.
  apply elem_of_MakeNonfusionComputations in Hcid' as (c & Hc & _).
  exists c. split; [done|]. by eapply Hconv.
Qed.

(** ** A failed run and the schedule *)




Lemma candidates_convertible_alt c :
  Forall (λ i, is_supported_collective self i = true →
               Forall (λ o, is_Some (find_list (instructions c) o)) (operands i) ∧
               (opcode i = kCollectivePermute → operand_count i = 1 ∨ operand_count i = 4) ∧
               (opcode i = kAllGather → 1 ≤ operand_count i)) (instructions c) →
  candidates_convertible c.
Proof.
  intros Hall i Hi Hs. rewrite Forall_forall in Hall.
  destruct (Hall _ Hi Hs) as (Hops & Hcp & Hag). split_and!; [|done..].
  intros o Ho. rewrite Forall_forall in Hops. by apply Hops.
Qed.

(** ** How a computation grows *)

Lemma length_filter_supported (l : list HloInstruction) :
  length (filter (λ i, is_supported_collective self i = true) l)
  + length (filter (λ i, is_supported_collective self i = false) l) = length l.
Proof.
  induction l as [|a l IH]; [done|]. rewrite !filter_cons.
  destruct (is_supported_collective self a) eqn:E.
  - rewrite decide_True, decide_False by done. cbn. lia.
  - rewrite decide_False, decide_True by done. cbn. lia.
Qed.

(** X17. A successful run adds to a selected computation, net, one
    instruction for each collective it replaces (the start and the done
    for the original), and one more for each send-done custom call: none
    without separate tracking of send and recv, one for each replaced
    collective-permute when every collective-permute is tracked
    separately. *)
Theorem Run_instruction_count m threads ch s' cid c :
  wf_module m → cid ∈ MakeNonfusionComputations ext m threads →
  computations m !! cid = Some c →
  RunOnModule self ext m threads = (Ok ch, s') →
  ∃ c' k,
    computations (st_module s') !! cid = Some c' ∧
    length (instructions c')
      = length (instructions c) + length (supported_collectives_of self c) + k ∧
    k ≤ length (supported_collectives_of self c) ∧
    ((∀ i, track_send_recv_separately_ self i = false) → k = 0) ∧
    ((∀ i, opcode i = kCollectivePermute → track_send_recv_separately_ self i = true) →
     k = length (filter (λ i, is_supported_collective self i = true ∧
                              opcode i = kCollectivePermute) (instructions c))).
Proof.
  intros Hwf Hcid Hc Hrun.
  destruct (Run_effect _ _ _ _ _ _ Hwf Hcid Hc Hrun)
    as (c' & n & n' & rp' & starts & sends & created & Hc' & [Hnd Hb] & _ & Heff & _).
  destruct Heff as [Hl' Hlen Halloc Hcreated _ _ _ Hnosplit Hsplit _].
  destruct (allocated_count _ _ _ _ Halloc) as [Hcount Hle].
  exists c', (length sends). split_and!; try done.
  - rewrite Hl', length_app, length_fmap.
    rewrite <- (length_fmap unique_id created), Hcreated, length_seq, Hcount, Hlen.
    unfold supported_collectives_of at 1. rewrite unreplaced_instructions by done.
    pose proof (length_filter_supported (instructions c)) as Hsum.
    unfold supported_collectives_of. rewrite length_fmap. lia.
  - by rewrite <- Hlen.
  - intros Hno. by rewrite (Hnosplit Hno).
  - intros Hall. rewrite (Hsplit Hall). unfold supported_collectives_of.
    rewrite candidate_permutes_count; [|done|].
    + rewrite list_filter_filter. f_equal. apply list_filter_iff. intros i. tauto.
    + apply Forall_forall. intros i Hi. by apply list_elem_of_filter in Hi as [_ ?].
Qed.

(** ** Each predicate is consulted for its own kind only *)

Section OtherConfiguration.

Context (other : AsyncCollectiveCreator).
Context (Hall_reduce : ∀ i, opcode i = kAllReduce →
           convert_all_reduce_ other i = convert_all_reduce_ self i).
Context (Hall_gather : ∀ i, opcode i = kAllGather →
           convert_all_gather_ other i = convert_all_gather_ self i).
Context (Hpermute : ∀ i, opcode i = kCollectivePermute →
           convert_collective_permute_ other i = convert_collective_permute_ self i).
Context (Hall_to_all : ∀ i, opcode i = kAllToAll →
           convert_all_to_all_ other i = convert_all_to_all_ self i).
Context (Htrack : ∀ i, opcode i = kCollectivePermute →
           track_send_recv_separately_ other i = track_send_recv_separately_ self i).

Lemma is_supported_collective_agrees i :
  is_supported_collective other i = is_supported_collective self i.
Proof.
  unfold is_supported_collective.
  destruct (decide (opcode i = kAllReduce)) as [E|E];
    [rewrite Hall_reduce by done|rewrite !(bool_decide_eq_false_2 (opcode i = kAllReduce)) by done];
  (destruct (decide (opcode i = kAllGather)) as [E1|E1];
    [rewrite Hall_gather by done|rewrite !(bool_decide_eq_false_2 (opcode i = kAllGather)) by done]);
  (destruct (decide (opcode i = kCollectivePermute)) as [E2|E2];
    [rewrite Hpermute by done
    |rewrite !(bool_decide_eq_false_2 (opcode i = kCollectivePermute)) by done]);
  (destruct (decide (opcode i = kAllToAll)) as [E3|E3];
    [rewrite Hall_to_all by done
    |rewrite !(bool_decide_eq_false_2 (opcode i = kAllToAll)) by done]); done.
Qed.

Lemma supported_collectives_of_agrees c :
  supported_collectives_of other c = supported_collectives_of self c.
Proof.
  unfold supported_collectives_of. f_equal. apply list_filter_iff. intros i.
  by rewrite is_supported_collective_agrees.
Qed.

Lemma convert_instruction_agrees should p acc fs :
  convert_instruction other ext should p acc fs
  = convert_instruction self ext should p acc fs.
Proof.
  unfold convert_instruction. rewrite !bind_eq.
  destruct (deref p fs) as [[x| |] fs1]; [|done..].
  destruct (opcode x) eqn:Hop; try done.
  unfold convert_collective_permute, collective_permute_done.
  by rewrite Htrack.
Qed.

Lemma convert_instructions_agrees should ps :
  ∀ acc fs, convert_instructions other ext should ps acc fs
            = convert_instructions self ext should ps acc fs.
Proof.
  induction ps as [|p ps IH]; intros acc fs; [done|]. cbn [convert_instructions].
  rewrite !bind_eq, convert_instruction_agrees.
  destruct (convert_instruction self ext should p acc fs) as [[acc'| |] fs1]; [|done..].
  apply IH.
Qed.

Lemma bind_ext {S A B} (x : M S A) (k1 k2 : A → M S B) s :
  (∀ a s', k1 a s' = k2 a s') → bind x k1 s = bind x k2 s.
Proof. intros Hk. rewrite !bind_eq. destruct (x s) as [[a| |] s1]; [apply Hk|done..]. Qed.

Lemma bind_ext_l {S A B} (x1 x2 : M S A) (k : A → M S B) s :
  x1 s = x2 s → bind x1 k s = bind x2 k s.
Proof. intros Hx. by rewrite !bind_eq, Hx. Qed.

Lemma process_computation_agrees cid ch s :
  process_computation other ext cid ch s = process_computation self ext cid ch s.
Proof.
  unfold process_computation. apply bind_ext. intros c s1.
  rewrite supported_collectives_of_agrees.
  destruct (supported_collectives_of self c) as [|p0 ps0]; [done|].
  apply bind_ext. intros should s2. apply bind_ext_l.
  unfold focus. destruct (computations (st_module s2) !! cid); [|done].
  by rewrite convert_instructions_agrees.
Qed.

(** X18. A run depends on each conversion predicate only through what it
    answers for instructions of its own kind, and on the tracking predicate
    only through what it answers for collective-permutes: two
    configurations that agree there give the same outcome, module and
    schedule accesses. *)
Theorem predicates_matter_only_on_their_kind m threads :
  RunOnModule other ext m threads = RunOnModule self ext m threads.
Proof.
  unfold RunOnModule, Run. cbn [st_module].
  generalize (MakeNonfusionComputations ext m threads) false (mkState m []).
  intros cids. induction cids as [|cid cids IH]; intros ch s; [done|].
  cbn [process_computations]. rewrite !bind_eq, process_computation_agrees.
  destruct (process_computation self ext cid ch s) as [[ch1| |] s1]; [|done..].
  apply IH.
Qed.

End OtherConfiguration.

(** ** What is created for each replaced collective *)

Lemma kinds_created_replace_uses p d ys :
  ∀ σ m, σ !! d = None →
  Forall (λ y, unique_id y ≠ p ∧ unique_id y ≠ d) ys →
  kinds_created σ m (replace_uses p d <$> ys) = kinds_created (<[p := d]> σ) m ys.
Proof.
  induction ys as [|y ys IH]; intros σ m Hd Hall; [done|].
  apply Forall_cons in Hall as [[Hyp Hyd] Hall].
  rewrite fmap_cons. cbn [kinds_created].
  rewrite rewire_replace_uses by done.
  change (opcode (replace_uses p d y)) with (opcode y).
  change (unique_id (replace_uses p d y)) with (unique_id y).
  rewrite !IH by (done || by rewrite lookup_insert_ne).
  by rewrite (insert_insert_ne σ p (unique_id y)) by done.
Qed.

Lemma kinds_created_head x n news :
  replacement_of x n news →
  ∀ xs, kinds_created ∅ n (x :: xs)
        = (kind_of <$> news)
          ++ kinds_created (<[unique_id x := S n]> ∅) (length news + n) xs.
Proof.
  intros [s d Hs Hos _ _ Hcs Hd Hod _ _ Hcd Ht|s Hop Ht Hs Hos _ _ Hcs] xs;
    cbn [kinds_created]; rewrite rewire_empty.
  - assert (bool_decide (opcode x = kCollectivePermute) &&
            track_send_recv_separately_ self x = false) as ->.
    { destruct (decide (opcode x = kCollectivePermute)) as [E|E].
      - rewrite (Ht E). by rewrite andb_false_r.
      - by rewrite bool_decide_eq_false_2. }
    cbn. unfold kind_of. by rewrite Hs, Hos, Hcs, Hd, Hod, Hcd.
  - rewrite Ht, bool_decide_eq_true_2 by done. cbn. unfold kind_of.
    by rewrite Hs, Hos, Hcs.
Qed.

Lemma convert_instructions_kinds should ps :
  ∀ xs rp ch c l n rp' ch' fs',
  NoDup ps → NoDup (unique_id <$> l) → ids_below n l →
  Forall2 (λ p x, find_list l p = Some x ∧ is_sync_collective (opcode x) = true) ps xs →
  convert_instructions self ext should ps (rp, ch) (mkFocus (with_instructions c l) n)
    = (Ok (rp', ch'), fs') →
  kind_of <$> instructions (computation fs')
  = filter (λ k, k.1.1 ∉ ps) (kind_of <$> l) ++ kinds_created ∅ n xs.
Proof.
  induction ps as [|p rest IH]; intros xs rp ch c l n rp' ch' fs' Hps Hnd Hb Hall Hrun.
  { apply Forall2_nil_inv_l in Hall as ->. cbn in Hrun. unfold ret in Hrun. simplify_eq.
    cbn. rewrite app_nil_r. symmetry. apply filter_all, Forall_forall.
    intros ? _. apply not_elem_of_nil. }
  apply NoDup_cons in Hps as [Hp Hrest].
  apply Forall2_cons_inv_l in Hall as (x & xs' & [Hx Hsync] & Hall & ->).
  cbn [convert_instructions] in Hrun. rewrite bind_eq in Hrun.
  destruct (convert_instruction _ _ _ _ _ _) as [[[rp1 ch1]| |] fs1] eqn:Hstep; [|done..].
  apply (convert_instruction_Ok _ _ _ _ _ _ _ _ _ _ x) in Hstep
    as (news & Hnews & -> & -> & ->); [|done..].
  pose proof (find_list_lt _ _ _ _ Hb Hx) as Hplt.
  pose proof (find_list_Some _ _ _ Hx) as [_ Hid].
  assert (Forall (λ q, ∃ op, opcode_at l q = Some op ∧ is_sync_collective op = true) rest)
    as Hall'.
  { clear -Hall. induction Hall as [|q y rest ys [Hq Hs] _ IH']; constructor; [|done].
    exists (opcode y). unfold opcode_at. by rewrite Hq. }
  destruct (loop_step_pre p rest l n x news Hp Hnd Hb Hx Hall' Hnews)
    as (Hnd1 & Hb1 & Hlt & Hsame & _).
  assert (Forall (λ y, unique_id y ≠ p ∧ unique_id y ≠ S n) xs') as Hfresh.
  { clear -Hall Hlt Hp. induction Hall as [|q y rest ys [Hq Hs] _ IH']; [constructor|].
    apply Forall_cons in Hlt as [Hqn Hlt]. apply not_elem_of_cons in Hp as [Hpq Hp].
    apply find_list_Some in Hq as [_ Hq]. constructor; [|by apply IH'].
    rewrite Hq. split; [done|lia]. }
  apply (IH (replace_uses p (S n) <$> xs')) in Hrun; [|done|done|done|].
  2:{ apply Forall2_fmap_r. clear -Hall Hsame.
      induction Hall as [|q y rest ys [Hq Hs] _ IH']; [constructor|].
      apply Forall_cons in Hsame as [(y' & Hy' & Hy1) Hsame].
      constructor; [|by apply IH']. cbn. split; [|done]. congruence. }
  rewrite Hrun, (kinds_created_head _ _ _ Hnews), Hid.
  rewrite kinds_created_replace_uses by done.
  rewrite kinds_replace_list, fmap_app, filter_app.
  rewrite (filter_all _ (kind_of <$> news)).
  2:{ eapply Forall_impl; [by eapply replacement_kinds_fresh|]. cbn. intros; lia. }
  rewrite (filter_kinds_step _ _ _ _ n); [by rewrite app_assoc|done|].
  by eapply replacement_kinds_fresh.
Qed.

Lemma candidates_found (l : list HloInstruction) :
  NoDup (unique_id <$> l) →
  Forall2 (λ p x, find_list l p = Some x ∧ is_sync_collective (opcode x) = true)
    (unique_id <$> filter (λ i, is_supported_collective self i = true) l)
    (filter (λ i, is_supported_collective self i = true) l).
Proof.
  intros Hnd. apply Forall2_fmap_l, Forall_Forall2_diag, Forall_forall.
  intros i Hi. apply list_elem_of_filter in Hi as [Hs Hi]. split.
  - by apply find_list_in.
  - by apply is_supported_sync.
Qed.

Lemma process_computation_kinds cid ch s ch' s' c :
  computations (st_module s) !! cid = Some c →
  wf_computation (next_unique_id (st_module s)) c →
  process_computation self ext cid ch s = (Ok ch', s') →
  ∃ c',
    computations (st_module s') !! cid = Some c' ∧
    kind_of <$> instructions c'
    = filter (λ k, k.1.1 ∉ supported_collectives_of self c) (kind_of <$> instructions c)
      ++ kinds_created ∅ (next_unique_id (st_module s))
           (filter (λ i, is_supported_collective self i = true) (instructions c)).
Proof.
  intros Hc [Hnd Hb] H.
  destruct (decide (supported_collectives_of self c = [])) as [Hps|Hps].
  { rewrite (process_computation_skip _ _ _ c) in H by done. simplify_eq.
    exists c. split; [done|]. rewrite Hps.
    unfold supported_collectives_of in Hps. apply fmap_nil_inv in Hps. rewrite Hps.
    cbn. rewrite app_nil_r. symmetry. apply filter_all, Forall_forall.
    intros ? _. apply not_elem_of_nil. }
  unfold process_computation, lookup_computation in H. rewrite bind_eq, Hc in H.
  destruct (supported_collectives_of self c) as [|p0 ps0] eqn:Eps; [done|].
  rewrite <- Eps in *. clear Hps.
  rewrite bind_eq, schedule_query_eq in H. rewrite bind_eq in H.
  unfold focus at 1 in H. cbn [st_module st_accesses] in H. rewrite Hc in H.
  destruct (convert_instructions _ _ _ _ _ _) as [[[rp ch1]| |] fs1] eqn:Hloop;
    cbn [fst snd] in H; [|done..].
  rewrite <- (with_instructions_id c) in Hloop.
  pose proof (supported_collectives_pre c Hnd) as [Hnd_ps _].
  apply (convert_instructions_kinds _ _
           (filter (λ i, is_supported_collective self i = true) (instructions c)))
    in Hloop; [|done|done|done|by apply candidates_found].
  rewrite with_instructions_id in Hloop.
  exists (computation fs1). split; [|done].
  destruct s as [m acc]. cbn [st_module st_accesses] in *.
  unfold should_update in *. destruct (schedule m) as [sched|] eqn:Hsched.
  - destruct (sched !! cid) as [sq|] eqn:Hsq.
    + rewrite bool_decide_eq_true_2 in * by (by eexists).
      unfold sequence, set_sequence, log_access in H. rewrite !bind_eq in H. cbn in H.
      rewrite Hsq in H. cbn in H. unfold ret in H. simplify_eq. cbn.
      by rewrite lookup_insert_eq.
    + rewrite bool_decide_eq_false_2 in * by (by intros [? ?]).
      rewrite !bind_eq in H. unfold ret in H. simplify_eq. cbn.
      by rewrite lookup_insert_eq.
  - rewrite !bind_eq in H. unfold ret in H. simplify_eq. cbn.
    by rewrite lookup_insert_eq.
Qed.

Lemma Run_created_kinds m threads ch s' cid c :
  wf_module m → cid ∈ MakeNonfusionComputations ext m threads →
  computations m !! cid = Some c →
  RunOnModule self ext m threads = (Ok ch, s') →
  ∃ c' n,
    computations (st_module s') !! cid = Some c' ∧
    ids_below n (instructions c) ∧
    kind_of <$> instructions c'
    = (kind_of <$> filter (λ i, ¬ is_supported_collective self i = true) (instructions c))
      ++ kinds_created ∅ n
           (filter (λ i, is_supported_collective self i = true) (instructions c)).
Proof.
  intros Hwf Hin Hc H. unfold RunOnModule, Run in H. cbn [st_module] in H.
  eapply process_computations_at in H
    as (ch1 & s1 & ch2 & s2 & Hstep & Hwf1 & Hc1 & _ & Hc' & _);
    [|apply NoDup_MakeNonfusionComputations|done|done|done].
  destruct (process_computation_kinds _ _ _ _ _ _ Hc1 (Hwf1 _ _ Hc1) Hstep)
    as (c' & Hc2 & Hkinds).
  exists c', (next_unique_id (st_module s1)). rewrite Hc'.
  split_and!; [done|apply (Hwf1 _ _ Hc1)|].
  rewrite Hkinds. unfold supported_collectives_of.
  rewrite unreplaced_kinds; [done|]. apply (Hwf1 _ _ Hc1).
Qed.

Lemma kinds_created_news xs :
  ∀ σ n, ∃ n', news_for (opcode <$> xs) n n' (kinds_created σ n xs).
Proof.
  induction xs as [|x xs IH]; intros σ n; [exists n; constructor|].
  rewrite fmap_cons. cbn [kinds_created].
  destruct (bool_decide (opcode x = kCollectivePermute) &&
            track_send_recv_separately_ self (rewire σ x)) eqn:E.
  - apply andb_true_iff in E as [E _]. apply bool_decide_eq_true in E. rewrite E.
    destruct (IH (<[unique_id x := S n]> σ) (S (S (S n)))) as [n' Hn'].
    exists n'. by apply news_split.
  - destruct (IH (<[unique_id x := S n]> σ) (S (S n))) as [n' Hn'].
    exists n'. by apply news_pair.
Qed.

Lemma kinds_created_plain xs :
  (∀ i, track_send_recv_separately_ self i = false) →
  Forall (λ x, is_sync_collective (opcode x) = true) xs →
  ∀ σ n, Forall (λ k, k.1.2 ≠ kCustomCall) (kinds_created σ n xs) ∧
         length (kinds_created σ n xs) = 2 * length xs.
Proof.
  intros Ht. induction 1 as [|x xs Hx _ IH]; intros σ n; [by split; [constructor|]|].
  cbn [kinds_created]. rewrite Ht, andb_false_r.
  destruct (IH (<[unique_id x := S n]> σ) (S (S n))) as [IH1 IH2]. split.
  - repeat constructor; [by destruct (opcode x)..|done].
  - cbn [length]. rewrite IH2. lia.
Qed.

Lemma kinds_created_split xs :
  (∀ i, opcode i = kCollectivePermute → track_send_recv_separately_ self i = true) →
  Forall (λ x, is_sync_collective (opcode x) = true) xs →
  ∀ σ n,
    Forall (λ k, k.1.2 ≠ kCollectivePermuteDone) (kinds_created σ n xs) ∧
    length (kinds_created σ n xs)
    = 2 * length xs + length (filter (λ x, opcode x = kCollectivePermute) xs).
Proof.
  intros Ht. induction 1 as [|x xs Hx _ IH]; intros σ n; [by split; [constructor|]|].
  cbn [kinds_created]. rewrite filter_cons.
  destruct (decide (opcode x = kCollectivePermute)) as [E|E].
  - rewrite bool_decide_eq_true_2 by done. rewrite (Ht (rewire σ x)) by done.
    cbn [andb]. destruct (IH (<[unique_id x := S n]> σ) (S (S (S n)))) as [IH1 IH2]. split.
    + by repeat constructor.
    + cbn [length]. rewrite IH2. lia.
  - rewrite bool_decide_eq_false_2 by done. cbn [andb].
    destruct (IH (<[unique_id x := S n]> σ) (S (S n))) as [IH1 IH2]. split.
    + repeat constructor; [by destruct (opcode x)..|done].
    + cbn [length]. rewrite IH2. lia.
Qed.

(** C1. With predicates that accept every instance of their kind, after a
    successful run every eligible computation holds no instruction of the
    four synchronous kinds; the instructions that were not collectives are
    all still there, in order, followed by the instructions created, whose
    ids start at a counter [n] above every id of the computation. What is
    created is [kinds_created]: for each replaced collective, in order,
    exactly one start and one done of its kind, unless it is a
    collective-permute for which [track_send_recv_separately_] answers
    true on the instruction as the loop finds it (its operands already
    redirected to the dones of the collectives replaced before it), in
    which case exactly one start, one recv-done and one send-done custom
    call. So when the tracking predicate always refuses no custom call is
    created and there are two new instructions per collective, when it
    accepts every collective-permute no collective-permute-done is created
    and each collective-permute accounts for three, and in every case the
    computation has exactly one more start and one more completion
    instruction per replaced collective. *)
Theorem Run_replaces_every_collective m threads ch s' :
  wf_module m → accepts_every_instance →
  RunOnModule self ext m threads = (Ok ch, s') →
  ∀ cid c, cid ∈ MakeNonfusionComputations ext m threads →
    computations m !! cid = Some c →
    let collectives := filter (λ i, is_sync_collective (opcode i) = true) (instructions c) in
    ∃ c' n n' ks,
      computations (st_module s') !! cid = Some c' ∧
      (∀ i, i ∈ instructions c' → is_sync_collective (opcode i) = false) ∧
      kind_of <$> instructions c'
        = (kind_of <$> filter (λ i, is_sync_collective (opcode i) = false) (instructions c))
          ++ ks ∧
      news_for (opcode <$> collectives) n n' ks ∧
      ids_below n (instructions c) ∧
      ks = kinds_created ∅ n collectives ∧
      ((∀ i, track_send_recv_separately_ self i = false) →
       Forall (λ k, k.1.2 ≠ kCustomCall) ks ∧ length ks = 2 * length collectives) ∧
      ((∀ i, opcode i = kCollectivePermute → track_send_recv_separately_ self i = true) →
       Forall (λ k, k.1.2 ≠ kCollectivePermuteDone) ks ∧
       length ks = 2 * length collectives
                   + length (filter (λ x, opcode x = kCollectivePermute) collectives)) ∧
      length (filter (λ i, is_start_opcode (opcode i) = true) (instructions c'))
        = length (filter (λ i, is_start_opcode (opcode i) = true) (instructions c))
          + length collectives ∧
      length (filter (λ i, is_done_instruction i = true) (instructions c'))
        = length (filter (λ i, is_done_instruction i = true) (instructions c))
          + length collectives.
Proof.
  intros Hwf Hacc Hrun cid c Hcid Hc collectives.
  destruct (Run_created_kinds _ _ _ _ _ _ Hwf Hcid Hc Hrun) as (c' & n & Hc' & Hb & Hkinds).
  destruct (accept_all_candidates (instructions c) Hacc) as [E1 E2].
  rewrite E1, E2 in Hkinds. fold collectives in Hkinds.
  destruct (kinds_created_news collectives ∅ n) as [n' Hks].
  pose proof (sync_opcodes (instructions c)) as Hsync. fold collectives in Hsync.
  destruct (news_for_counts _ _ _ _ Hks Hsync) as [Hstarts Hdones].
  rewrite length_fmap in Hstarts, Hdones.
  assert (Forall (λ x, is_sync_collective (opcode x) = true) collectives) as Hsync'.
  { by rewrite Forall_fmap in Hsync. }
  exists c', n, n', (kinds_created ∅ n collectives).
  split_and!; [done| |done|done|done|done| | | |].
  - by eapply kinds_without_sync.
  - intros Ht. by apply kinds_created_plain.
  - intros Ht. by apply kinds_created_split.
  - rewrite (length_filter_kinds (λ k, is_start_opcode k.1.2)), Hkinds, filter_app,
      length_app, Hstarts.
    rewrite (length_filter_not_sync (λ k, is_start_opcode k.1.2)); [done|].
    intros i. cbn. by destruct (opcode i).
  - rewrite (length_filter_kinds (λ k, is_done_kind k.1.2 k.2)), Hkinds, filter_app,
      length_app, Hdones.
    rewrite (length_filter_not_sync (λ k, is_done_kind k.1.2 k.2)); [done|].
    intros i. cbn. by destruct (opcode i).
Qed.

(** ** The patched schedule, slot by slot *)

Lemma aligned_lookups (R : nat → nat → Prop) ps starts :
  NoDup ps → Forall2 R ps starts →
  Forall2 (λ p a, R p a ∧ dones_of ps starts !! p = Some (S a) ∧
                  pairs_of ps starts !! p = Some (mkReplacedAsync a (S a))) ps starts.
Proof.
  intros Hnd HR.
  cut (∀ (D : gmap nat nat) (P : gmap nat ReplacedAsync),
         (∀ q, q ∈ ps → D !! q = dones_of ps starts !! q ∧
                         P !! q = pairs_of ps starts !! q) →
         Forall2 (λ p a, R p a ∧ D !! p = Some (S a) ∧
                         P !! p = Some (mkReplacedAsync a (S a))) ps starts).
  { intros H. by apply H. }
  induction HR as [|p a ps starts Hpa _ IH]; intros D P Hagree; [constructor|].
  apply NoDup_cons in Hnd as [Hp Hnd].
  change (dones_of (p :: ps) (a :: starts)) with (<[p := S a]> (dones_of ps starts))
    in Hagree.
  change (pairs_of (p :: ps) (a :: starts))
    with (<[p := mkReplacedAsync a (S a)]> (pairs_of ps starts)) in Hagree.
  constructor.
  - destruct (Hagree p) as [-> ->]; [by left|]. by rewrite !lookup_insert_eq.
  - apply IH; [done|]. intros q Hq. destruct (Hagree q) as [-> ->]; [by right|].
    rewrite !lookup_insert_ne by (by intros ->). done.
Qed.

Lemma start_opcode_is_start op :
  is_sync_collective op = true → is_start_opcode (start_opcode op) = true.
Proof. by destruct op. Qed.

Lemma kind_of_rewire σ i : kind_of (rewire σ i) = kind_of i.
Proof. done. Qed.

Lemma Run_effect_kinds m threads ch s' cid c :
  wf_module m → cid ∈ MakeNonfusionComputations ext m threads →
  computations m !! cid = Some c →
  RunOnModule self ext m threads = (Ok ch, s') →
  ∃ c' n n' rp' starts sends created,
    computations (st_module s') !! cid = Some c' ∧
    wf_computation n c ∧ wf_computation n' c' ∧
    loop_effect (bool_decide (is_Some (sched_entry m cid)))
      (supported_collectives_of self c) c (instructions c) n ∅
      c' (instructions c') n' rp' starts sends created ∧
    sched_entry (st_module s') cid
      = update_sequence (pairs_of (supported_collectives_of self c) starts)
          <$> sched_entry m cid ∧
    kind_of <$> created
      = kinds_created ∅ n
          (filter (λ i, is_supported_collective self i = true) (instructions c)).
Proof.
  intros Hwf Hin Hc H. unfold RunOnModule, Run in H. cbn [st_module] in H.
  eapply process_computations_at in H
    as (ch1 & s1 & ch2 & s2 & Hstep & Hwf1 & Hc1 & He1 & Hc' & He');
    [|apply NoDup_MakeNonfusionComputations|done|done|done].
  cbn [st_module] in He1.
  pose proof (process_computation_wf _ _ _ _ _ Hwf1 Hstep) as Hwf2.
  destruct (process_computation_effect _ _ _ _ _ _ Hc1 (Hwf1 _ _ Hc1) Hstep)
    as (c' & rp' & starts & sends & created & Hc2 & Heff & Hsched).
  destruct (process_computation_kinds _ _ _ _ _ _ Hc1 (Hwf1 _ _ Hc1) Hstep)
    as (c'' & Hc2' & Hkinds).
  rewrite Hc2 in Hc2'. injection Hc2' as <-.
  exists c', (next_unique_id (st_module s1)), (next_unique_id (st_module s2)),
    rp', starts, sends, created.
  rewrite Hc', He', Hsched, <- He1, <- should_update_entry.
  split_and!; try done; [apply (Hwf1 _ _ Hc1)|apply (Hwf2 _ _ Hc2)|].
  destruct (Hwf1 _ _ Hc1) as [Hnd _].
  rewrite (eff_instructions _ _ _ _ _ _ _ _ _ _ _ _ _ Heff), fmap_app in Hkinds.
  rewrite <- list_fmap_compose in Hkinds.
  rewrite (list_fmap_ext (kind_of ∘ rewire _) kind_of _) in Hkinds
    by (intros; apply kind_of_rewire).
  unfold supported_collectives_of in Hkinds.
  rewrite unreplaced_kinds, unreplaced_instructions in Hkinds by done.
  rewrite (list_filter_iff (λ i, ¬ is_supported_collective self i = true)
             (λ i, is_supported_collective self i = false)) in Hkinds.
  - by apply app_inv_head in Hkinds.
  - intros i. by destruct (is_supported_collective self i).
Qed.

(** C3. A scheduled eligible computation whose schedule lists exactly its
    instructions. After a successful run the computation holds its
    unreplaced instructions, their operands redirected to the dones, and
    then the created instructions, whose ids are the consecutive ids from a
    counter [n] above every old id and whose kinds are [kinds_created] of
    the candidates (a start and a done each, or a start, a recv-done and a
    send-done where the tracking predicate says so); the candidates took
    their start ids from that counter in the order in which the loop
    replaced them, the done of a start [s] being [S s]. The new schedule is the old one patched
    with exactly these pairs. So its length is N + k, the unreplaced
    instructions keep their order, and for each replaced instruction [p],
    with the start [s] allocated for it: the pair recorded for [p] is
    [(s, S s)]; the users of [p] now refer to [S s]; [s] is a created
    start of the kind of [p], [S s] is a created done with the shape of
    [p] whose only operand is [s]; and the slot of [p] holds [s]
    immediately followed by [S s]. *)
Theorem Run_schedule_consistent m threads ch s' cid c sq :
  wf_module m → cid ∈ MakeNonfusionComputations ext m threads →
  computations m !! cid = Some c →
  sched_entry m cid = Some sq → sq ≡ₚ unique_id <$> instructions c →
  RunOnModule self ext m threads = (Ok ch, s') →
  let replaced := supported_collectives_of self c in
  ∃ c' n n' starts sends created seq',
    computations (st_module s') !! cid = Some c' ∧
    sched_entry (st_module s') cid = Some seq' ∧
    ids_below n (instructions c) ∧
    instructions c'
      = (rewire (dones_of replaced starts)
           <$> filter (λ i, unique_id i ∉ replaced) (instructions c)) ++ created ∧
    unique_id <$> created = seq n (n' - n) ∧
    kind_of <$> created
      = kinds_created ∅ n
          (filter (λ i, is_supported_collective self i = true) (instructions c)) ∧
    allocated n starts sends n' ∧
    seq' = update_sequence (pairs_of replaced starts) sq ∧
    length seq' = length sq + length replaced ∧
    filter (λ p, p ∈ sq ∧ p ∉ replaced) seq' = filter (λ p, p ∉ replaced) sq ∧
    (∀ p, is_Some (pairs_of replaced starts !! p) ↔ p ∈ replaced) ∧
    Forall2 (λ p s,
      pairs_of replaced starts !! p = Some (mkReplacedAsync s (S s)) ∧
      dones_of replaced starts !! p = Some (S s) ∧
      (∃ x si di,
         find_instruction c p = Some x ∧
         find_instruction c' s = Some si ∧ find_instruction c' (S s) = Some di ∧
         si ∈ created ∧ di ∈ created ∧
         opcode si = start_opcode (opcode x) ∧ is_start_opcode (opcode si) = true ∧
         is_done_instruction di = true ∧ shape di = shape x ∧ operands di = [s]) ∧
      ∀ l1 l2, sq = l1 ++ p :: l2 →
        seq' = update_sequence (pairs_of replaced starts) l1
               ++ s :: S s :: update_sequence (pairs_of replaced starts) l2)
      replaced starts.
Proof.
  intros Hwf Hcid Hc Hsq Hperm Hrun replaced.
  destruct (Run_effect_kinds _ _ _ _ _ _ Hwf Hcid Hc Hrun)
    as (c' & n & n' & rp' & starts & sends & created & Hc' & [Hnd Hb] & [Hnd' Hb']
        & Heff & Hsched & Hkinds).
  destruct Heff as [Hl' Hlen Halloc Hcreated _ Hpairs _ _ _ _].
  fold replaced in Hl', Hlen, Hpairs, Hsched.
  pose proof (supported_collectives_pre c Hnd) as [Hnd_ps Hsync]. fold replaced in Hnd_ps, Hsync.
  rewrite Hsq in Hsched. cbn in Hsched.
  assert (∀ p, is_Some (pairs_of replaced starts !! p) ↔ p ∈ replaced) as Hdom.
  { intros p. split.
    - intros Hp. destruct (decide (p ∈ replaced)) as [|Hn]; [done|].
      rewrite pairs_of_outside in Hp by done. by destruct Hp.
    - intros Hp. destruct (zip_lookups _ _ _ Hnd_ps Hpairs _ Hp) as (a & _ & _ & ->).
      by eexists. }
  assert (∀ p, p ∈ sq → p < n) as Hlt.
  { intros p Hp. rewrite Hperm in Hp. apply ids_below_alt in Hb.
    rewrite Forall_forall in Hb. by apply Hb. }
  assert (NoDup sq) as Hnd_sq by (by rewrite Hperm).
  assert (∀ p, p ∈ replaced → p ∈ sq) as Hsub.
  { intros p Hp. rewrite Hperm. unfold replaced, supported_collectives_of in Hp.
    apply list_elem_of_fmap in Hp as (i & -> & Hi).
    apply list_elem_of_filter in Hi as [_ Hi]. apply list_elem_of_fmap. eauto. }
  assert (∀ i, i ∈ created → n ≤ unique_id i) as Hfresh.
  { intros i Hi. assert (unique_id i ∈ seq n (n' - n)) as Hi'.
    { rewrite <- Hcreated. apply list_elem_of_fmap. eauto. }
    apply elem_of_seq in Hi'. lia. }
  exists c', n, n', starts, sends, created, (update_sequence (pairs_of replaced starts) sq).
  split_and!; try done.
  - rewrite update_sequence_slots_length. f_equal. by apply replaced_slots_length.
  - rewrite update_sequence_filter.
    + apply filter_ext_elem. intros p Hp. tauto.
    + intros p x Hx. assert (p ∈ replaced) as Hp by (apply Hdom; by eexists).
      destruct (zip_lookups _ _ _ Hnd_ps Hpairs _ Hp)
        as (a & (_ & si & _ & _ & Hsi & _ & Hida & _) & _ & Ha).
      rewrite Hx in Ha. simplify_eq. cbn. apply Hfresh in Hsi.
      split_and!; [tauto|..]; intros [Hmem _]; apply Hlt in Hmem; lia.
  - eapply Forall2_transfer; [exact (aligned_lookups _ _ _ Hnd_ps Hpairs)|].
    apply Forall_forall. intros p Hp a.
    intros ((x & si & di & Hx & Hsi & Hdi & Hida & Hidd & Hop & Hdone & Hsh & Hops)
            & HD & HP).
    split_and!; [done|done| |].
    + exists x, si, di.
      assert (si ∈ instructions c') as Hsi' by (rewrite Hl'; apply elem_of_app; by right).
      assert (di ∈ instructions c') as Hdi' by (rewrite Hl'; apply elem_of_app; by right).
      split_and!; try done.
      * rewrite <- Hida. by apply find_instruction_in.
      * rewrite <- Hidd. by apply find_instruction_in.
      * rewrite Hop. apply start_opcode_is_start.
        rewrite Forall_forall in Hsync. destruct (Hsync _ Hp) as (op & Hopx & Hs).
        unfold opcode_at in Hopx. rewrite Hx in Hopx. cbn in Hopx. by simplify_eq.
    + intros l1 l2 ->. rewrite update_sequence_app. cbn [update_sequence]. by rewrite HP.
Qed.


End Properties.

(** * The properties on the example inputs *)

Import Examples.

(** A decidable proposition that evaluates to true. *)
Ltac by_evaluation := apply (bool_decide_unpack _); vm_compute; exact I.

Lemma module_four_wf : wf_module module_four.
Proof.
  change (map_Forall
            (λ _ c, NoDup (unique_id <$> instructions c) ∧
                    Forall (λ i, unique_id i < 9) (instructions c))
            (computations module_four)).
  by_evaluation.
Defined.

Lemma module_one_wf : wf_module module_one.
Proof.
  change (map_Forall
            (λ _ c, NoDup (unique_id <$> instructions c) ∧
                    Forall (λ i, unique_id i < 4) (instructions c))
            (computations module_one)).
  by_evaluation.
Defined.

Lemma accept_all_accepts : accepts_every_instance accept_all.
Proof. intros i. split_and!; reflexivity. Defined.

Lemma Run_replaces_every_collective_witness :
  wf_module module_four ∧ accepts_every_instance accept_all_split ∧
  let collectives :=
    filter (λ i, is_sync_collective (opcode i) = true) (instructions four_collectives) in
  ∃ c' n n' ks,
    computations (st_module (RunOnModule accept_all_split working module_four ∅).2) !! 1
      = Some c' ∧
    (∀ i, i ∈ instructions c' → is_sync_collective (opcode i) = false) ∧
    kind_of <$> instructions c'
      = (kind_of <$> filter (λ i, is_sync_collective (opcode i) = false)
                       (instructions four_collectives)) ++ ks ∧
    news_for (opcode <$> collectives) n n' ks ∧
    ids_below n (instructions four_collectives) ∧
    ks = kinds_created accept_all_split ∅ n collectives ∧
    ((∀ i, track_send_recv_separately_ accept_all_split i = false) →
     Forall (λ k, k.1.2 ≠ kCustomCall) ks ∧ length ks = 2 * length collectives) ∧
    ((∀ i, opcode i = kCollectivePermute →
           track_send_recv_separately_ accept_all_split i = true) →
     Forall (λ k, k.1.2 ≠ kCollectivePermuteDone) ks ∧
     length ks = 2 * length collectives
                 + length (filter (λ x, opcode x = kCollectivePermute) collectives)) ∧
    length (filter (λ i, is_start_opcode (opcode i) = true) (instructions c'))
      = length (filter (λ i, is_start_opcode (opcode i) = true)
                  (instructions four_collectives)) + length collectives ∧
    length (filter (λ i, is_done_instruction i = true) (instructions c'))
      = length (filter (λ i, is_done_instruction i = true)
                  (instructions four_collectives)) + length collectives.
Proof.
  assert (accepts_every_instance accept_all_split) as Hacc.
  { intros i. split_and!; reflexivity. }
  split; [exact module_four_wf|]. split; [exact Hacc|].
  apply (Run_replaces_every_collective accept_all_split working module_four ∅ true
           (RunOnModule accept_all_split working module_four ∅).2
           module_four_wf Hacc).
  - vm_compute. reflexivity.
  - by_evaluation.
  - reflexivity.
Defined.

Lemma Run_schedule_consistent_witness :
  wf_module module_four ∧
  sched_entry module_four 1 = Some [1; 2; 3; 4; 5; 6] ∧
  supported_collectives_of accept_all four_collectives = [2; 3; 4; 5] ∧
  ∃ seq',
    sched_entry (st_module (RunOnModule accept_all working module_four ∅).2) 1
      = Some seq' ∧
    length seq' = 6 + 4 ∧
    filter (λ p, p ∈ [1; 2; 3; 4; 5; 6] ∧ p ∉ [2; 3; 4; 5]) seq' = [1; 6].
Proof.
  split; [exact module_four_wf|]. split; [reflexivity|]. split; [reflexivity|].
  destruct (Run_schedule_consistent accept_all working module_four ∅ true
              (RunOnModule accept_all working module_four ∅).2 1 four_collectives
              [1; 2; 3; 4; 5; 6] module_four_wf)
    as (c' & n & n' & starts & sends & created & seq' & _ & Hseq & _ & _ & _ & _ & _ & _
        & Hlen & Hfilter & _).
  - by_evaluation.
  - reflexivity.
  - reflexivity.
  - reflexivity.
  - vm_compute. reflexivity.
  - exists seq'. split; [exact Hseq|]. split; [exact Hlen|]. exact Hfilter.
Defined.

(** C4, the claim as stated fails: one all-reduce in a schedule of three
    slots gives four slots, not five. *)
Lemma schedule_length_is_not_plus_twice :
  supported_collectives_of accept_all one_all_reduce = [2] ∧
  sched_entry module_one 1 = Some [1; 2; 3] ∧
  sched_entry (st_module (RunOnModule accept_all working module_one ∅).2) 1
    = Some [1; 4; 5; 3] ∧
  length [1; 4; 5; 3]
    ≠ length [1; 2; 3] + 2 * length (supported_collectives_of accept_all one_all_reduce).
Proof.
  split_and!; [reflexivity|reflexivity|vm_compute; reflexivity|].
  vm_compute. discriminate.
Qed.

Lemma update_sequence_length_witness :
  NoDup [1; 2; 3] ∧
  length (update_sequence {[ 2 := mkReplacedAsync 4 5 ]} [1; 2; 3])
    = length [1; 2; 3] + size ({[ 2 := mkReplacedAsync 4 5 ]} : gmap nat ReplacedAsync) ∧
  filter (λ p, ({[ 2 := mkReplacedAsync 4 5 ]} : gmap nat ReplacedAsync) !! p = None)
         [1; 2; 3]
    `sublist_of` update_sequence {[ 2 := mkReplacedAsync 4 5 ]} [1; 2; 3] ∧
  update_sequence {[ 2 := mkReplacedAsync 4 5 ]} [1; 2; 3]
    = [1; 2; 3] ≫= (λ p, match ({[ 2 := mkReplacedAsync 4 5 ]} : gmap nat ReplacedAsync) !! p
                         with Some it => [start it; done it] | None => [p] end) ∧
  (∀ l1 p l2 it, [1; 2; 3] = l1 ++ p :: l2 →
     ({[ 2 := mkReplacedAsync 4 5 ]} : gmap nat ReplacedAsync) !! p = Some it →
     update_sequence {[ 2 := mkReplacedAsync 4 5 ]} [1; 2; 3]
     = update_sequence {[ 2 := mkReplacedAsync 4 5 ]} l1
       ++ start it :: done it :: update_sequence {[ 2 := mkReplacedAsync 4 5 ]} l2) ∧
  (∀ l1 p l2, [1; 2; 3] = l1 ++ p :: l2 →
     ({[ 2 := mkReplacedAsync 4 5 ]} : gmap nat ReplacedAsync) !! p = None →
     update_sequence {[ 2 := mkReplacedAsync 4 5 ]} [1; 2; 3]
     = update_sequence {[ 2 := mkReplacedAsync 4 5 ]} l1
       ++ p :: update_sequence {[ 2 := mkReplacedAsync 4 5 ]} l2).
Proof.
  assert (NoDup [1; 2; 3]) as Hnd by by_evaluation.
  split; [exact Hnd|].
  apply (update_sequence_length {[ 2 := mkReplacedAsync 4 5 ]} [1; 2; 3] Hnd).
  intros p [x Hx]. revert p x Hx.
  change (map_Forall (λ p _, p ∈ [1; 2; 3])
            ({[ 2 := mkReplacedAsync 4 5 ]} : gmap nat ReplacedAsync)).
  by_evaluation.
Defined.

(** C2, the claim as stated fails: with a four-operand collective-permute
    whose shape inference fails, the run does not return a failure, it
    dies. *)
Lemma failed_shape_inference_is_not_returned :
  operand_count (permute 5 [1; 2; 3; 4]) = 4 ∧
  InferCollectivePermuteStartShape failing_inference [f32; f32; f32; f32]
    = ErrorStatus bad_shapes ∧
  RunOnModule accept_all failing_inference module_permute ∅
    = (Aborted (BadStatusOrAccess bad_shapes), mkState module_permute [AccHasSchedule 1]) ∧
  ¬ ∃ st, (RunOnModule accept_all failing_inference module_permute ∅).1 = Failed st.
Proof.
  split_and!; [reflexivity|reflexivity|vm_compute; reflexivity|].
  intros [st Hst]. vm_compute in Hst. discriminate.
Qed.

Lemma failed_shape_inference_is_fatal_witness :
  operand_count (permute 5 [1; 2; 3; 4]) = 4 ∧
  convert_collective_permute accept_all failing_inference true (permute 5 [1; 2; 3; 4]) ∅
    (mkFocus permute_four_operands 6)
  = (Aborted (BadStatusOrAccess bad_shapes), mkFocus permute_four_operands 6).
Proof.
  split; [reflexivity|].
  apply (failed_shape_inference_is_fatal accept_all failing_inference true
           (permute 5 [1; 2; 3; 4]) ∅ (mkFocus permute_four_operands 6)
           [f32; f32; f32; f32] bad_shapes).
  - reflexivity.
  - reflexivity.
  - reflexivity.
Defined.

Lemma start_carries_metadata_and_backend_config_witness :
  let run p := convert_instruction accept_all working true p (∅, false)
                 (mkFocus four_collectives 9) in
  (∃ st, find_instruction (computation (run 2).2) 9 = Some st ∧
         opcode st = kAllReduceStart ∧
         metadata st = "reduce.cc:7" ∧ backend_config st = "{ring}") ∧
  (∃ st, find_instruction (computation (run 3).2) 9 = Some st ∧
         opcode st = kAllGatherStart ∧ metadata st = "" ∧ backend_config st = "") ∧
  (∃ st, find_instruction (computation (run 4).2) 9 = Some st ∧
         opcode st = kCollectivePermuteStart ∧
         metadata st = "permute.cc:12" ∧ backend_config st = "{fast}") ∧
  (∃ st, find_instruction (computation (run 5).2) 9 = Some st ∧
         opcode st = kAsyncStart ∧ metadata st = "" ∧ backend_config st = "").
Proof.
  intros run.
  assert (ids_below 9 (instructions four_collectives)) as Hb
    by (unfold ids_below; by_evaluation).
  split_and!.
  - apply (start_carries_metadata_and_backend_config accept_all working true 2 ∅ false
             four_collectives 9 (all_reduce 2 [1]) ({[ 2 := mkReplacedAsync 9 10 ]}, true)
             (run 2).2 Hb); [reflexivity|reflexivity|vm_compute; reflexivity].
  - apply (start_carries_metadata_and_backend_config accept_all working true 3 ∅ false
             four_collectives 9 (instr 3 kAllGather [2]) ({[ 3 := mkReplacedAsync 9 10 ]}, true)
             (run 3).2 Hb); [reflexivity|reflexivity|vm_compute; reflexivity].
  - apply (start_carries_metadata_and_backend_config accept_all working true 4 ∅ false
             four_collectives 9 (permute 4 [3]) ({[ 4 := mkReplacedAsync 9 10 ]}, true)
             (run 4).2 Hb); [reflexivity|reflexivity|vm_compute; reflexivity].
  - apply (start_carries_metadata_and_backend_config accept_all working true 5 ∅ false
             four_collectives 9 (instr 5 kAllToAll [4; 1])
             ({[ 5 := mkReplacedAsync 9 10 ]}, true)
             (run 5).2 Hb); [reflexivity|reflexivity|vm_compute; reflexivity].
Defined.

Lemma split_tracking_creates_recv_done_and_send_done_witness :
  let cp := permute 2 [1] in
  ids_below 4 (instructions permute_one_operand) ∧
  find_instruction permute_one_operand (unique_id cp) = Some cp ∧
  track_send_recv_separately_ accept_all_split cp = true ∧
  ∃ rp' fs',
    convert_collective_permute accept_all_split working true cp ∅
      (mkFocus permute_one_operand 4) = (Ok rp', fs') ∧
    rp' = {[ 2 := mkReplacedAsync 4 5 ]} ∧
    ∃ recv send,
      find_instruction (computation fs') 5 = Some recv ∧
      find_instruction (computation fs') 6 = Some send ∧
      custom_call_target recv = "$cp_recv_done" ∧
      custom_call_target send = "$cp_send_done" ∧
      control_successors recv = [6] ∧ control_predecessors send = [5] ∧
      find_instruction (computation fs') 2 = None.
Proof.
  intros cp.
  assert (ids_below 4 (instructions permute_one_operand)) as Hb
    by (unfold ids_below; by_evaluation).
  split; [exact Hb|]. split; [reflexivity|]. split; [reflexivity|].
  destruct (split_tracking_creates_recv_done_and_send_done accept_all_split working true
              cp ∅ permute_one_operand 4 Hb eq_refl eq_refl) as [Hprops Hreturns].
  destruct (Hreturns 1 eq_refl) as (rp' & fs' & Hrun).
  - exists (instr 1 kParameter []). reflexivity.
  - reflexivity.
  - reflexivity.
  - exists rp', fs'. split; [exact Hrun|].
    destruct (Hprops rp' fs' Hrun)
      as (st & recv & send & _ & _ & Hrecv & Hsend & _ & Htr & _ & _ & _ & _ & Hts & _ & _
          & _ & Hcs & Hcp & Hgone & _ & _ & Hrp).
    split; [exact Hrp|]. exists recv, send.
    split_and!; assumption.
Defined.

Lemma Run_skips_computation_without_candidate_witness :
  computations module_four !! 2 = Some plain ∧
  (RunOnModule accept_all working module_four ∅).1 = Ok true ∧
  computations (st_module (RunOnModule accept_all working module_four ∅).2) !! 2
    = Some plain ∧
  sched_entry (st_module (RunOnModule accept_all working module_four ∅).2) 2
    = sched_entry module_four 2 ∧
  Forall (λ a, access_computation a ≠ 2)
    (st_accesses (RunOnModule accept_all working module_four ∅).2).
Proof.
  split; [reflexivity|]. split; [vm_compute; reflexivity|].
  apply (Run_skips_computation_without_candidate accept_all working module_four ∅
           (Ok true) (RunOnModule accept_all working module_four ∅).2 2 plain).
  - reflexivity.
  - apply Forall_forall. by_evaluation.
  - vm_compute. reflexivity.
Defined.

Lemma second_Run_is_noop_witness :
  let s1 := (RunOnModule accept_all working module_four ∅).2 in
  RunOnModule accept_all working module_four ∅ = (Ok true, s1) ∧
  collectives_absent working (st_module s1) ∅ ∧
  RunOnModule accept_all working (st_module s1) ∅ = (Ok false, mkState (st_module s1) []).
Proof.
  intros s1.
  assert (RunOnModule accept_all working module_four ∅ = (Ok true, s1)) as Hrun
    by (vm_compute; reflexivity).
  split; [exact Hrun|].
  exact (proj2 (second_Run_is_noop accept_all working module_four ∅ true s1 Hrun)
           module_four_wf accept_all_accepts).
Defined.

Lemma collective_permute_operand_count_check_witness :
  convert_collective_permute accept_all working true (permute 2 [1; 1]) ∅
    (mkFocus permute_two_operands 3)
  = (Aborted (CheckEqOperandCount 2 4), mkFocus permute_two_operands 3) ∧
  ∀ a b,
    (convert_collective_permute accept_all working true (permute 5 [1; 2; 3; 4]) ∅
       (mkFocus permute_four_operands 6)).1
    ≠ Aborted (CheckEqOperandCount a b).
Proof.
  split.
  - apply (proj1 (collective_permute_operand_count_check accept_all working true
                    (permute 2 [1; 1]) ∅ (mkFocus permute_two_operands 3)));
      vm_compute; discriminate.
  - apply (proj2 (collective_permute_operand_count_check accept_all working true
                    (permute 5 [1; 2; 3; 4]) ∅ (mkFocus permute_four_operands 6))).
    right. reflexivity.
Defined.

Lemma single_operand_start_has_no_disjoint_attr_witness :
  let cp := permute 2 [1] in
  let fs' := (convert_collective_permute accept_all working true cp ∅
                (mkFocus permute_one_operand 4)).2 in
  operand_count cp = 1 ∧ disjoint_read_write_regions cp = true ∧
  ∃ st, find_instruction (computation fs') 4 = Some st ∧
        opcode st = kCollectivePermuteStart ∧
        disjoint_read_write_regions st = false.
Proof.
  intros cp fs'.
  assert (ids_below 4 (instructions permute_one_operand)) as Hb
    by (unfold ids_below; by_evaluation).
  split; [reflexivity|]. split; [reflexivity|].
  destruct (single_operand_start_has_no_disjoint_attr accept_all working true cp ∅
              permute_one_operand 4 {[ 2 := mkReplacedAsync 4 5 ]} fs' Hb eq_refl)
    as (st & Hst & Hop & Hone & _).
  - vm_compute. reflexivity.
  - exists st. split; [exact Hst|]. split; [exact Hop|]. apply Hone. reflexivity.
Defined.

(** ** The further properties on the example inputs *)

Lemma module_threads_wf : wf_module module_threads.
Proof.
  change (map_Forall
            (λ _ c, NoDup (unique_id <$> instructions c) ∧
                    Forall (λ i, unique_id i < 9) (instructions c))
            (computations module_threads)).
  by_evaluation.
Defined.

Lemma working_succeeds : collaborators_succeed working.
Proof. split_and!; try (intros; reflexivity). intros shs. by eexists. Defined.

Lemma Run_leaves_unselected_computation_witness :
  let s' := (RunOnModule accept_all working module_threads {["main"]}).2 in
  MakeNonfusionComputations working module_threads {["main"]} = [1] ∧
  RunOnModule accept_all working module_threads {["main"]} = (Ok true, s') ∧
  computations module_threads !! 2 = Some fused_reduce ∧
  computations module_threads !! 3 = Some host_reduce ∧
  (computations (st_module s') !! 2 = computations module_threads !! 2 ∧
   sched_entry (st_module s') 2 = sched_entry module_threads 2 ∧
   Forall (λ a, access_computation a ≠ 2) (st_accesses s')) ∧
  (computations (st_module s') !! 3 = computations module_threads !! 3 ∧
   sched_entry (st_module s') 3 = sched_entry module_threads 3 ∧
   Forall (λ a, access_computation a ≠ 3) (st_accesses s')).
Proof.
  intros s'.
  assert (RunOnModule accept_all working module_threads {["main"]} = (Ok true, s')) as Hrun
    by (vm_compute; reflexivity).
  split; [vm_compute; reflexivity|]. split; [exact Hrun|].
  split; [reflexivity|]. split; [reflexivity|]. split.
  - apply (Run_leaves_unselected_computation accept_all working module_threads {["main"]}
             (Ok true) s' 2); [by_evaluation|exact Hrun].
  - apply (Run_leaves_unselected_computation accept_all working module_threads {["main"]}
             (Ok true) s' 3); [by_evaluation|exact Hrun].
Defined.

Lemma Run_changed_iff_candidate_witness :
  let s' := (RunOnModule accept_all working module_four ∅).2 in
  wf_module module_four ∧
  RunOnModule accept_all working module_four ∅ = (Ok true, s') ∧
  (true = true ↔
   ∃ cid c i, cid ∈ MakeNonfusionComputations working module_four ∅ ∧
              computations module_four !! cid = Some c ∧ i ∈ instructions c ∧
              is_supported_collective accept_all i = true) ∧
  (true = false → s' = mkState module_four []).
Proof.
  intros s'.
  assert (RunOnModule accept_all working module_four ∅ = (Ok true, s')) as Hrun
    by (vm_compute; reflexivity).
  split; [exact module_four_wf|]. split; [exact Hrun|].
  exact (Run_changed_iff_candidate accept_all working module_four ∅ true s'
           module_four_wf Hrun).
Defined.

Lemma Run_without_schedule_only_asks_has_schedule_witness :
  let r := RunOnModule accept_all working module_permute ∅ in
  schedule module_permute = None ∧ r.1 = Ok true ∧
  schedule (st_module r.2) = None ∧
  Forall (λ a, is_has_schedule a = true) (st_accesses r.2).
Proof.
  intros r. split; [reflexivity|]. split; [vm_compute; reflexivity|].
  apply (Run_without_schedule_only_asks_has_schedule accept_all working module_permute ∅
           (Ok true) r.2); [reflexivity|vm_compute; reflexivity].
Defined.

Lemma Run_never_schedules_unscheduled_computation_witness :
  let r := RunOnModule accept_all working module_partly_scheduled ∅ in
  sched_entry module_partly_scheduled 3 = None ∧ r.1 = Ok true ∧
  computations (st_module r.2) !! 3 ≠ computations module_partly_scheduled !! 3 ∧
  sched_entry (st_module r.2) 3 = None ∧
  Forall (λ a, access_computation a = 3 → touches_sequence a = false) (st_accesses r.2).
Proof.
  intros r. split; [reflexivity|]. split; [vm_compute; reflexivity|].
  split; [vm_compute; discriminate|].
  apply (Run_never_schedules_unscheduled_computation accept_all working
           module_partly_scheduled ∅ (Ok true) r.2 3); [reflexivity|vm_compute; reflexivity].
Defined.

Lemma Run_returns_only_reported_failures_witness :
  let r := RunOnModule accept_all failing_replace module_one ∅ in
  r.1 = Failed (mkStatus "cannot replace" ["replacing instruction"]) ∧
  returned_failure failing_replace (mkStatus "cannot replace" ["replacing instruction"]).
Proof.
  intros r. split; [vm_compute; reflexivity|].
  apply (Run_returns_only_reported_failures accept_all failing_replace module_one ∅
           (mkStatus "cannot replace" ["replacing instruction"]) r.2).
  vm_compute. reflexivity.
Defined.

Lemma permute_and_all_to_all_failures_have_no_context_witness :
  let r := convert_instruction accept_all failing_replace true 2 (∅, false)
             (mkFocus permute_one_operand 4) in
  r.1 = Failed replace_refused ∧
  error_context replace_refused = [] ∧
  reported_by_collaborator failing_replace replace_refused.
Proof.
  intros r. split; [vm_compute; reflexivity|]. split; [reflexivity|].
  apply (permute_and_all_to_all_failures_have_no_context accept_all failing_replace true 2
           (∅, false) (mkFocus permute_one_operand 4) (permute 2 [1]) replace_refused r.2).
  - reflexivity.
  - left. reflexivity.
  - vm_compute. reflexivity.
Defined.

Lemma failed_replacement_leaves_the_start_witness :
  let r := convert_instruction accept_all failing_replace true 2 (∅, false)
             (mkFocus one_all_reduce 4) in
  r.1 = Failed (mkStatus "cannot replace" ["replacing instruction"]) ∧
  ∃ e c0 d st rest,
    ReplaceInstruction_failure failing_replace c0 2 d = Some e ∧
    mkStatus "cannot replace" ["replacing instruction"]
      = replacing_context failing_replace e (all_reduce 2 [1]) ∧
    instructions (computation r.2) = instructions one_all_reduce ++ st :: rest ∧
    unique_id st = 4 ∧ opcode st = start_opcode (opcode (all_reduce 2 [1])) ∧
    operands st = operands (all_reduce 2 [1]) ∧
    metadata st = metadata (all_reduce 2 [1]) ∧
    backend_config st = backend_config (all_reduce 2 [1]).
Proof.
  intros r. split; [vm_compute; reflexivity|].
  apply (failed_replacement_leaves_the_start accept_all failing_replace true 2 ∅ false
           one_all_reduce 4 (all_reduce 2 [1])
           (mkStatus "cannot replace" ["replacing instruction"]) r.2).
  - unfold ids_below. by_evaluation.
  - reflexivity.
  - left. reflexivity.
  - vm_compute. reflexivity.
Defined.

Lemma all_reduce_start_keeps_attributes_witness :
  let ar := all_reduce 2 [1] in
  let r := convert_all_reduce working true ar ∅ (mkFocus four_collectives 9) in
  r.1 = Ok {[ 2 := mkReplacedAsync 9 10 ]} ∧
  ∃ st dn,
    find_instruction (computation r.2) 9 = Some st ∧
    find_instruction (computation r.2) 10 = Some dn ∧
    opcode st = kAllReduceStart ∧ shape st = f32 ∧ operands st = [1] ∧
    to_apply st = Some 9 ∧ replica_groups st = [[0%Z; 1%Z]] ∧
    channel_id st = Some 1%Z ∧ use_global_device_ids st = true ∧
    opcode dn = kAllReduceDone ∧ shape dn = f32 ∧ operands dn = [9] ∧
    find_instruction (computation r.2) 2 = None.
Proof.
  intros ar r. split; [vm_compute; reflexivity|].
  destruct (all_reduce_start_keeps_attributes working true ar ∅ four_collectives 9
              {[ 2 := mkReplacedAsync 9 10 ]} r.2)
    as (st & dn & Hst & Hdn & H1 & H2 & H3 & H4 & H5 & _ & H7 & H8 & H9 & H10 & H11 & H12 & _).
  - unfold ids_below. by_evaluation.
  - reflexivity.
  - vm_compute. reflexivity.
  - exists st, dn. split_and!; assumption.
Defined.

Lemma all_gather_start_shape_and_attributes_witness :
  let ag := instr 3 kAllGather [2] in
  let r := convert_all_gather working true ag ∅ (mkFocus four_collectives 9) in
  r.1 = Ok {[ 3 := mkReplacedAsync 9 10 ]} ∧
  ∃ st dn,
    find_instruction (computation r.2) 9 = Some st ∧
    find_instruction (computation r.2) 10 = Some dn ∧
    opcode st = kAllGatherStart ∧ shape st = TupleShape [f32; f32] ∧
    operands st = [2] ∧
    opcode dn = kAllGatherDone ∧ shape dn = f32 ∧ operands dn = [9].
Proof.
  intros ag r. split; [vm_compute; reflexivity|].
  destruct (all_gather_start_shape_and_attributes working true ag ∅ four_collectives 9
              {[ 3 := mkReplacedAsync 9 10 ]} r.2)
    as (shs & input & st & dn & Hshs & Hin & Hst & Hdn & H1 & H2 & H3 & _ & _ & _ & _ & _
        & H9 & H10 & H11 & _).
  - unfold ids_below. by_evaluation.
  - reflexivity.
  - vm_compute. reflexivity.
  - exists st, dn. split_and!; try assumption.
    rewrite H2. vm_compute in Hin. subst shs.
    apply Forall2_cons_inv_r in Hshs as (o & ops & (op & Hop & Hsh) & _ & Hops).
    injection Hops as <- _. vm_compute in Hop. injection Hop as <-. by rewrite <- Hsh.
Defined.

Lemma collective_permute_start_shape_and_operands_witness :
  let one := convert_collective_permute accept_all working true (permute 2 [1]) ∅
               (mkFocus permute_one_operand 4) in
  let four := convert_collective_permute accept_all working true (permute 5 [1; 2; 3; 4]) ∅
                (mkFocus permute_four_operands 6) in
  one.1 = Ok {[ 2 := mkReplacedAsync 4 5 ]} ∧
  four.1 = Ok {[ 5 := mkReplacedAsync 6 7 ]} ∧
  (∃ st, find_instruction (computation one.2) 4 = Some st ∧
         opcode st = kCollectivePermuteStart ∧
         source_target_pairs st = [(0%Z, 1%Z)] ∧ channel_id st = Some 3%Z ∧
         operands st = [1] ∧ dynamic_slice_sizes_list st = []) ∧
  (∃ st, find_instruction (computation four.2) 6 = Some st ∧
         opcode st = kCollectivePermuteStart ∧
         operands st = [1; 2; 3; 4] ∧
         ∃ shs, InferCollectivePermuteStartShape working shs = OkValue (shape st)).
Proof.
  intros one four.
  split; [vm_compute; reflexivity|]. split; [vm_compute; reflexivity|]. split.
  - destruct (collective_permute_start_shape_and_operands accept_all working true
                (permute 2 [1]) ∅ permute_one_operand 4 {[ 2 := mkReplacedAsync 4 5 ]} one.2)
      as (st & Hst & Hop & Hpairs & Hch & Hops & Hone & _).
    + unfold ids_below. by_evaluation.
    + reflexivity.
    + vm_compute. reflexivity.
    + exists st. destruct (Hone eq_refl) as (o & op & _ & _ & _ & Hdyn).
      split_and!; assumption.
  - destruct (collective_permute_start_shape_and_operands accept_all working true
                (permute 5 [1; 2; 3; 4]) ∅ permute_four_operands 6
                {[ 5 := mkReplacedAsync 6 7 ]} four.2)
      as (st & Hst & Hop & _ & _ & Hops & _ & Hfour).
    + unfold ids_below. by_evaluation.
    + reflexivity.
    + vm_compute. reflexivity.
    + exists st. destruct Hfour as (_ & shs & _ & Hinf & _); [vm_compute; discriminate|].
      split_and!; try assumption. by exists shs.
Defined.

Lemma Run_rewires_users_to_the_done_witness :
  let s' := (RunOnModule accept_all working module_four ∅).2 in
  wf_module module_four ∧
  ∃ c' σ created,
    computations (st_module s') !! 1 = Some c' ∧
    instructions c'
      = (rewire σ <$> filter (λ i, is_supported_collective accept_all i = false)
                        (instructions four_collectives)) ++ created ∧
    (∀ p, is_Some (σ !! p) ↔ p ∈ supported_collectives_of accept_all four_collectives) ∧
    root_instruction c' = default 6 (σ !! 6).
Proof.
  intros s'. split; [exact module_four_wf|].
  destruct (Run_rewires_users_to_the_done accept_all working module_four ∅ true s' 1
              four_collectives module_four_wf)
    as (c' & σ & created & Hc' & Hl' & _ & Hdom & _ & Hroot).
  - by_evaluation.
  - reflexivity.
  - vm_compute. reflexivity.
  - exists c', σ, created. split_and!; assumption.
Defined.

Lemma schedule_still_covers_computation_witness :
  let s' := (RunOnModule accept_all working module_four ∅).2 in
  sched_entry module_four 1 = Some [1; 2; 3; 4; 5; 6] ∧
  sched_entry (st_module s') 1 = Some [1; 9; 10; 11; 12; 13; 14; 15; 16; 6] ∧
  ∃ c' sq',
    computations (st_module s') !! 1 = Some c' ∧
    sched_entry (st_module s') 1 = Some sq' ∧
    sq' ≡ₚ unique_id <$> instructions c'.
Proof.
  intros s'. split; [reflexivity|]. split; [vm_compute; reflexivity|].
  apply (schedule_still_covers_computation accept_all working module_four ∅ true s' 1
           four_collectives [1; 2; 3; 4; 5; 6] module_four_wf).
  - by_evaluation.
  - reflexivity.
  - reflexivity.
  - reflexivity.
  - intros i. reflexivity.
  - vm_compute. reflexivity.
Defined.

Lemma split_tracking_leaves_send_done_unscheduled_witness :
  let s' := (RunOnModule accept_all_split working module_four ∅).2 in
  sched_entry (st_module s') 1 = Some [1; 9; 10; 11; 12; 13; 14; 16; 17; 6] ∧
  ∃ c' sq' sends,
    computations (st_module s') !! 1 = Some c' ∧
    sched_entry (st_module s') 1 = Some sq' ∧
    sq' ++ sends ≡ₚ unique_id <$> instructions c' ∧
    Forall (λ q, (q ∉ sq') ∧
                 ∃ i, find_instruction c' q = Some i ∧ is_send_done i) sends ∧
    length sends = 1.
Proof.
  intros s'. split; [vm_compute; reflexivity|].
  destruct (split_tracking_leaves_send_done_unscheduled accept_all_split working module_four
              ∅ true s' 1 four_collectives [1; 2; 3; 4; 5; 6] module_four_wf)
    as (c' & sq' & sends & Hc' & Hsq' & Hperm & Hsends & Hcount).
  - by_evaluation.
  - reflexivity.
  - reflexivity.
  - reflexivity.
  - vm_compute. reflexivity.
  - exists c', sq', sends. split_and!; try assumption.
    rewrite Hcount; [reflexivity|]. intros i _. reflexivity.
Defined.

Lemma module_four_convertible :
  ∀ cid c, computations module_four !! cid = Some c → candidates_convertible accept_all c.
Proof.
  intros cid c Hc. apply candidates_convertible_alt. revert cid c Hc.
  change (map_Forall
            (λ _ c,
               Forall (λ i, is_supported_collective accept_all i = true →
                            Forall (λ o, is_Some (find_list (instructions c) o)) (operands i) ∧
                            (opcode i = kCollectivePermute →
                             operand_count i = 1 ∨ operand_count i = 4) ∧
                            (opcode i = kAllGather → 1 ≤ operand_count i))
                      (instructions c))
            (computations module_four)).
  by_evaluation.
Defined.

Lemma Run_succeeds_witness :
  wf_module module_four ∧ collaborators_succeed working ∧
  ∃ ch s', RunOnModule accept_all working module_four ∅ = (Ok ch, s').
Proof.
  split; [exact module_four_wf|]. split; [exact working_succeeds|].
  apply (Run_succeeds accept_all working module_four ∅ module_four_wf working_succeeds).
  intros cid c _ Hc. exact (module_four_convertible cid c Hc).
Defined.

Lemma Run_instruction_count_witness :
  let s' := (RunOnModule accept_all_split working module_four ∅).2 in
  length (instructions four_collectives) = 6 ∧
  length (supported_collectives_of accept_all_split four_collectives) = 4 ∧
  ∃ c', computations (st_module s') !! 1 = Some c' ∧ length (instructions c') = 6 + 4 + 1.
Proof.
  intros s'. split; [reflexivity|]. split; [reflexivity|].
  destruct (Run_instruction_count accept_all_split working module_four ∅ true s' 1
              four_collectives module_four_wf)
    as (c' & k & Hc' & Hlen & _ & _ & Hk).
  - by_evaluation.
  - reflexivity.
  - vm_compute. reflexivity.
  - exists c'. split; [exact Hc'|]. rewrite Hlen, Hk; [reflexivity|].
    intros i _. reflexivity.
Defined.

Lemma predicates_matter_only_on_their_kind_witness :
  convert_all_gather_ own_kind_only (all_reduce 2 [1])
    ≠ convert_all_gather_ accept_all (all_reduce 2 [1]) ∧
  track_send_recv_separately_ own_kind_only (all_reduce 2 [1])
    ≠ track_send_recv_separately_ accept_all (all_reduce 2 [1]) ∧
  RunOnModule own_kind_only working module_four ∅
    = RunOnModule accept_all working module_four ∅.
Proof.
  split; [vm_compute; discriminate|]. split; [vm_compute; discriminate|].
  apply (predicates_matter_only_on_their_kind accept_all working own_kind_only).
  - intros i Hop. cbn. by rewrite Hop.
  - intros i Hop. cbn. by rewrite Hop.
  - intros i Hop. cbn. by rewrite Hop.
  - intros i Hop. cbn. by rewrite Hop.
  - intros i Hop. cbn. by rewrite Hop.
Defined.

